(** * JPTextNormTF: the Japanese numeral and date normalizer

    A shallow embedding of [DateNormalizer] and of [TextCleaner] from
    [src/JPTextNormTF/core.py] and of the parts of the Python library
    they call ([str], [int], [re], [calendar.monthrange], format
    specifications), followed by the properties of the numeral converter,
    of the date rewriter and of the text cleaner.

    Conventions.
    - A Python [str] is a list of Unicode code points ([N]).
    - A Python [int] is a [Z]: Python integers are unbounded.  The
      interpreter's configurable limit on the length of decimal strings
      converted by [int()] is not part of the model.
    - A call that may raise returns a [result]; [Raise e] is the
      exception [e] leaving the call.
    - The library is CPython 3.8 or later ([calendar.monthrange] accepts
      every year), with the character tables of Unicode 14.0.

    - [unicodedata.normalize] is not modelled: the text cleaner takes
      the NFKC normalization as a parameter.

    The definitions come first: the library fragment, the classes, then
    the vocabulary of the statements.  The lemmas and the results on
    the numeral converter, on the date rewriter and on the text cleaner
    follow. *)

From Stdlib Require Import String Ascii.
From Stdlib Require Import ZArith NArith List Bool Lia.
Import ListNotations.

(* ================================================================== *)
(** * Exceptions *)

Inductive exn : Type :=
| ValueError          (* int() on a string that is not a decimal numeral *)
| IllegalMonthError   (* calendar.monthrange with a month outside 1..12 *)
| KeyError.           (* dict[key] with an absent key *)

Inductive result (A : Type) : Type :=
| Ok (a : A)
| Raise (e : exn).

Arguments Ok {A} a.
Arguments Raise {A} e.

Definition bind {A B : Type} (x : result A) (k : A -> result B) : result B :=
  match x with
  | Ok a => k a
  | Raise e => Raise e
  end.

Notation "x <- e ;; k" := (bind e (fun x => k))
  (at level 61, e at next level, right associativity).

(* ================================================================== *)
(** * Python strings *)

Definition char := N.
Definition str := list char.

Definition char_eqb (a b : char) : bool := N.eqb a b.

Fixpoint str_eqb (a b : str) : bool :=
  match a, b with
  | [], [] => true
  | x :: a', y :: b' => char_eqb x y && str_eqb a' b'
  | _, _ => false
  end.

(** [d.get(k)] on a dictionary literal, kept as the list of its items. *)
Fixpoint lookup {K V : Type} (eqb : K -> K -> bool) (k : K) (d : list (K * V))
  : option V :=
  match d with
  | [] => None
  | (k', v) :: d' => if eqb k k' then Some v else lookup eqb k d'
  end.

(** Source text is UTF-8; [py] decodes a literal of this file into the
    code points of the Python string it denotes. *)
Fixpoint utf8_decode (bs : list N) : str :=
  match bs with
  | [] => []
  | b0 :: t0 =>
      if (b0 <? 0x80)%N then b0 :: utf8_decode t0
      else if (b0 <? 0xE0)%N then
        match t0 with
        | b1 :: t1 => ((b0 - 0xC0) * 64 + (b1 - 0x80))%N :: utf8_decode t1
        | _ => []
        end
      else if (b0 <? 0xF0)%N then
        match t0 with
        | b1 :: b2 :: t2 =>
            ((b0 - 0xE0) * 4096 + (b1 - 0x80) * 64 + (b2 - 0x80))%N
              :: utf8_decode t2
        | _ => []
        end
      else
        match t0 with
        | b1 :: b2 :: b3 :: t3 =>
            ((b0 - 0xF0) * 262144 + (b1 - 0x80) * 4096
             + (b2 - 0x80) * 64 + (b3 - 0x80))%N :: utf8_decode t3
        | _ => []
        end
  end.

Definition py (s : String.string) : str :=
  utf8_decode (map N_of_ascii (list_ascii_of_string s)).
Arguments py s%_string.

(** The single character of a one-character literal. *)
Definition ch (s : String.string) : char := hd 0%N (py s).
Arguments ch s%_string.

(* ================================================================== *)
(** * The Unicode character database (Unicode 14.0, as CPython 3.11)

    [\d] in a [str] pattern and [int()] accept the characters of general
    category Nd.  They come in runs of ten consecutive code points, digit
    0 first; [decimal_zeros] lists the first code point of every run.
    [str.isdigit] accepts in addition the characters whose numeric type is
    Digit (superscripts, circled digits, ...), listed as ranges. *)

Definition decimal_zeros : list N :=
  [0x30; 0x660; 0x6f0; 0x7c0; 0x966; 0x9e6; 0xa66; 0xae6; 0xb66; 0xbe6;
   0xc66; 0xce6; 0xd66; 0xde6; 0xe50; 0xed0; 0xf20; 0x1040; 0x1090; 0x17e0;
   0x1810; 0x1946; 0x19d0; 0x1a80; 0x1a90; 0x1b50; 0x1bb0; 0x1c40; 0x1c50;
   0xa620; 0xa8d0; 0xa900; 0xa9d0; 0xa9f0; 0xaa50; 0xabf0; 0xff10; 0x104a0;
   0x10d30; 0x11066; 0x110f0; 0x11136; 0x111d0; 0x112f0; 0x11450; 0x114d0;
   0x11650; 0x116c0; 0x11730; 0x118e0; 0x11950; 0x11c50; 0x11d50; 0x11da0;
   0x16a60; 0x16ac0; 0x16b50; 0x1d7ce; 0x1d7d8; 0x1d7e2; 0x1d7ec; 0x1d7f6;
   0x1e140; 0x1e2f0; 0x1e950; 0x1fbf0]%N.

Definition digit_only_ranges : list (N * N) :=
  [(0xb2, 0xb3); (0xb9, 0xb9); (0x1369, 0x1371); (0x19da, 0x19da);
   (0x2070, 0x2070); (0x2074, 0x2079); (0x2080, 0x2089); (0x2460, 0x2468);
   (0x2474, 0x247c); (0x2488, 0x2490); (0x24ea, 0x24ea); (0x24f5, 0x24fd);
   (0x24ff, 0x24ff); (0x2776, 0x277e); (0x2780, 0x2788); (0x278a, 0x2792);
   (0x10a40, 0x10a43); (0x10e60, 0x10e68); (0x11052, 0x1105a);
   (0x1f100, 0x1f10a)]%N.

Definition in_range (c : char) (r : N * N) : bool :=
  (fst r <=? c)%N && (c <=? snd r)%N.

Fixpoint decimal_in (zs : list N) (c : char) : option Z :=
  match zs with
  | [] => None
  | z :: zs' =>
      if in_range c (z, z + 9)%N then Some (Z.of_N (c - z))
      else decimal_in zs' c
  end.

(** [unicodedata.decimal(c)], [None] when [c] is not of category Nd. *)
Definition decimal_value (c : char) : option Z := decimal_in decimal_zeros c.

Definition isdecimal (c : char) : bool :=
  match decimal_value c with Some _ => true | None => false end.

(** [c.isdigit()] for a single character. *)
Definition isdigit (c : char) : bool :=
  isdecimal c || existsb (in_range c) digit_only_ranges.

(* ================================================================== *)
(** * [int(s)], [str(n)] and the [0Nd] format specification *)

Fixpoint int_loop (s : str) (acc : Z) : result Z :=
  match s with
  | [] => Ok acc
  | c :: s' =>
      match decimal_value c with
      | Some d => int_loop s' (10 * acc + d)
      | None => Raise ValueError
      end
  end.

(** [int(s)] on a string without sign, blank or underscore, the only
    strings this program passes to it: every character must be a decimal
    digit and there must be at least one. *)
Definition int (s : str) : result Z :=
  match s with
  | [] => Raise ValueError
  | _ => int_loop s 0
  end.

Fixpoint uint_str (u : Decimal.uint) : str :=
  match u with
  | Decimal.Nil => []
  | Decimal.D0 u' => 0x30%N :: uint_str u'
  | Decimal.D1 u' => 0x31%N :: uint_str u'
  | Decimal.D2 u' => 0x32%N :: uint_str u'
  | Decimal.D3 u' => 0x33%N :: uint_str u'
  | Decimal.D4 u' => 0x34%N :: uint_str u'
  | Decimal.D5 u' => 0x35%N :: uint_str u'
  | Decimal.D6 u' => 0x36%N :: uint_str u'
  | Decimal.D7 u' => 0x37%N :: uint_str u'
  | Decimal.D8 u' => 0x38%N :: uint_str u'
  | Decimal.D9 u' => 0x39%N :: uint_str u'
  end.

(** Decimal digits of a natural number, no leading zero, ["0"] for 0. *)
Definition digits_of (n : N) : str := uint_str (N.to_uint n).

Definition hyphen : char := 0x2D%N.
Definition zero_char : char := 0x30%N.

(** [str(n)]. *)
Definition py_str (n : Z) : str :=
  if (n <? 0)%Z then hyphen :: digits_of (Z.to_N (- n))
  else digits_of (Z.to_N n).

Definition zfill (width : nat) (s : str) : str :=
  repeat zero_char (width - length s) ++ s.

(** [format(n, "0{width}d")]: sign first, then zeros up to [width]. *)
Definition format_0d (width : nat) (n : Z) : str :=
  if (n <? 0)%Z then hyphen :: zfill (width - 1) (digits_of (Z.to_N (- n)))
  else zfill width (digits_of (Z.to_N n)).

(** [f"{year:04d}-{month:02d}-{day:02d}"]. *)
Definition format_date (year month day : Z) : str :=
  format_0d 4 year ++ hyphen :: format_0d 2 month ++ hyphen :: format_0d 2 day.

(* ================================================================== *)
(** * The fragment of [re] used by the program

    Patterns are built from literals, character classes, greedy bounded
    or unbounded repetition of a class, sequence, ordered alternative and
    capturing groups; the four date patterns and [\d+] need nothing else
    (no group sits inside an alternative or under a repetition).

    [matches r s] lists the ways [r] matches a prefix of [s], in the order
    in which the backtracking matcher tries them: the first is the match
    the engine reports.  An entry is (matched text, groups, rest). *)

Module Re.

Inductive citem : Type :=
| CDigit                         (* \d *)
| CChar (c : char)               (* a literal character *)
| CRange (lo hi : char).         (* lo-hi *)

Definition cclass := list citem.

Definition item_match (c : char) (i : citem) : bool :=
  match i with
  | CDigit => isdecimal c
  | CChar x => char_eqb c x
  | CRange lo hi => in_range c (lo, hi)
  end.

Definition in_class (cs : cclass) (c : char) : bool :=
  existsb (item_match c) cs.

Inductive regex : Type :=
| Lit (l : str)
| Cls (cs : cclass)
| Rep (cs : cclass) (lo : nat) (hi : option nat)
| Seq (r1 r2 : regex)
| Alt (r1 r2 : regex)
| Grp (r : regex).

Definition mres : Type := (str * list str * str)%type.

Fixpoint strip_prefix (l s : str) : option str :=
  match l, s with
  | [], _ => Some s
  | x :: l', y :: s' => if char_eqb x y then strip_prefix l' s' else None
  | _ :: _, [] => None
  end.

Definition hi_allows (hi : option nat) : bool :=
  match hi with Some O => false | _ => true end.

(** Greedy repetition: first one more character, then stopping here. *)
Fixpoint rep_matches (cs : cclass) (lo : nat) (hi : option nat) (s : str)
  : list (str * str) :=
  let stop := match lo with O => [([], s)] | S _ => [] end in
  match s with
  | c :: s' =>
      if hi_allows hi && in_class cs c
      then map (fun ms : str * str => (c :: fst ms, snd ms))
               (rep_matches cs (pred lo) (option_map pred hi) s') ++ stop
      else stop
  | [] => stop
  end.

Fixpoint matches (r : regex) (s : str) : list mres :=
  match r with
  | Lit l =>
      match strip_prefix l s with
      | Some rest => [(l, [], rest)]
      | None => []
      end
  | Cls cs =>
      match s with
      | c :: s' => if in_class cs c then [([c], [], s')] else []
      | [] => []
      end
  | Rep cs lo hi =>
      map (fun ms : str * str => (fst ms, [], snd ms)) (rep_matches cs lo hi s)
  | Seq r1 r2 =>
      flat_map (fun x : mres =>
                  let '(m1, g1, rest1) := x in
                  map (fun y : mres =>
                         let '(m2, g2, rest2) := y in
                         (m1 ++ m2, g1 ++ g2, rest2))
                      (matches r2 rest1))
               (matches r1 s)
  | Alt r1 r2 => matches r1 s ++ matches r2 s
  | Grp r1 =>
      map (fun x : mres => let '(m, g, rest) := x in (m, m :: g, rest))
          (matches r1 s)
  end.

(** [pattern.match(s)]: the match at the start of [s], if any. *)
Definition re_match (r : regex) (s : str) : option mres :=
  hd_error (matches r s).

(** [re.fullmatch(pattern, s)]: the first way to match all of [s]. *)
Definition fullmatch (r : regex) (s : str) : option mres :=
  find (fun x : mres => match snd x with [] => true | _ => false end)
       (matches r s).

(** [pattern.sub(repl, s)] with a callable [repl], which receives the
    groups of each match.  Scanning goes left to right; [skip] counts the
    characters of the current match still to be dropped.  A match of the
    empty string is replaced and the scan moves on by one character. *)
Fixpoint sub_loop (r : regex) (repl : list str -> result str)
         (skip : nat) (s : str) : result str :=
  match skip with
  | S k =>
      match s with
      | [] => Ok []
      | _ :: s' => sub_loop r repl k s'
      end
  | O =>
      match re_match r s with
      | Some (m, g, _) =>
          out <- repl g ;;
          match s with
          | [] => Ok out
          | c :: s' =>
              match length m with
              | O => rest <- sub_loop r repl 0 s' ;; Ok (out ++ c :: rest)
              | S k => rest <- sub_loop r repl k s' ;; Ok (out ++ rest)
              end
          end
      | None =>
          match s with
          | [] => Ok []
          | c :: s' => rest <- sub_loop r repl 0 s' ;; Ok (c :: rest)
          end
      end
  end.

Definition sub (r : regex) (repl : list str -> result str) (s : str)
  : result str :=
  sub_loop r repl 0 s.

(** Sequence of several patterns. *)
Fixpoint seq (rs : list regex) : regex :=
  match rs with
  | [] => Lit []
  | [r] => r
  | r :: rs' => Seq r (seq rs')
  end.

(** Ordered alternative of literals, [a|b|c]. *)
Fixpoint alt_lits (ls : list str) : regex :=
  match ls with
  | [] => Cls []
  | [l] => Lit l
  | l :: ls' => Alt (Lit l) (alt_lits ls')
  end.

(** ** Patterns that cannot match over an alphabet

    [dead A r]: some mandatory part of [r] needs a character outside the
    alphabet [A]. *)
Fixpoint dead (A : char -> bool) (r : regex) : Prop :=
  match r with
  | Lit l => existsb (fun c => negb (A c)) l = true
  | Cls cs => forall c, A c = true -> in_class cs c = false
  | Rep cs lo _ => lo <> 0 /\ forall c, A c = true -> in_class cs c = false
  | Seq r1 r2 => dead A r1 \/ dead A r2
  | Alt r1 r2 => dead A r1 /\ dead A r2
  | Grp r1 => dead A r1
  end.

(** [s] is empty or starts with a character outside [cs]: a repetition
    of [cs] cannot go on into [s]. *)
Definition starts_outside (cs : cclass) (s : str) : bool :=
  match s with
  | [] => true
  | c :: _ => negb (in_class cs c)
  end.

End Re.

Import Re.

(* ================================================================== *)
(** * [calendar.monthrange]

    [monthrange(year, month)[1]]: the month table plus one for a leap
    February.  The weekday component is computed for every year (years
    outside 1..9999 are first reduced modulo 400) and is not used by the
    program. *)

Definition February : Z := 2.

Definition mdays : list Z := [0; 31; 28; 31; 30; 31; 30; 31; 31; 30; 31; 30; 31]%Z.

Definition isleap (year : Z) : bool :=
  ((year mod 4 =? 0) && (negb (year mod 100 =? 0) || (year mod 400 =? 0)))%Z.

Definition monthrange_ndays (year month : Z) : result Z :=
  if ((1 <=? month) && (month <=? 12))%Z
  then Ok (nth (Z.to_nat month) mdays 0
           + (if (month =? February)%Z && isleap year then 1 else 0))%Z
  else Raise IllegalMonthError.

(* ================================================================== *)
(** * [class DateNormalizer]

    The class tables, then the methods in the order of the source:
    [parse_small], [kanji_to_int], [normalize_number], [replace_dates]
    with its local functions, and [normalize].  A dictionary literal is
    the list of its items, read with [lookup]. *)

Definition KANJI_NUM : list (char * Z) := Eval vm_compute in
  [(ch "零", 0); (ch "〇", 0); (ch "一", 1); (ch "二", 2); (ch "三", 3);
   (ch "四", 4); (ch "五", 5); (ch "六", 6); (ch "七", 7); (ch "八", 8);
   (ch "九", 9)]%Z.

Definition UNIT_SMALL : list (char * Z) := Eval vm_compute in
  [(ch "十", 10); (ch "百", 100); (ch "千", 1000)]%Z.

Definition UNIT_LARGE : list (char * Z) := Eval vm_compute in
  [(ch "万", 10 ^ 4); (ch "億", 10 ^ 8); (ch "兆", 10 ^ 12)]%Z.

Definition ERA_MAP : list (str * Z) := Eval vm_compute in
  [(py "令和", 2019); (py "平成", 1989); (py "昭和", 1926);
   (py "大正", 1912); (py "明治", 1868)]%Z.

Definition ERA_ABBR_MAP : list (str * Z) := Eval vm_compute in
  [(py "R", 2019); (py "H", 1989); (py "S", 1926); (py "T", 1912);
   (py "M", 1868)]%Z.

(** [str.maketrans("０１２３４５６７８９", "0123456789")] *)
Definition FW_MAP : list (char * char) := Eval vm_compute in
  combine (py "０１２３４５６７８９") (py "0123456789").

(** [text.translate(table)] *)
Definition translate (table : list (char * char)) (text : str) : str :=
  map (fun c => match lookup char_eqb c table with
                | Some c' => c'
                | None => c
                end) text.

Definition kanji_num (c : char) : option Z := lookup char_eqb c KANJI_NUM.
Definition unit_small (c : char) : option Z := lookup char_eqb c UNIT_SMALL.
Definition unit_large (c : char) : option Z := lookup char_eqb c UNIT_LARGE.

(** The [for] loop of [parse_small] and its final [total += num], from
    the state [(total, num)]. *)
Fixpoint parse_small_loop (s : str) (total num : Z) : Z :=
  match s with
  | [] => total + num
  | c :: s' =>
      match kanji_num c with
      | Some v => parse_small_loop s' total v
      | None =>
          match unit_small c with
          | Some unit =>
              let num := if (num =? 0)%Z then 1%Z else num in
              parse_small_loop s' (total + num * unit) 0
          | None => parse_small_loop s' total num
          end
      end
  end.

Definition parse_small (s : str) : Z := parse_small_loop s 0 0.

(** [(ch in UNIT_SMALL) or (ch in UNIT_LARGE)] *)
Definition is_unit (c : char) : bool :=
  match unit_small c, unit_large c with
  | None, None => false
  | _, _ => true
  end.

Definition has_unit (s : str) : bool := existsb is_unit s.

(** The [for] loop of the units branch of [kanji_to_int] and its final
    [total += parse_small(current)], from the state [(total, current)]. *)
Fixpoint units_loop (s : str) (total : Z) (current : str) : Z :=
  match s with
  | [] => total + parse_small current
  | c :: s' =>
      match unit_large c with
      | Some v =>
          let val := parse_small current in
          let val := if (val =? 0)%Z then 1%Z else val in
          units_loop s' (total + val * v) []
      | None => units_loop s' total (current ++ [c])
      end
  end.

(** The list [digits] built by the digit-string branch. *)
Fixpoint digit_strings (s : str) : list str :=
  match s with
  | [] => []
  | c :: s' =>
      match kanji_num c with
      | Some v => py_str v :: digit_strings s'
      | None =>
          if isdigit c then [c] :: digit_strings s' else digit_strings s'
      end
  end.

Definition kanji_to_int (s : str) : result Z :=
  match s with
  | [] => Ok 0%Z
  | _ =>
      if has_unit s then Ok (units_loop s 0 [])
      else
        match digit_strings s with
        | [] => Ok 0%Z
        | digits => int (concat digits)
        end
  end.

Definition gan : str := Eval vm_compute in py "元".

Definition re_digits : Re.regex := Re.Rep [Re.CDigit] 1 None.   (* \d+ *)

Definition normalize_number (s : str) : result Z :=
  if str_eqb s gan then Ok 1%Z
  else
    match Re.fullmatch re_digits s with
    | Some _ => int s
    | None => kanji_to_int s
    end.

(** ** [replace_dates] *)

Definition matsujitsu : str := Eval vm_compute in py "末日".

Definition kanji_num_chars : Re.cclass := Eval vm_compute in
  map Re.CChar (py "元") ++ [Re.CDigit] ++ map Re.CChar (py "一二三四五六七八九十百〇").

(** [if era_base:] holds for a base other than [None] and 0;
    [day_str[:-1]] is [removelast day_str]. *)
Definition _make_repl (era_year month day_str : str) (era_base : option Z)
  : result str :=
  year <- normalize_number era_year ;;
  let year := match era_base with
              | Some b => if (b =? 0)%Z then year else (b + year - 1)%Z
              | None => year
              end in
  month <- normalize_number month ;;
  day <- (if str_eqb day_str matsujitsu then monthrange_ndays year month
          else normalize_number (removelast day_str)) ;;
  Ok (format_date year month day).

(** The replacement functions receive [m.groups()]. *)
Definition era_repl (groups : list str) : result str :=
  match groups with
  | [era; y; mth; d] =>
      match lookup str_eqb era ERA_MAP with
      | Some b => _make_repl y mth d (Some b)
      | None => Raise KeyError
      end
  | _ => Raise ValueError
  end.

Definition era_pattern : Re.regex := Eval vm_compute in
  Re.seq [Re.Grp (Re.alt_lits [py "明治"; py "大正"; py "昭和"; py "平成"; py "令和"]);
          Re.Grp (Re.Rep kanji_num_chars 1 None); Re.Lit (py "年");
          Re.Grp (Re.Rep kanji_num_chars 1 None); Re.Lit (py "月");
          Re.Grp (Re.Alt (Re.Lit (py "末日"))
                         (Re.Seq (Re.Rep kanji_num_chars 1 None) (Re.Lit (py "日"))))].

Definition seireki_repl (groups : list str) : result str :=
  match groups with
  | [y; mth; d] => _make_repl y mth d None
  | _ => Raise ValueError
  end.

Definition seireki_year_chars : Re.cclass := Eval vm_compute in
  [Re.CRange (ch "０") (ch "９"); Re.CDigit]
    ++ map Re.CChar (py "〇一二三四五六七八九十百千").

Definition seireki_pattern : Re.regex := Eval vm_compute in
  Re.seq [Re.Grp (Re.Rep seireki_year_chars 2 (Some 4)); Re.Lit (py "年");
          Re.Grp (Re.Rep kanji_num_chars 1 None); Re.Lit (py "月");
          Re.Grp (Re.Alt (Re.Lit (py "末日"))
                         (Re.Seq (Re.Rep kanji_num_chars 1 None) (Re.Lit (py "日"))))].

Definition abbr_repl (groups : list str) : result str :=
  match groups with
  | [era_abbr; y; mth; d] =>
      match lookup str_eqb era_abbr ERA_ABBR_MAP with
      | Some b => _make_repl y mth d (Some b)
      | None => Raise KeyError
      end
  | _ => Raise ValueError
  end.

Definition abbr_pattern : Re.regex := Eval vm_compute in
  Re.seq [Re.Grp (Re.Cls (map Re.CChar (py "RHSTM")));
          Re.Grp (Re.Rep (map Re.CChar (py "元") ++ [Re.CDigit]) 1 None);
          Re.Cls (map Re.CChar (py "年./"));
          Re.Grp (Re.Rep [Re.CDigit] 1 (Some 2));
          Re.Cls (map Re.CChar (py "月./"));
          Re.Grp (Re.Alt (Re.Lit (py "末日")) (Re.Rep [Re.CDigit] 1 (Some 2)));
          Re.Rep (map Re.CChar (py "日")) 0 (Some 1)].

(** The [lambda] of the delimiter pass, on [m[1]], [m[2]], [m[3]]. *)
Definition delim_repl (groups : list str) : result str :=
  match groups with
  | [m1; m2; m3] =>
      y <- int m1 ;; m <- int m2 ;; d <- int m3 ;; Ok (format_date y m d)
  | _ => Raise ValueError
  end.

Definition delim_pattern : Re.regex := Eval vm_compute in
  Re.seq [Re.Grp (Re.Rep [Re.CDigit] 4 (Some 4));
          Re.Cls (map Re.CChar (py "./"));
          Re.Grp (Re.Rep [Re.CDigit] 1 (Some 2));
          Re.Cls (map Re.CChar (py "./"));
          Re.Grp (Re.Rep [Re.CDigit] 1 (Some 2))].

Definition replace_dates (text : str) : result str :=
  text <- Re.sub era_pattern era_repl text ;;
  text <- Re.sub seireki_pattern seireki_repl text ;;
  text <- Re.sub abbr_pattern abbr_repl text ;;
  Re.sub delim_pattern delim_repl text.

(** [text.translate(FW_MAP)], then [replace_dates]. *)
Definition normalize (text : str) : result str :=
  replace_dates (translate FW_MAP text).

(* ================================================================== *)
(** * More of the Unicode character database

    [\s] in a [str] pattern and [str.strip()] take as whitespace the
    characters for which [str.isspace] holds; [\S] takes all the others;
    [\w] takes the characters for which [str.isalnum] holds and the
    underscore.  The three sets are listed as ranges of code points
    (Unicode 14.0, up to U+10FFFF). *)

Definition space_ranges : list (N * N) :=
  [(0x9, 0xd); (0x1c, 0x20); (0x85, 0x85); (0xa0, 0xa0); (0x1680, 0x1680);
   (0x2000, 0x200a); (0x2028, 0x2029); (0x202f, 0x202f); (0x205f, 0x205f);
   (0x3000, 0x3000)]%N.

Definition nonspace_ranges : list (N * N) :=
  [(0x0, 0x8); (0xe, 0x1b); (0x21, 0x84); (0x86, 0x9f); (0xa1, 0x167f);
   (0x1681, 0x1fff); (0x200b, 0x2027); (0x202a, 0x202e); (0x2030, 0x205e);
   (0x2060, 0x2fff); (0x3001, 0x10ffff)]%N.

Definition word_ranges : list (N * N) :=
  [(0x30, 0x39); (0x41, 0x5a); (0x5f, 0x5f); (0x61, 0x7a); (0xaa, 0xaa);
   (0xb2, 0xb3); (0xb5, 0xb5); (0xb9, 0xba); (0xbc, 0xbe); (0xc0, 0xd6);
   (0xd8, 0xf6); (0xf8, 0x2c1); (0x2c6, 0x2d1); (0x2e0, 0x2e4); (0x2ec, 0x2ec);
   (0x2ee, 0x2ee); (0x370, 0x374); (0x376, 0x377); (0x37a, 0x37d); (0x37f, 0x37f);
   (0x386, 0x386); (0x388, 0x38a); (0x38c, 0x38c); (0x38e, 0x3a1); (0x3a3, 0x3f5);
   (0x3f7, 0x481); (0x48a, 0x52f); (0x531, 0x556); (0x559, 0x559); (0x560, 0x588);
   (0x5d0, 0x5ea); (0x5ef, 0x5f2); (0x620, 0x64a); (0x660, 0x669); (0x66e, 0x66f);
   (0x671, 0x6d3); (0x6d5, 0x6d5); (0x6e5, 0x6e6); (0x6ee, 0x6fc); (0x6ff, 0x6ff);
   (0x710, 0x710); (0x712, 0x72f); (0x74d, 0x7a5); (0x7b1, 0x7b1); (0x7c0, 0x7ea);
   (0x7f4, 0x7f5); (0x7fa, 0x7fa); (0x800, 0x815); (0x81a, 0x81a); (0x824, 0x824);
   (0x828, 0x828); (0x840, 0x858); (0x860, 0x86a); (0x870, 0x887); (0x889, 0x88e);
   (0x8a0, 0x8c9); (0x904, 0x939); (0x93d, 0x93d); (0x950, 0x950); (0x958, 0x961);
   (0x966, 0x96f); (0x971, 0x980); (0x985, 0x98c); (0x98f, 0x990); (0x993, 0x9a8);
   (0x9aa, 0x9b0); (0x9b2, 0x9b2); (0x9b6, 0x9b9); (0x9bd, 0x9bd); (0x9ce, 0x9ce);
   (0x9dc, 0x9dd); (0x9df, 0x9e1); (0x9e6, 0x9f1); (0x9f4, 0x9f9); (0x9fc, 0x9fc);
   (0xa05, 0xa0a); (0xa0f, 0xa10); (0xa13, 0xa28); (0xa2a, 0xa30); (0xa32, 0xa33);
   (0xa35, 0xa36); (0xa38, 0xa39); (0xa59, 0xa5c); (0xa5e, 0xa5e); (0xa66, 0xa6f);
   (0xa72, 0xa74); (0xa85, 0xa8d); (0xa8f, 0xa91); (0xa93, 0xaa8); (0xaaa, 0xab0);
   (0xab2, 0xab3); (0xab5, 0xab9); (0xabd, 0xabd); (0xad0, 0xad0); (0xae0, 0xae1);
   (0xae6, 0xaef); (0xaf9, 0xaf9); (0xb05, 0xb0c); (0xb0f, 0xb10); (0xb13, 0xb28);
   (0xb2a, 0xb30); (0xb32, 0xb33); (0xb35, 0xb39); (0xb3d, 0xb3d); (0xb5c, 0xb5d);
   (0xb5f, 0xb61); (0xb66, 0xb6f); (0xb71, 0xb77); (0xb83, 0xb83); (0xb85, 0xb8a);
   (0xb8e, 0xb90); (0xb92, 0xb95); (0xb99, 0xb9a); (0xb9c, 0xb9c); (0xb9e, 0xb9f);
   (0xba3, 0xba4); (0xba8, 0xbaa); (0xbae, 0xbb9); (0xbd0, 0xbd0); (0xbe6, 0xbf2);
   (0xc05, 0xc0c); (0xc0e, 0xc10); (0xc12, 0xc28); (0xc2a, 0xc39); (0xc3d, 0xc3d);
   (0xc58, 0xc5a); (0xc5d, 0xc5d); (0xc60, 0xc61); (0xc66, 0xc6f); (0xc78, 0xc7e);
   (0xc80, 0xc80); (0xc85, 0xc8c); (0xc8e, 0xc90); (0xc92, 0xca8); (0xcaa, 0xcb3);
   (0xcb5, 0xcb9); (0xcbd, 0xcbd); (0xcdd, 0xcde); (0xce0, 0xce1); (0xce6, 0xcef);
   (0xcf1, 0xcf2); (0xd04, 0xd0c); (0xd0e, 0xd10); (0xd12, 0xd3a); (0xd3d, 0xd3d);
   (0xd4e, 0xd4e); (0xd54, 0xd56); (0xd58, 0xd61); (0xd66, 0xd78); (0xd7a, 0xd7f);
   (0xd85, 0xd96); (0xd9a, 0xdb1); (0xdb3, 0xdbb); (0xdbd, 0xdbd); (0xdc0, 0xdc6);
   (0xde6, 0xdef); (0xe01, 0xe30); (0xe32, 0xe33); (0xe40, 0xe46); (0xe50, 0xe59);
   (0xe81, 0xe82); (0xe84, 0xe84); (0xe86, 0xe8a); (0xe8c, 0xea3); (0xea5, 0xea5);
   (0xea7, 0xeb0); (0xeb2, 0xeb3); (0xebd, 0xebd); (0xec0, 0xec4); (0xec6, 0xec6);
   (0xed0, 0xed9); (0xedc, 0xedf); (0xf00, 0xf00); (0xf20, 0xf33); (0xf40, 0xf47);
   (0xf49, 0xf6c); (0xf88, 0xf8c); (0x1000, 0x102a); (0x103f, 0x1049); (0x1050, 0x1055);
   (0x105a, 0x105d); (0x1061, 0x1061); (0x1065, 0x1066); (0x106e, 0x1070); (0x1075, 0x1081);
   (0x108e, 0x108e); (0x1090, 0x1099); (0x10a0, 0x10c5); (0x10c7, 0x10c7); (0x10cd, 0x10cd);
   (0x10d0, 0x10fa); (0x10fc, 0x1248); (0x124a, 0x124d); (0x1250, 0x1256); (0x1258, 0x1258);
   (0x125a, 0x125d); (0x1260, 0x1288); (0x128a, 0x128d); (0x1290, 0x12b0); (0x12b2, 0x12b5);
   (0x12b8, 0x12be); (0x12c0, 0x12c0); (0x12c2, 0x12c5); (0x12c8, 0x12d6); (0x12d8, 0x1310);
   (0x1312, 0x1315); (0x1318, 0x135a); (0x1369, 0x137c); (0x1380, 0x138f); (0x13a0, 0x13f5);
   (0x13f8, 0x13fd); (0x1401, 0x166c); (0x166f, 0x167f); (0x1681, 0x169a); (0x16a0, 0x16ea);
   (0x16ee, 0x16f8); (0x1700, 0x1711); (0x171f, 0x1731); (0x1740, 0x1751); (0x1760, 0x176c);
   (0x176e, 0x1770); (0x1780, 0x17b3); (0x17d7, 0x17d7); (0x17dc, 0x17dc); (0x17e0, 0x17e9);
   (0x17f0, 0x17f9); (0x1810, 0x1819); (0x1820, 0x1878); (0x1880, 0x1884); (0x1887, 0x18a8);
   (0x18aa, 0x18aa); (0x18b0, 0x18f5); (0x1900, 0x191e); (0x1946, 0x196d); (0x1970, 0x1974);
   (0x1980, 0x19ab); (0x19b0, 0x19c9); (0x19d0, 0x19da); (0x1a00, 0x1a16); (0x1a20, 0x1a54);
   (0x1a80, 0x1a89); (0x1a90, 0x1a99); (0x1aa7, 0x1aa7); (0x1b05, 0x1b33); (0x1b45, 0x1b4c);
   (0x1b50, 0x1b59); (0x1b83, 0x1ba0); (0x1bae, 0x1be5); (0x1c00, 0x1c23); (0x1c40, 0x1c49);
   (0x1c4d, 0x1c7d); (0x1c80, 0x1c88); (0x1c90, 0x1cba); (0x1cbd, 0x1cbf); (0x1ce9, 0x1cec);
   (0x1cee, 0x1cf3); (0x1cf5, 0x1cf6); (0x1cfa, 0x1cfa); (0x1d00, 0x1dbf); (0x1e00, 0x1f15);
   (0x1f18, 0x1f1d); (0x1f20, 0x1f45); (0x1f48, 0x1f4d); (0x1f50, 0x1f57); (0x1f59, 0x1f59);
   (0x1f5b, 0x1f5b); (0x1f5d, 0x1f5d); (0x1f5f, 0x1f7d); (0x1f80, 0x1fb4); (0x1fb6, 0x1fbc);
   (0x1fbe, 0x1fbe); (0x1fc2, 0x1fc4); (0x1fc6, 0x1fcc); (0x1fd0, 0x1fd3); (0x1fd6, 0x1fdb);
   (0x1fe0, 0x1fec); (0x1ff2, 0x1ff4); (0x1ff6, 0x1ffc); (0x2070, 0x2071); (0x2074, 0x2079);
   (0x207f, 0x2089); (0x2090, 0x209c); (0x2102, 0x2102); (0x2107, 0x2107); (0x210a, 0x2113);
   (0x2115, 0x2115); (0x2119, 0x211d); (0x2124, 0x2124); (0x2126, 0x2126); (0x2128, 0x2128);
   (0x212a, 0x212d); (0x212f, 0x2139); (0x213c, 0x213f); (0x2145, 0x2149); (0x214e, 0x214e);
   (0x2150, 0x2189); (0x2460, 0x249b); (0x24ea, 0x24ff); (0x2776, 0x2793); (0x2c00, 0x2ce4);
   (0x2ceb, 0x2cee); (0x2cf2, 0x2cf3); (0x2cfd, 0x2cfd); (0x2d00, 0x2d25); (0x2d27, 0x2d27);
   (0x2d2d, 0x2d2d); (0x2d30, 0x2d67); (0x2d6f, 0x2d6f); (0x2d80, 0x2d96); (0x2da0, 0x2da6);
   (0x2da8, 0x2dae); (0x2db0, 0x2db6); (0x2db8, 0x2dbe); (0x2dc0, 0x2dc6); (0x2dc8, 0x2dce);
   (0x2dd0, 0x2dd6); (0x2dd8, 0x2dde); (0x2e2f, 0x2e2f); (0x3005, 0x3007); (0x3021, 0x3029);
   (0x3031, 0x3035); (0x3038, 0x303c); (0x3041, 0x3096); (0x309d, 0x309f); (0x30a1, 0x30fa);
   (0x30fc, 0x30ff); (0x3105, 0x312f); (0x3131, 0x318e); (0x3192, 0x3195); (0x31a0, 0x31bf);
   (0x31f0, 0x31ff); (0x3220, 0x3229); (0x3248, 0x324f); (0x3251, 0x325f); (0x3280, 0x3289);
   (0x32b1, 0x32bf); (0x3400, 0x4dbf); (0x4e00, 0xa48c); (0xa4d0, 0xa4fd); (0xa500, 0xa60c);
   (0xa610, 0xa62b); (0xa640, 0xa66e); (0xa67f, 0xa69d); (0xa6a0, 0xa6ef); (0xa717, 0xa71f);
   (0xa722, 0xa788); (0xa78b, 0xa7ca); (0xa7d0, 0xa7d1); (0xa7d3, 0xa7d3); (0xa7d5, 0xa7d9);
   (0xa7f2, 0xa801); (0xa803, 0xa805); (0xa807, 0xa80a); (0xa80c, 0xa822); (0xa830, 0xa835);
   (0xa840, 0xa873); (0xa882, 0xa8b3); (0xa8d0, 0xa8d9); (0xa8f2, 0xa8f7); (0xa8fb, 0xa8fb);
   (0xa8fd, 0xa8fe); (0xa900, 0xa925); (0xa930, 0xa946); (0xa960, 0xa97c); (0xa984, 0xa9b2);
   (0xa9cf, 0xa9d9); (0xa9e0, 0xa9e4); (0xa9e6, 0xa9fe); (0xaa00, 0xaa28); (0xaa40, 0xaa42);
   (0xaa44, 0xaa4b); (0xaa50, 0xaa59); (0xaa60, 0xaa76); (0xaa7a, 0xaa7a); (0xaa7e, 0xaaaf);
   (0xaab1, 0xaab1); (0xaab5, 0xaab6); (0xaab9, 0xaabd); (0xaac0, 0xaac0); (0xaac2, 0xaac2);
   (0xaadb, 0xaadd); (0xaae0, 0xaaea); (0xaaf2, 0xaaf4); (0xab01, 0xab06); (0xab09, 0xab0e);
   (0xab11, 0xab16); (0xab20, 0xab26); (0xab28, 0xab2e); (0xab30, 0xab5a); (0xab5c, 0xab69);
   (0xab70, 0xabe2); (0xabf0, 0xabf9); (0xac00, 0xd7a3); (0xd7b0, 0xd7c6); (0xd7cb, 0xd7fb);
   (0xf900, 0xfa6d); (0xfa70, 0xfad9); (0xfb00, 0xfb06); (0xfb13, 0xfb17); (0xfb1d, 0xfb1d);
   (0xfb1f, 0xfb28); (0xfb2a, 0xfb36); (0xfb38, 0xfb3c); (0xfb3e, 0xfb3e); (0xfb40, 0xfb41);
   (0xfb43, 0xfb44); (0xfb46, 0xfbb1); (0xfbd3, 0xfd3d); (0xfd50, 0xfd8f); (0xfd92, 0xfdc7);
   (0xfdf0, 0xfdfb); (0xfe70, 0xfe74); (0xfe76, 0xfefc); (0xff10, 0xff19); (0xff21, 0xff3a);
   (0xff41, 0xff5a); (0xff66, 0xffbe); (0xffc2, 0xffc7); (0xffca, 0xffcf); (0xffd2, 0xffd7);
   (0xffda, 0xffdc); (0x10000, 0x1000b); (0x1000d, 0x10026); (0x10028, 0x1003a); (0x1003c, 0x1003d);
   (0x1003f, 0x1004d); (0x10050, 0x1005d); (0x10080, 0x100fa); (0x10107, 0x10133); (0x10140, 0x10178);
   (0x1018a, 0x1018b); (0x10280, 0x1029c); (0x102a0, 0x102d0); (0x102e1, 0x102fb); (0x10300, 0x10323);
   (0x1032d, 0x1034a); (0x10350, 0x10375); (0x10380, 0x1039d); (0x103a0, 0x103c3); (0x103c8, 0x103cf);
   (0x103d1, 0x103d5); (0x10400, 0x1049d); (0x104a0, 0x104a9); (0x104b0, 0x104d3); (0x104d8, 0x104fb);
   (0x10500, 0x10527); (0x10530, 0x10563); (0x10570, 0x1057a); (0x1057c, 0x1058a); (0x1058c, 0x10592);
   (0x10594, 0x10595); (0x10597, 0x105a1); (0x105a3, 0x105b1); (0x105b3, 0x105b9); (0x105bb, 0x105bc);
   (0x10600, 0x10736); (0x10740, 0x10755); (0x10760, 0x10767); (0x10780, 0x10785); (0x10787, 0x107b0);
   (0x107b2, 0x107ba); (0x10800, 0x10805); (0x10808, 0x10808); (0x1080a, 0x10835); (0x10837, 0x10838);
   (0x1083c, 0x1083c); (0x1083f, 0x10855); (0x10858, 0x10876); (0x10879, 0x1089e); (0x108a7, 0x108af);
   (0x108e0, 0x108f2); (0x108f4, 0x108f5); (0x108fb, 0x1091b); (0x10920, 0x10939); (0x10980, 0x109b7);
   (0x109bc, 0x109cf); (0x109d2, 0x10a00); (0x10a10, 0x10a13); (0x10a15, 0x10a17); (0x10a19, 0x10a35);
   (0x10a40, 0x10a48); (0x10a60, 0x10a7e); (0x10a80, 0x10a9f); (0x10ac0, 0x10ac7); (0x10ac9, 0x10ae4);
   (0x10aeb, 0x10aef); (0x10b00, 0x10b35); (0x10b40, 0x10b55); (0x10b58, 0x10b72); (0x10b78, 0x10b91);
   (0x10ba9, 0x10baf); (0x10c00, 0x10c48); (0x10c80, 0x10cb2); (0x10cc0, 0x10cf2); (0x10cfa, 0x10d23);
   (0x10d30, 0x10d39); (0x10e60, 0x10e7e); (0x10e80, 0x10ea9); (0x10eb0, 0x10eb1); (0x10f00, 0x10f27);
   (0x10f30, 0x10f45); (0x10f51, 0x10f54); (0x10f70, 0x10f81); (0x10fb0, 0x10fcb); (0x10fe0, 0x10ff6);
   (0x11003, 0x11037); (0x11052, 0x1106f); (0x11071, 0x11072); (0x11075, 0x11075); (0x11083, 0x110af);
   (0x110d0, 0x110e8); (0x110f0, 0x110f9); (0x11103, 0x11126); (0x11136, 0x1113f); (0x11144, 0x11144);
   (0x11147, 0x11147); (0x11150, 0x11172); (0x11176, 0x11176); (0x11183, 0x111b2); (0x111c1, 0x111c4);
   (0x111d0, 0x111da); (0x111dc, 0x111dc); (0x111e1, 0x111f4); (0x11200, 0x11211); (0x11213, 0x1122b);
   (0x11280, 0x11286); (0x11288, 0x11288); (0x1128a, 0x1128d); (0x1128f, 0x1129d); (0x1129f, 0x112a8);
   (0x112b0, 0x112de); (0x112f0, 0x112f9); (0x11305, 0x1130c); (0x1130f, 0x11310); (0x11313, 0x11328);
   (0x1132a, 0x11330); (0x11332, 0x11333); (0x11335, 0x11339); (0x1133d, 0x1133d); (0x11350, 0x11350);
   (0x1135d, 0x11361); (0x11400, 0x11434); (0x11447, 0x1144a); (0x11450, 0x11459); (0x1145f, 0x11461);
   (0x11480, 0x114af); (0x114c4, 0x114c5); (0x114c7, 0x114c7); (0x114d0, 0x114d9); (0x11580, 0x115ae);
   (0x115d8, 0x115db); (0x11600, 0x1162f); (0x11644, 0x11644); (0x11650, 0x11659); (0x11680, 0x116aa);
   (0x116b8, 0x116b8); (0x116c0, 0x116c9); (0x11700, 0x1171a); (0x11730, 0x1173b); (0x11740, 0x11746);
   (0x11800, 0x1182b); (0x118a0, 0x118f2); (0x118ff, 0x11906); (0x11909, 0x11909); (0x1190c, 0x11913);
   (0x11915, 0x11916); (0x11918, 0x1192f); (0x1193f, 0x1193f); (0x11941, 0x11941); (0x11950, 0x11959);
   (0x119a0, 0x119a7); (0x119aa, 0x119d0); (0x119e1, 0x119e1); (0x119e3, 0x119e3); (0x11a00, 0x11a00);
   (0x11a0b, 0x11a32); (0x11a3a, 0x11a3a); (0x11a50, 0x11a50); (0x11a5c, 0x11a89); (0x11a9d, 0x11a9d);
   (0x11ab0, 0x11af8); (0x11c00, 0x11c08); (0x11c0a, 0x11c2e); (0x11c40, 0x11c40); (0x11c50, 0x11c6c);
   (0x11c72, 0x11c8f); (0x11d00, 0x11d06); (0x11d08, 0x11d09); (0x11d0b, 0x11d30); (0x11d46, 0x11d46);
   (0x11d50, 0x11d59); (0x11d60, 0x11d65); (0x11d67, 0x11d68); (0x11d6a, 0x11d89); (0x11d98, 0x11d98);
   (0x11da0, 0x11da9); (0x11ee0, 0x11ef2); (0x11fb0, 0x11fb0); (0x11fc0, 0x11fd4); (0x12000, 0x12399);
   (0x12400, 0x1246e); (0x12480, 0x12543); (0x12f90, 0x12ff0); (0x13000, 0x1342e); (0x14400, 0x14646);
   (0x16800, 0x16a38); (0x16a40, 0x16a5e); (0x16a60, 0x16a69); (0x16a70, 0x16abe); (0x16ac0, 0x16ac9);
   (0x16ad0, 0x16aed); (0x16b00, 0x16b2f); (0x16b40, 0x16b43); (0x16b50, 0x16b59); (0x16b5b, 0x16b61);
   (0x16b63, 0x16b77); (0x16b7d, 0x16b8f); (0x16e40, 0x16e96); (0x16f00, 0x16f4a); (0x16f50, 0x16f50);
   (0x16f93, 0x16f9f); (0x16fe0, 0x16fe1); (0x16fe3, 0x16fe3); (0x17000, 0x187f7); (0x18800, 0x18cd5);
   (0x18d00, 0x18d08); (0x1aff0, 0x1aff3); (0x1aff5, 0x1affb); (0x1affd, 0x1affe); (0x1b000, 0x1b122);
   (0x1b150, 0x1b152); (0x1b164, 0x1b167); (0x1b170, 0x1b2fb); (0x1bc00, 0x1bc6a); (0x1bc70, 0x1bc7c);
   (0x1bc80, 0x1bc88); (0x1bc90, 0x1bc99); (0x1d2e0, 0x1d2f3); (0x1d360, 0x1d378); (0x1d400, 0x1d454);
   (0x1d456, 0x1d49c); (0x1d49e, 0x1d49f); (0x1d4a2, 0x1d4a2); (0x1d4a5, 0x1d4a6); (0x1d4a9, 0x1d4ac);
   (0x1d4ae, 0x1d4b9); (0x1d4bb, 0x1d4bb); (0x1d4bd, 0x1d4c3); (0x1d4c5, 0x1d505); (0x1d507, 0x1d50a);
   (0x1d50d, 0x1d514); (0x1d516, 0x1d51c); (0x1d51e, 0x1d539); (0x1d53b, 0x1d53e); (0x1d540, 0x1d544);
   (0x1d546, 0x1d546); (0x1d54a, 0x1d550); (0x1d552, 0x1d6a5); (0x1d6a8, 0x1d6c0); (0x1d6c2, 0x1d6da);
   (0x1d6dc, 0x1d6fa); (0x1d6fc, 0x1d714); (0x1d716, 0x1d734); (0x1d736, 0x1d74e); (0x1d750, 0x1d76e);
   (0x1d770, 0x1d788); (0x1d78a, 0x1d7a8); (0x1d7aa, 0x1d7c2); (0x1d7c4, 0x1d7cb); (0x1d7ce, 0x1d7ff);
   (0x1df00, 0x1df1e); (0x1e100, 0x1e12c); (0x1e137, 0x1e13d); (0x1e140, 0x1e149); (0x1e14e, 0x1e14e);
   (0x1e290, 0x1e2ad); (0x1e2c0, 0x1e2eb); (0x1e2f0, 0x1e2f9); (0x1e7e0, 0x1e7e6); (0x1e7e8, 0x1e7eb);
   (0x1e7ed, 0x1e7ee); (0x1e7f0, 0x1e7fe); (0x1e800, 0x1e8c4); (0x1e8c7, 0x1e8cf); (0x1e900, 0x1e943);
   (0x1e94b, 0x1e94b); (0x1e950, 0x1e959); (0x1ec71, 0x1ecab); (0x1ecad, 0x1ecaf); (0x1ecb1, 0x1ecb4);
   (0x1ed01, 0x1ed2d); (0x1ed2f, 0x1ed3d); (0x1ee00, 0x1ee03); (0x1ee05, 0x1ee1f); (0x1ee21, 0x1ee22);
   (0x1ee24, 0x1ee24); (0x1ee27, 0x1ee27); (0x1ee29, 0x1ee32); (0x1ee34, 0x1ee37); (0x1ee39, 0x1ee39);
   (0x1ee3b, 0x1ee3b); (0x1ee42, 0x1ee42); (0x1ee47, 0x1ee47); (0x1ee49, 0x1ee49); (0x1ee4b, 0x1ee4b);
   (0x1ee4d, 0x1ee4f); (0x1ee51, 0x1ee52); (0x1ee54, 0x1ee54); (0x1ee57, 0x1ee57); (0x1ee59, 0x1ee59);
   (0x1ee5b, 0x1ee5b); (0x1ee5d, 0x1ee5d); (0x1ee5f, 0x1ee5f); (0x1ee61, 0x1ee62); (0x1ee64, 0x1ee64);
   (0x1ee67, 0x1ee6a); (0x1ee6c, 0x1ee72); (0x1ee74, 0x1ee77); (0x1ee79, 0x1ee7c); (0x1ee7e, 0x1ee7e);
   (0x1ee80, 0x1ee89); (0x1ee8b, 0x1ee9b); (0x1eea1, 0x1eea3); (0x1eea5, 0x1eea9); (0x1eeab, 0x1eebb);
   (0x1f100, 0x1f10c); (0x1fbf0, 0x1fbf9); (0x20000, 0x2a6df); (0x2a700, 0x2b738); (0x2b740, 0x2b81d);
   (0x2b820, 0x2cea1); (0x2ceb0, 0x2ebe0); (0x2f800, 0x2fa1d); (0x30000, 0x3134a)]%N.

(** [c.isspace()] for a single character. *)
Definition isspace (c : char) : bool := existsb (in_range c) space_ranges.

Definition range_class (rs : list (N * N)) : cclass :=
  map (fun r => CRange (fst r) (snd r)) rs.

Definition space_class : cclass := range_class space_ranges.        (* \s *)
Definition nonspace_class : cclass := range_class nonspace_ranges.  (* \S *)
Definition word_class : cclass := range_class word_ranges.          (* \w *)

(** [s.lstrip()], [s.rstrip()] and [s.strip()] without argument. *)
Fixpoint lstrip (s : str) : str :=
  match s with
  | [] => []
  | c :: s' => if isspace c then lstrip s' else s
  end.

Definition rstrip (s : str) : str := rev (lstrip (rev s)).

Definition strip (s : str) : str := rstrip (lstrip s).

(* ================================================================== *)
(** * [class TextCleaner]

    An argument of the methods is any Python object: a string or
    something else, which the [isinstance] tests turn into the empty
    string.  [re.sub] with a replacement string is [sub] with a constant
    replacement; the replacement strings of the class hold no escape. *)

Inductive pyobj : Type :=
| PStr (s : str)
| PNotStr.

Definition const_repl (out : str) (groups : list str) : result str := Ok out.

Definition space_str : str := Eval vm_compute in py " ".

(** [unicodedata.normalize("NFKC", s)] is not modelled: the function is
    taken as the parameter [nfkc]. *)
Definition normalize_str (nfkc : str -> str) (s : pyobj) : str :=
  match s with
  | PStr s => nfkc s
  | PNotStr => []
  end.

Definition bracket_class : cclass := Eval vm_compute in
  map CChar (py "「」【】『』［］〈〉《》〔〕（）()").

Definition symbol_class : cclass := Eval vm_compute in
  map CChar (py "●■※◆◇☆★○◎◇◆→←↑↓■□").

Definition remove_symbols (s : pyobj) : result str :=
  match s with
  | PStr s =>
      s <- sub (Cls bracket_class) (const_repl space_str) s ;;
      sub (Cls symbol_class) (const_repl []) s
  | PNotStr => Ok []
  end.

Definition url_pattern : regex := Eval vm_compute in   (* https?://\S+ *)
  seq [Lit (py "http"); Rep (map CChar (py "s")) 0 (Some 1); Lit (py "://");
       Rep nonspace_class 1 None].

Definition remove_urls (s : pyobj) : result str :=
  match s with
  | PStr s => sub url_pattern (const_repl []) s
  | PNotStr => Ok []
  end.

Definition emoji_class : cclass :=
  [CRange 0x1F600 0x1F64F;   (* emoticons *)
   CRange 0x1F300 0x1F5FF;   (* symbols & pictographs *)
   CRange 0x1F680 0x1F6FF;   (* transport & map symbols *)
   CRange 0x1F1E0 0x1F1FF;   (* flags *)
   CRange 0x1F900 0x1F9FF;   (* supplemental pictographs *)
   CRange 0x2600 0x26FF;     (* misc symbols *)
   CRange 0x2700 0x27BF;     (* dingbats *)
   CChar 0xFE0F]%N.          (* variation selectors *)

(** [remove_emojis] has no [isinstance] test; it is modelled on strings. *)
Definition remove_emojis (s : str) : result str :=
  sub (Rep emoji_class 1 None) (const_repl []) s.

Definition unify_whitespaces (s : pyobj) : result str :=
  match s with
  | PStr s =>
      s <- sub (Rep space_class 1 None) (const_repl space_str) s ;;
      Ok (strip s)
  | PNotStr => Ok []
  end.

(** The class [[\w\-\u3000-\u9FFF]]. *)
Definition name_class : cclass := Eval vm_compute in
  word_class ++ map CChar (py "-") ++ [CRange 0x3000 0x9FFF]%N.

Definition mention_pattern : regex := Eval vm_compute in
  Seq (Lit (py "@")) (Rep name_class 1 None).

Definition hashtag_pattern : regex := Eval vm_compute in
  Seq (Lit (py "#")) (Rep name_class 1 None).

Definition remove_mentions_and_hashtags (s : pyobj) : result str :=
  match s with
  | PStr s =>
      s <- sub mention_pattern (const_repl []) s ;;
      sub hashtag_pattern (const_repl []) s
  | PNotStr => Ok []
  end.

(** [clean], for a cleaner built with [keep_emojis]. *)
Definition clean (nfkc : str -> str) (keep_emojis : bool) (s : pyobj)
  : result str :=
  match s with
  | PStr _ =>
      let s := normalize_str nfkc s in
      s <- remove_urls (PStr s) ;;
      s <- remove_mentions_and_hashtags (PStr s) ;;
      s <- remove_symbols (PStr s) ;;
      s <- (if keep_emojis then Ok s else remove_emojis s) ;;
      unify_whitespaces (PStr s)
  | PNotStr => Ok []
  end.

(* ================================================================== *)
(** * Vocabulary of the statements

    Reference definitions, written independently of the loops of the
    program, and the predicates the theorems are stated with. *)

(** ** Characters *)

Definition is_ascii_digit (c : char) : bool := in_range c (0x30, 0x39)%N.

(** The characters of a formatted date. *)
Definition canonical_char (c : char) : bool :=
  is_ascii_digit c || char_eqb c hyphen.

(** ** The numeral converter *)

Definition is_large (c : char) : bool :=
  match unit_large c with Some _ => true | None => false end.

Definition has_large (s : str) : bool := existsb is_large s.

(** The string cut at its large units, from the right: the segments
    (prefix, large unit) in order and the remainder after the last one. *)
Fixpoint split_large (s : str) : list (str * char) * str :=
  match s with
  | [] => ([], [])
  | c :: s' =>
      let '(segs, rmd) := split_large s' in
      if is_large c then (([], c) :: segs, rmd)
      else
        match segs with
        | [] => ([], c :: rmd)
        | (p, u) :: segs' => ((c :: p, u) :: segs', rmd)
        end
  end.

Definition large_value (u : char) : Z :=
  match unit_large u with Some v => v | None => 0%Z end.

Definition one_if_zero (n : Z) : Z := if (n =? 0)%Z then 1%Z else n.

Definition segment_value (seg : str * char) : Z :=
  (one_if_zero (parse_small (fst seg)) * large_value (snd seg))%Z.

Definition zsum (l : list Z) : Z := fold_right Z.add 0%Z l.

(** Sum of the segments, plus the remainder read as a small numeral. *)
Definition magnitude_value (s : str) : Z :=
  let '(segs, rmd) := split_large s in
  (zsum (map segment_value segs) + parse_small rmd)%Z.

(** The image of one character in digit-string mode: the digit of a kanji
    digit, the character itself when [isdigit] holds, nothing otherwise. *)
Definition digit_image (c : char) : str :=
  match kanji_num c with
  | Some v => py_str v
  | None => if isdigit c then [c] else []
  end.

Definition digit_concat (s : str) : str := flat_map digit_image s.

(** The characters the magnitude arithmetic looks at. *)
Definition numeral_char (c : char) : bool :=
  match kanji_num c, unit_small c, unit_large c with
  | None, None, None => false
  | _, _, _ => true
  end.

(** ** The date rewriter *)

(** A string is digit-safe when [isdigit] accepts no more of its
    characters than [int] does. *)
Definition digit_safe (s : str) : Prop :=
  forall c, In c s -> isdigit c = true -> isdecimal c = true.

(** The class [[元\d]] of the abbreviated pattern. *)
Definition abbr_year_chars : cclass := Eval vm_compute in
  map CChar (py "元") ++ [CDigit].

(** The year [_make_repl] formats, from the era base and the year read. *)
Definition resolved_year (era_base : option Z) (year : Z) : Z :=
  match era_base with
  | Some b => if (b =? 0)%Z then year else (b + year - 1)%Z
  | None => year
  end.

(** A day group: the end-of-month token, or digit-safe once its last
    character is dropped. *)
Definition day_group_ok (d : str) : Prop :=
  d = matsujitsu \/ digit_safe (removelast d).

Definition matsu : char := Eval vm_compute in ch "末".


(** The replacement of a match is a formatted date, unless the match is
    an end-of-month date, whose resolution may fail. *)
Definition date_repl (r : regex) (repl : list str -> result str) : Prop :=
  forall t m g rest,
    re_match r t = Some (m, g, rest) ->
    (exists a b c, repl g = Ok (format_date a b c))
    \/ (repl g = Raise IllegalMonthError /\ In matsu t).

(** What [translate FW_MAP] does to one character. *)
Definition fold_char (c : char) : char :=
  match lookup char_eqb c FW_MAP with Some c' => c' | None => c end.

Fixpoint tails (s : str) : list str :=
  s :: match s with
       | [] => []
       | _ :: s' => tails s'
       end.

(** No match of [r] starts anywhere in [s]. *)
Definition matches_nowhere (r : regex) (s : str) : bool :=
  forallb (fun t => match re_match r t with Some _ => false | None => true end)
          (tails s).

(** None of the four date patterns matches anywhere in [s]. *)
Definition unmatched (s : str) : bool :=
  matches_nowhere era_pattern s && matches_nowhere seireki_pattern s
  && matches_nowhere abbr_pattern s && matches_nowhere delim_pattern s.

Definition nen : char := Eval vm_compute in ch "年".

Definition full_stop : char := Eval vm_compute in ch ".".

Definition slash : char := Eval vm_compute in ch "/".

Definition is_sep (c : char) : bool := char_eqb c full_stop || char_eqb c slash.

(** Characters that take no part in any date notation nor in the
    full-width folding: all but 年, the two separators and the full-width
    digits. *)
Definition plain (c : char) : bool :=
  negb (char_eqb c nen || is_sep c || in_range c (0xFF10, 0xFF19)%N).



Definition getsu : char := Eval vm_compute in ch "月".
Definition nichi : char := Eval vm_compute in ch "日".

(** A numeral group of the dated patterns: one or more characters of
    [kanji_num_chars]. *)
Definition numeral_group (s : str) : Prop :=
  s <> [] /\ forallb (in_class kanji_num_chars) s = true.

(** The Gregorian rule, in words of divisibility. *)
Definition gregorian_leap (y : Z) : Prop :=
  (4 | y)%Z /\ (~ (100 | y)%Z \/ (400 | y)%Z).

(** [d] is the last day of month [m] of year [y]. *)
Definition last_day (y m d : Z) : Prop :=
  (In m [1; 3; 5; 7; 8; 10; 12]%Z -> d = 31%Z)
  /\ (In m [4; 6; 9; 11]%Z -> d = 30%Z)
  /\ (m = 2%Z -> (gregorian_leap y -> d = 29%Z)
                 /\ (~ gregorian_leap y -> d = 28%Z)).

(* ================================================================== *)
(** * Vocabulary of the further results *)


(** ** Writing a number in kanji

    The usual notation of a number below 10^16: groups of four digits,
    each followed by its large unit 兆, 億 or 万 (the last group by none);
    inside a group every non-zero digit is followed by 千, 百 or 十 (the
    last digit by none); zero digits and zero groups are left out.  With
    [one = false] the digit 一 is left out before 千, 百 and 十, as in 千 or
    十; with [one = true] it is written, as in 一千. *)

Definition kanji_digits : str := Eval vm_compute in py "〇一二三四五六七八九".

Definition kanji_digit (d : Z) : char := nth (Z.to_nat d) kanji_digits 0%N.

Definition sen : char := Eval vm_compute in ch "千".
Definition hyaku : char := Eval vm_compute in ch "百".
Definition juu : char := Eval vm_compute in ch "十".
Definition man : char := Eval vm_compute in ch "万".
Definition oku : char := Eval vm_compute in ch "億".
Definition chou : char := Eval vm_compute in ch "兆".

Definition small_term (one : bool) (d : Z) (u : option char) : str :=
  if (d =? 0)%Z then []
  else
    match u with
    | None => [kanji_digit d]
    | Some uc => if (d =? 1)%Z && negb one then [uc] else [kanji_digit d; uc]
    end.

(** A number below 10000. *)
Definition small_kanji (one : bool) (n : Z) : str :=
  small_term one (n / 1000) (Some sen)
  ++ small_term one (n / 100 mod 10) (Some hyaku)
  ++ small_term one (n / 10 mod 10) (Some juu)
  ++ small_term one (n mod 10) None.

Definition large_term (one : bool) (g : Z) (u : char) : str :=
  if (g =? 0)%Z then [] else small_kanji one g ++ [u].

(** A number below 10^16. *)
Definition kanji_of (one : bool) (n : Z) : str :=
  large_term one (n / 10 ^ 12) chou
  ++ large_term one (n / 10 ^ 8 mod 10 ^ 4) oku
  ++ large_term one (n / 10 ^ 4 mod 10 ^ 4) man
  ++ small_kanji one (n mod 10 ^ 4).

(** The characters of a group: kanji digits and small units. *)
Definition small_numeral_char (c : char) : bool :=
  match kanji_num c, unit_small c with
  | None, None => false
  | _, _ => true
  end.

(** ** Gregorian dates *)

(** A year group of the Gregorian pattern: two to four characters of
    [seireki_year_chars]. *)
Definition year_group (s : str) : Prop :=
  2 <= length s <= 4 /\ forallb (in_class seireki_year_chars) s = true.

(** The characters of a date in kanji without era name. *)
Definition seireki_char (c : char) : bool :=
  in_class seireki_year_chars c || in_class kanji_num_chars c
  || char_eqb c nen || char_eqb c getsu || char_eqb c nichi.

(** [c] is an ASCII digit, a hyphen, or a character of [text]. *)
Definition from_text (text : str) (c : char) : bool :=
  canonical_char c || existsb (char_eqb c) text.

Definition is_fullwidth_digit (c : char) : bool :=
  in_range c (0xFF10, 0xFF19)%N.

(** The characters of a Gregorian year and of a formatted date. *)
Definition year_or_canonical (c : char) : bool :=
  in_class seireki_year_chars c || canonical_char c.

(** ** Text cleaning *)

(** What replacing every character of a class by [out] does to one
    character. *)
Definition class_image (cs : cclass) (out : str) (c : char) : str :=
  if in_class cs c then out else [c].

(** Every maximal run of characters of the class is replaced by [out];
    [in_run] tells that the character before was in the class. *)
Fixpoint squeeze (cs : cclass) (out : str) (in_run : bool) (s : str) : str :=
  match s with
  | [] => []
  | c :: s' =>
      if in_class cs c
      then (if in_run then squeeze cs out true s'
            else out ++ squeeze cs out true s')
      else c :: squeeze cs out false s'
  end.

Definition is_bracket (c : char) : bool := in_class bracket_class c.
Definition is_symbol (c : char) : bool := in_class symbol_class c.
Definition is_emoji (c : char) : bool := in_class emoji_class c.

(** What [remove_symbols] does to one character. *)
Definition symbol_image (c : char) : str :=
  if is_bracket c then space_str else if is_symbol c then [] else [c].

(** The words of a text: its maximal runs of characters that are not
    whitespace, as [s.split()] gives them.  [w] is the word being read. *)
Fixpoint words_from (w : str) (s : str) : list str :=
  match s with
  | [] => match w with [] => [] | _ => [w] end
  | c :: s' =>
      if isspace c
      then match w with
           | [] => words_from [] s'
           | _ => w :: words_from [] s'
           end
      else words_from (w ++ [c]) s'
  end.

Definition words (s : str) : list str := words_from [] s.

(** [" ".join(ws)] *)
Fixpoint unwords (ws : list str) : str :=
  match ws with
  | [] => []
  | [w] => w
  | w :: ws' => w ++ space_str ++ unwords ws'
  end.

Definition nonspace (c : char) : bool := negb (isspace c).

(** A word: a string that is not empty and holds no whitespace. *)
Definition is_word (w : str) : Prop := w <> [] /\ forallb nonspace w = true.

(** Deleting, from left to right, every piece of text that begins where
    [starts] holds and goes on through the characters of the class [cs];
    [dropping] tells that a piece is being deleted. *)
Fixpoint delete_runs (starts : str -> bool) (cs : cclass) (dropping : bool)
         (s : str) : str :=
  match s with
  | [] => []
  | c :: s' =>
      if dropping && in_class cs c then delete_runs starts cs true s'
      else if starts (c :: s') then delete_runs starts cs true s'
      else c :: delete_runs starts cs false s'
  end.

Definition is_nonspace (c : char) : bool := in_class nonspace_class c.
Definition is_name (c : char) : bool := in_class name_class c.

Definition http_str : str := Eval vm_compute in py "http".
Definition colon_slashes : str := Eval vm_compute in py "://".
Definition s_class : cclass := Eval vm_compute in map CChar (py "s").
Definition url_schemes : list str :=
  Eval vm_compute in [py "https://"; py "http://"].
Definition colon : char := Eval vm_compute in ch ":".
Definition at_sign : char := Eval vm_compute in ch "@".
Definition hash_sign : char := Eval vm_compute in ch "#".

(** A URL starts here: a scheme and at least one character that is not
    whitespace. *)
Definition starts_url (s : str) : bool :=
  existsb (fun scheme =>
             match strip_prefix scheme s with
             | Some (c :: _) => is_nonspace c
             | _ => false
             end) url_schemes.

Definition strip_urls (s : str) : str :=
  delete_runs starts_url nonspace_class false s.

(** A mention or a hashtag starts here: the sign and at least one
    character of a name. *)
Definition starts_tag (tag : char) (s : str) : bool :=
  match s with
  | c :: n :: _ => char_eqb c tag && is_name n
  | _ => false
  end.

Definition strip_tags (tag : char) (s : str) : str :=
  delete_runs (starts_tag tag) name_class false s.

(** The pattern of a mention ([tag] is [@]) or of a hashtag ([#]). *)
Definition tag_pattern (tag : char) : regex :=
  Seq (Lit [tag]) (Rep name_class 1 None).

(** What [remove_mentions_and_hashtags] leaves of a text. *)
Definition strip_mentions_and_hashtags (s : str) : str :=
  strip_tags hash_sign (strip_tags at_sign s).

Definition is_sign (c : char) : bool :=
  char_eqb c at_sign || char_eqb c hash_sign.

(* ================================================================== *)
(** * Properties of the string and number primitives *)

Example py_ascii : py "R5.3.2" = [0x52; 0x35; 0x2E; 0x33; 0x2E; 0x32]%N.
Proof. reflexivity. Qed.

Example py_kanji : py "年月日" = [0x5E74; 0x6708; 0x65E5]%N.
Proof. reflexivity. Qed.

Example format_date_ex : format_date 2023 3 2 = py "2023-03-02".
Proof. reflexivity. Qed.

Example format_wide_ex : format_date 11000 99 0 = py "11000-99-00".
Proof. reflexivity. Qed.

Lemma char_eqb_eq (a b : char) : char_eqb a b = true <-> a = b.
Proof. apply N.eqb_eq. Qed.

Lemma char_eqb_refl (a : char) : char_eqb a a = true.
Proof. apply N.eqb_refl. Qed.

Lemma str_eqb_eq (a b : str) : str_eqb a b = true <-> a = b.
Proof.
  revert b; induction a as [|x a IH]; intros [|y b]; simpl; split;
    try congruence; try reflexivity.
  - rewrite andb_true_iff, char_eqb_eq, IH. intros [-> ->]; reflexivity.
  - intros E; injection E as -> ->.
    rewrite char_eqb_refl. apply (proj2 (IH b)); reflexivity.
Qed.

Lemma str_eqb_refl (a : str) : str_eqb a a = true.
Proof. apply str_eqb_eq; reflexivity. Qed.

Lemma str_eqb_neq (a b : str) : a <> b -> str_eqb a b = false.
Proof.
  intros H; destruct (str_eqb a b) eqn:E; [|reflexivity].
  apply str_eqb_eq in E; contradiction.
Qed.

Lemma bind_ok {A B : Type} (x : result A) (k : A -> result B) (b : B) :
  bind x k = Ok b <-> exists a, x = Ok a /\ k a = Ok b.
Proof.
  destruct x as [a|e]; simpl; split.
  - intros H; exists a; auto.
  - intros (a' & E & H); injection E as ->; exact H.
  - discriminate.
  - intros (a' & E & _); discriminate.
Qed.

Lemma bind_raise {A B : Type} (x : result A) (k : A -> result B) (e : exn) :
  bind x k = Raise e <->
  x = Raise e \/ exists a, x = Ok a /\ k a = Raise e.
Proof.
  destruct x as [a|e']; simpl; split.
  - intros H; right; exists a; auto.
  - intros [H|(a' & E & H)]; [discriminate|injection E as ->; exact H].
  - intros H; left; injection H as ->; reflexivity.
  - intros [H|(a' & E & _)]; [injection H as ->; reflexivity|discriminate].
Qed.

(** ** Decimal digits *)

Lemma decimal_in_bounds (zs : list N) (c : char) (d : Z) :
  decimal_in zs c = Some d -> (0 <= d <= 9)%Z.
Proof.
  induction zs as [|z zs IH]; simpl; [discriminate|].
  unfold in_range; simpl.
  destruct ((z <=? c)%N && (c <=? z + 9)%N) eqn:E; [|exact IH].
  apply andb_true_iff in E; destruct E as [E1 E2].
  apply N.leb_le in E1, E2. intros H; injection H as <-.
  unfold char in *; lia.
Qed.

Lemma decimal_value_bounds (c : char) (d : Z) :
  decimal_value c = Some d -> (0 <= d <= 9)%Z.
Proof. apply decimal_in_bounds. Qed.

Lemma isdecimal_value (c : char) :
  isdecimal c = true <-> exists d, decimal_value c = Some d.
Proof.
  unfold isdecimal; destruct (decimal_value c) as [d|]; split;
    try discriminate; eauto.
  intros [d' H]; discriminate.
Qed.

Lemma isdecimal_isdigit (c : char) : isdecimal c = true -> isdigit c = true.
Proof. unfold isdigit; intros ->; reflexivity. Qed.

Lemma int_loop_ok (s : str) (acc : Z) :
  forallb isdecimal s = true -> (0 <= acc)%Z ->
  exists n, int_loop s acc = Ok n /\ (0 <= n)%Z.
Proof.
  revert acc; induction s as [|c s IH]; cbn [int_loop forallb];
    intros acc H Hacc.
  - exists acc; auto.
  - apply andb_true_iff in H; destruct H as [Hc Hs].
    apply isdecimal_value in Hc; destruct Hc as [d Hd]; rewrite Hd.
    apply IH; [exact Hs|]. apply decimal_value_bounds in Hd; lia.
Qed.

Lemma int_loop_decimal (s : str) (acc n : Z) :
  int_loop s acc = Ok n -> forallb isdecimal s = true.
Proof.
  revert acc; induction s as [|c s IH]; simpl; intros acc H; [reflexivity|].
  unfold isdecimal at 1.
  destruct (decimal_value c) as [d|]; [|discriminate].
  simpl; eapply IH; eassumption.
Qed.

(** [int] succeeds exactly on the non-empty strings of decimal digits. *)
Lemma int_ok_iff (s : str) :
  (exists n, int s = Ok n) <-> s <> [] /\ forallb isdecimal s = true.
Proof.
  split.
  - intros [n H]; destruct s as [|c s]; [discriminate|].
    split; [discriminate|]. eapply int_loop_decimal; exact H.
  - intros [Hne H]; destruct s as [|c s]; [contradiction|].
    destruct (@int_loop_ok (c :: s) 0 H) as (n & Hn & _); [lia|].
    exists n; exact Hn.
Qed.

Lemma int_nonneg (s : str) (n : Z) : int s = Ok n -> (0 <= n)%Z.
Proof.
  intros H. assert (Hd : s <> [] /\ forallb isdecimal s = true)
    by (apply int_ok_iff; eauto).
  destruct Hd as [Hne Hd]. destruct s as [|c s]; [contradiction|].
  destruct (@int_loop_ok (c :: s) 0 Hd) as (n' & Hn & Hpos); [lia|].
  unfold int in H. rewrite Hn in H. injection H as <-. exact Hpos.
Qed.

(** ** Formatting produces ASCII digits and hyphens only *)

Lemma uint_str_digits (u : Decimal.uint) :
  forallb is_ascii_digit (uint_str u) = true.
Proof. induction u; simpl; auto. Qed.

Lemma forallb_app_true {A : Type} (f : A -> bool) (a b : list A) :
  forallb f a = true -> forallb f b = true -> forallb f (a ++ b) = true.
Proof. intros Ha Hb; rewrite forallb_app, Ha, Hb; reflexivity. Qed.

Lemma forallb_impl {A : Type} (f g : A -> bool) (l : list A) :
  (forall x, f x = true -> g x = true) ->
  forallb f l = true -> forallb g l = true.
Proof.
  intros Hfg; induction l as [|x l IH]; simpl; [reflexivity|].
  rewrite !andb_true_iff; intros [Hx Hl]; auto.
Qed.

Lemma zfill_canonical (w : nat) (s : str) :
  forallb canonical_char s = true -> forallb canonical_char (zfill w s) = true.
Proof.
  intros H; unfold zfill; apply forallb_app_true; [|exact H].
  induction (w - length s) as [|k IH]; simpl; auto.
Qed.

Lemma digits_of_canonical (n : N) :
  forallb canonical_char (digits_of n) = true.
Proof.
  apply forallb_impl with (f := is_ascii_digit).
  - intros x Hx; unfold canonical_char; rewrite Hx; reflexivity.
  - apply uint_str_digits.
Qed.

Lemma format_0d_canonical (w : nat) (n : Z) :
  forallb canonical_char (format_0d w n) = true.
Proof.
  unfold format_0d; destruct (n <? 0)%Z; simpl;
    apply zfill_canonical, digits_of_canonical.
Qed.

Lemma format_date_canonical (y m d : Z) :
  forallb canonical_char (format_date y m d) = true.
Proof.
  unfold format_date.
  repeat (first [apply forallb_app_true | apply format_0d_canonical
                | simpl; apply andb_true_iff; split; [reflexivity|]]).
Qed.

(* ================================================================== *)
(** * Properties of the matcher *)

Module ReFacts.
Import Re.

Lemma strip_prefix_app (l s rest : str) :
  strip_prefix l s = Some rest <-> s = l ++ rest.
Proof.
  revert s; induction l as [|x l IH]; intros s; simpl.
  - split; [intros H; injection H as ->; reflexivity|intros ->; reflexivity].
  - destruct s as [|y s]; [split; discriminate|].
    destruct (char_eqb x y) eqn:E.
    + apply char_eqb_eq in E; subst y. rewrite IH.
      split; [intros ->; reflexivity|intros H; injection H as ->; reflexivity].
    + split; [discriminate|].
      intros H; injection H as -> _. rewrite char_eqb_refl in E; discriminate.
Qed.

Lemma in_rep_matches (cs : cclass) (lo : nat) (hi : option nat)
      (s m rest : str) :
  In (m, rest) (rep_matches cs lo hi s) ->
  s = m ++ rest /\ forallb (in_class cs) m = true /\ lo <= length m
  /\ (forall h, hi = Some h -> length m <= h).
Proof.
  revert lo hi m rest; induction s as [|c s IH]; intros lo hi m rest.
  - simpl. destruct lo; simpl; [|contradiction].
    intros [H|[]]; injection H as <- <-.
    repeat split; auto. intros; simpl; lia.
  - simpl.
    assert (Hstop : In (m, rest)
                       match lo with O => [([], c :: s)] | S _ => [] end ->
                    c :: s = m ++ rest /\ forallb (in_class cs) m = true
                    /\ lo <= length m
                    /\ (forall h, hi = Some h -> length m <= h)).
    { destruct lo; simpl; [|contradiction].
      intros [H|[]]; injection H as <- <-.
      repeat split; auto. intros; simpl; lia. }
    destruct (hi_allows hi && in_class cs c) eqn:E; [|exact Hstop].
    rewrite in_app_iff; intros [H|H]; [|exact (Hstop H)].
    apply in_map_iff in H; destruct H as ([m' rest'] & Heq & Hin).
    simpl in Heq; injection Heq as <- <-.
    apply IH in Hin; destruct Hin as (-> & Hall & Hlo & Hhi).
    apply andb_true_iff in E; destruct E as [Ehi Ec].
    repeat split.
    + simpl; rewrite Ec, Hall; reflexivity.
    + simpl; lia.
    + intros h ->. destruct h as [|h]; [discriminate|].
      simpl. specialize (Hhi h eq_refl); lia.
Qed.

Lemma in_matches_lit (l s m rest : str) (g : list str) :
  In (m, g, rest) (matches (Lit l) s) <-> m = l /\ g = [] /\ s = l ++ rest.
Proof.
  simpl. destruct (strip_prefix l s) as [r|] eqn:E.
  - apply strip_prefix_app in E. simpl; split.
    + intros [H|[]]; injection H as <- <- <-; auto.
    + intros (-> & -> & H). left. rewrite E in H.
      apply app_inv_head in H; subst; reflexivity.
  - split; [intros []|]. intros (_ & _ & H).
    apply strip_prefix_app in H; congruence.
Qed.

Lemma in_matches_cls (cs : cclass) (s m rest : str) (g : list str) :
  In (m, g, rest) (matches (Cls cs) s) <->
  exists c, s = c :: rest /\ m = [c] /\ g = [] /\ in_class cs c = true.
Proof.
  simpl. destruct s as [|c s].
  - split; [intros []|intros (c & H & _); discriminate].
  - destruct (in_class cs c) eqn:E; simpl; split.
    + intros [H|[]]; injection H as <- <- <-; exists c; auto.
    + intros (c' & H & -> & -> & _); injection H as <- <-; auto.
    + intros [].
    + intros (c' & H & _ & _ & Hc); injection H as <- <-; congruence.
Qed.

Lemma in_matches_rep (cs : cclass) (lo : nat) (hi : option nat)
      (s m rest : str) (g : list str) :
  In (m, g, rest) (matches (Rep cs lo hi) s) ->
  g = [] /\ s = m ++ rest /\ forallb (in_class cs) m = true
  /\ lo <= length m /\ (forall h, hi = Some h -> length m <= h).
Proof.
  simpl; intros H; apply in_map_iff in H.
  destruct H as ([m' rest'] & Heq & Hin); simpl in Heq.
  injection Heq as <- <- <-. split; [reflexivity|].
  eapply in_rep_matches; exact Hin.
Qed.

Lemma in_matches_seq (r1 r2 : regex) (s m rest : str) (g : list str) :
  In (m, g, rest) (matches (Seq r1 r2) s) <->
  exists m1 g1 rest1 m2 g2,
    In (m1, g1, rest1) (matches r1 s) /\ In (m2, g2, rest) (matches r2 rest1)
    /\ m = m1 ++ m2 /\ g = g1 ++ g2.
Proof.
  simpl; rewrite in_flat_map; split.
  - intros ([[m1 g1] rest1] & H1 & H2). apply in_map_iff in H2.
    destruct H2 as ([[m2 g2] rest2] & Heq & H2). injection Heq as <- <- <-.
    exists m1, g1, rest1, m2, g2; auto.
  - intros (m1 & g1 & rest1 & m2 & g2 & H1 & H2 & -> & ->).
    exists (m1, g1, rest1); split; [exact H1|].
    apply in_map_iff; exists (m2, g2, rest); auto.
Qed.

Lemma in_matches_alt (r1 r2 : regex) (s : str) (x : mres) :
  In x (matches (Alt r1 r2) s) <-> In x (matches r1 s) \/ In x (matches r2 s).
Proof. simpl; apply in_app_iff. Qed.

Lemma in_matches_grp (r : regex) (s m rest : str) (g : list str) :
  In (m, g, rest) (matches (Grp r) s) <->
  exists g', In (m, g', rest) (matches r s) /\ g = m :: g'.
Proof.
  simpl; rewrite in_map_iff; split.
  - intros ([[m' g'] rest'] & Heq & H). injection Heq as <- <- <-.
    exists g'; auto.
  - intros (g' & H & ->). exists (m, g', rest); auto.
Qed.

(** A match consumes a prefix of the subject. *)
Lemma matches_split (r : regex) (s m rest : str) (g : list str) :
  In (m, g, rest) (matches r s) -> s = m ++ rest.
Proof.
  revert s m g rest; induction r as [l|cs|cs lo hi|r1 IH1 r2 IH2|r1 IH1 r2 IH2|r IH];
    intros s m g rest H.
  - apply in_matches_lit in H; destruct H as (-> & _ & ->); reflexivity.
  - apply in_matches_cls in H; destruct H as (c & -> & -> & _); reflexivity.
  - apply in_matches_rep in H; tauto.
  - apply in_matches_seq in H.
    destruct H as (m1 & g1 & rest1 & m2 & g2 & H1 & H2 & -> & ->).
    apply IH1 in H1; apply IH2 in H2; subst. rewrite app_assoc; reflexivity.
  - apply in_matches_alt in H; destruct H as [H|H]; eauto.
  - apply in_matches_grp in H; destruct H as (g' & H & _); eauto.
Qed.

(** Every group is a piece of the matched text. *)
Lemma matches_groups_incl (r : regex) (s m rest : str) (g : list str) :
  In (m, g, rest) (matches r s) -> forall x, In x g -> incl x m.
Proof.
  revert s m g rest; induction r as [l|cs|cs lo hi|r1 IH1 r2 IH2|r1 IH1 r2 IH2|r IH];
    intros s m g rest H x Hx.
  - apply in_matches_lit in H; destruct H as (_ & -> & _); destruct Hx.
  - apply in_matches_cls in H; destruct H as (c & _ & _ & -> & _); destruct Hx.
  - apply in_matches_rep in H; destruct H as (-> & _); destruct Hx.
  - apply in_matches_seq in H.
    destruct H as (m1 & g1 & rest1 & m2 & g2 & H1 & H2 & -> & ->).
    apply in_app_iff in Hx; destruct Hx as [Hx|Hx].
    + apply incl_appl; eapply IH1; eassumption.
    + apply incl_appr; eapply IH2; eassumption.
  - apply in_matches_alt in H; destruct H as [H|H]; eauto.
  - apply in_matches_grp in H; destruct H as (g' & H & ->).
    destruct Hx as [<-|Hx]; [apply incl_refl|eauto].
Qed.

Lemma dead_no_match (A : char -> bool) (r : regex) (s : str) :
  dead A r -> forallb A s = true -> matches r s = [].
Proof.
  intros Hd Hs.
  destruct (matches r s) as [|[[m g] rest] l] eqn:E; [reflexivity|exfalso].
  assert (H : In (m, g, rest) (matches r s)) by (rewrite E; left; reflexivity).
  clear E l. revert s m g rest Hs H Hd.
  induction r as [l|cs|cs lo hi|r1 IH1 r2 IH2|r1 IH1 r2 IH2|r IH];
    intros s m g rest Hs H Hd; simpl in Hd.
  - apply in_matches_lit in H; destruct H as (_ & _ & ->).
    rewrite forallb_app in Hs; apply andb_true_iff in Hs; destruct Hs as [Hl _].
    apply existsb_exists in Hd; destruct Hd as (c & Hc & Hn).
    rewrite forallb_forall in Hl. rewrite (Hl c Hc) in Hn; discriminate.
  - apply in_matches_cls in H; destruct H as (c & -> & _ & _ & Hc).
    simpl in Hs; apply andb_true_iff in Hs; destruct Hs as [Hac _].
    rewrite (Hd c Hac) in Hc; discriminate.
  - apply in_matches_rep in H; destruct H as (_ & -> & Hall & Hlo & _).
    destruct Hd as [Hne Hd]. destruct m as [|c m]; [simpl in Hlo; lia|].
    simpl in Hs, Hall. apply andb_true_iff in Hs, Hall.
    destruct Hs as [Hac _], Hall as [Hc _].
    rewrite (Hd c Hac) in Hc; discriminate.
  - apply in_matches_seq in H.
    destruct H as (m1 & g1 & rest1 & m2 & g2 & H1 & H2 & _ & _).
    destruct Hd as [Hd|Hd]; [eapply IH1; eassumption|].
    apply matches_split in H1; subst s.
    rewrite forallb_app in Hs; apply andb_true_iff in Hs; destruct Hs as [_ Hs].
    eapply IH2; eassumption.
  - apply in_matches_alt in H; destruct Hd as [Hd1 Hd2].
    destruct H as [H|H]; [eapply IH1|eapply IH2]; eassumption.
  - apply in_matches_grp in H; destruct H as (g' & H & _).
    eapply IH; eassumption.
Qed.

(** ** Substitution *)

Lemma sub_cons_no_match r repl (c : char) (s : str) :
  re_match r (c :: s) = None ->
  sub r repl (c :: s) = (rest <- sub r repl s ;; Ok (c :: rest)).
Proof. unfold sub; simpl; intros ->; reflexivity. Qed.

Lemma sub_loop_skip r repl (m rest : str) :
  sub_loop r repl (length m) (m ++ rest) = sub_loop r repl 0 rest.
Proof. induction m as [|c m IH]; [reflexivity|exact IH]. Qed.

(** A non-empty match at the head is replaced, and the scan resumes
    right after it. *)
Lemma sub_match_head r repl (c : char) (m rest : str) (g : list str) :
  re_match r (c :: m ++ rest) = Some (c :: m, g, rest) ->
  sub r repl (c :: m ++ rest)
  = (out <- repl g ;; rest' <- sub r repl rest ;; Ok (out ++ rest')).
Proof.
  unfold sub; cbn [sub_loop]; intros ->. cbn [length].
  rewrite sub_loop_skip; reflexivity.
Qed.

Lemma sub_match_whole r repl (c : char) (m : str) (g : list str) :
  re_match r (c :: m) = Some (c :: m, g, []) ->
  sub r repl (c :: m)
  = (out <- repl g ;; rest' <- sub r repl [] ;; Ok (out ++ rest')).
Proof.
  intros H. rewrite <- (app_nil_r m) in H at 1.
  rewrite <- (app_nil_r m) at 1. apply sub_match_head, H.
Qed.

(** Text without any match passes through unchanged. *)
Lemma sub_no_match r repl (s : str) :
  (forall pre t, s = pre ++ t -> re_match r t = None) ->
  sub r repl s = Ok s.
Proof.
  induction s as [|c s IH]; intros H.
  - unfold sub; simpl. rewrite (H [] [] eq_refl); reflexivity.
  - rewrite sub_cons_no_match by (apply (H []); reflexivity).
    rewrite IH; [reflexivity|].
    intros pre t ->; apply (H (c :: pre)); reflexivity.
Qed.

Lemma sub_dead (A : char -> bool) r repl (s : str) :
  dead A r -> forallb A s = true -> sub r repl s = Ok s.
Proof.
  intros Hd Hs; apply sub_no_match; intros pre t ->.
  rewrite forallb_app in Hs; apply andb_true_iff in Hs; destruct Hs as [_ Ht].
  unfold re_match; rewrite (@dead_no_match A r t Hd Ht); reflexivity.
Qed.

End ReFacts.

(* ================================================================== *)
(** * Properties of the numeral converter *)

Lemma lookup_Forall {K V : Type} (eqb : K -> K -> bool) (P : K -> V -> Prop)
      (d : list (K * V)) (k : K) (v : V) :
  (forall a b, eqb a b = true -> a = b) ->
  Forall (fun kv => P (fst kv) (snd kv)) d ->
  lookup eqb k d = Some v -> P k v.
Proof.
  intros Heq; induction 1 as [|[k' v'] d Hkv Hd IH]; simpl; [discriminate|].
  destruct (eqb k k') eqn:E; [|exact IH].
  apply Heq in E; subst k'. intros H; injection H as <-; exact Hkv.
Qed.

Ltac table_facts :=
  repeat (apply Forall_cons;
          [cbn beta iota delta [fst snd];
           repeat match goal with |- _ /\ _ => split end;
           vm_compute; congruence|]);
  apply Forall_nil.

Lemma char_eqb_true (a b : char) : char_eqb a b = true -> a = b.
Proof. apply char_eqb_eq. Qed.

(** Kanji digits denote 0..9; none is a unit, a decimal digit or a
    character accepted by [isdigit]; [str] of the value is one ASCII
    digit with that value. *)
Lemma kanji_num_facts (c : char) (v : Z) :
  kanji_num c = Some v ->
  (0 <= v <= 9)%Z /\ unit_small c = None /\ unit_large c = None
  /\ isdigit c = false /\ isdecimal c = false
  /\ exists a, py_str v = [a] /\ decimal_value a = Some v
               /\ is_ascii_digit a = true.
Proof.
  unfold kanji_num; intros H; pattern c, v.
  apply (@lookup_Forall _ _ char_eqb _ KANJI_NUM c v char_eqb_true); [|exact H].
  unfold KANJI_NUM.
  repeat (apply Forall_cons;
          [cbn beta iota delta [fst snd];
           repeat match goal with |- _ /\ _ => split end;
           lazymatch goal with
           | |- exists a, py_str ?v = _ /\ _ =>
               exists (Z.to_N v + 48)%N; repeat split; vm_compute; reflexivity
           | |- _ => vm_compute; congruence
           end|]).
  apply Forall_nil.
Qed.

Lemma unit_small_facts (c : char) (v : Z) :
  unit_small c = Some v ->
  (0 < v)%Z /\ kanji_num c = None /\ unit_large c = None
  /\ isdigit c = false /\ isdecimal c = false.
Proof.
  unfold unit_small; intros H; pattern c, v.
  apply (@lookup_Forall _ _ char_eqb _ UNIT_SMALL c v char_eqb_true); [|exact H].
  unfold UNIT_SMALL; table_facts.
Qed.

Lemma unit_large_facts (c : char) (v : Z) :
  unit_large c = Some v ->
  (0 < v)%Z /\ kanji_num c = None /\ unit_small c = None
  /\ isdigit c = false /\ isdecimal c = false.
Proof.
  unfold unit_large; intros H; pattern c, v.
  apply (@lookup_Forall _ _ char_eqb _ UNIT_LARGE c v char_eqb_true); [|exact H].
  unfold UNIT_LARGE; table_facts.
Qed.

(** ** [parse_small] *)

Lemma parse_small_loop_total (s : str) (total num : Z) :
  parse_small_loop s total num = (total + parse_small_loop s 0 num)%Z.
Proof.
  revert total num; induction s as [|c s IH]; intros total num;
    cbn [parse_small_loop]; [lia|].
  destruct (kanji_num c) as [v|]; [apply IH|].
  destruct (unit_small c) as [u|]; [|apply IH].
  cbv zeta. rewrite IH, (IH (0 + _)%Z). lia.
Qed.

Lemma parse_small_loop_nonneg (s : str) (total num : Z) :
  (0 <= total)%Z -> (0 <= num)%Z -> (0 <= parse_small_loop s total num)%Z.
Proof.
  revert total num; induction s as [|c s IH]; intros total num Ht Hn;
    cbn [parse_small_loop]; [lia|].
  destruct (kanji_num c) as [v|] eqn:Ek.
  - apply IH; [exact Ht|]. apply kanji_num_facts in Ek; lia.
  - destruct (unit_small c) as [u|] eqn:Eu; [|apply IH; assumption].
    cbv zeta. apply unit_small_facts in Eu. apply IH; [|lia].
    destruct (num =? 0)%Z; nia.
Qed.

Lemma parse_small_nonneg (s : str) : (0 <= parse_small s)%Z.
Proof. apply parse_small_loop_nonneg; lia. Qed.

Lemma parse_small_nil : parse_small [] = 0%Z.
Proof. reflexivity. Qed.

(** A digit on its own is its value. *)
Lemma parse_small_digit (d : char) (v : Z) :
  kanji_num d = Some v -> parse_small [d] = v.
Proof. intros H; unfold parse_small; cbn [parse_small_loop]; rewrite H; lia. Qed.

(** A small unit with no digit before it counts once. *)
Lemma parse_small_unit (u : char) (uv : Z) (rest : str) :
  unit_small u = Some uv -> parse_small (u :: rest) = (uv + parse_small rest)%Z.
Proof.
  intros H; unfold parse_small; cbn [parse_small_loop].
  destruct (unit_small_facts _ _ H) as (_ & -> & _). rewrite H.
  cbv zeta. rewrite parse_small_loop_total, Z.eqb_refl. lia.
Qed.

(** A digit multiplies the small unit that follows it; a written zero
    there counts as one, exactly as a missing digit does. *)
Lemma parse_small_digit_unit (d u : char) (v uv : Z) (rest : str) :
  kanji_num d = Some v -> unit_small u = Some uv ->
  parse_small (d :: u :: rest) = (one_if_zero v * uv + parse_small rest)%Z.
Proof.
  intros Hd Hu; unfold parse_small; cbn [parse_small_loop].
  rewrite Hd. destruct (unit_small_facts _ _ Hu) as (_ & -> & _). rewrite Hu.
  cbv zeta. rewrite parse_small_loop_total. unfold one_if_zero. lia.
Qed.

(** Of several digits in a row only the last one counts. *)
Lemma parse_small_digit_digit (d1 d2 : char) (v1 v2 : Z) (rest : str) :
  kanji_num d1 = Some v1 -> kanji_num d2 = Some v2 ->
  parse_small (d1 :: d2 :: rest) = parse_small (d2 :: rest).
Proof.
  intros H1 H2; unfold parse_small; cbn [parse_small_loop].
  rewrite H1, H2; reflexivity.
Qed.

(** Characters that are neither kanji digits nor small units are skipped,
    wherever they stand. *)
Lemma parse_small_loop_filter (s : str) (total num : Z) :
  parse_small_loop (filter numeral_char s) total num
  = parse_small_loop s total num.
Proof.
  revert total num; induction s as [|c s IH]; intros total num; [reflexivity|].
  cbn [filter]. unfold numeral_char at 1.
  destruct (kanji_num c) as [v|] eqn:Ek.
  - cbn [parse_small_loop]. rewrite Ek. apply IH.
  - destruct (unit_small c) as [u|] eqn:Eu.
    + cbn [parse_small_loop]. rewrite Ek, Eu. apply IH.
    + destruct (unit_large c) as [w|] eqn:El.
      * cbn [parse_small_loop]. rewrite Ek, Eu. apply IH.
      * cbn [parse_small_loop]. rewrite Ek, Eu. apply IH.
Qed.

Lemma parse_small_skip (a b : str) (c : char) :
  kanji_num c = None -> unit_small c = None ->
  parse_small (a ++ c :: b) = parse_small (a ++ b).
Proof.
  intros Hk Hu; unfold parse_small. generalize 0%Z at 1 3; generalize 0%Z.
  induction a as [|x a IH]; intros num total; cbn [app parse_small_loop].
  - rewrite Hk, Hu; reflexivity.
  - destruct (kanji_num x); [apply IH|]. destruct (unit_small x); apply IH.
Qed.

(** ** The units branch *)

Lemma units_loop_total (s : str) (total : Z) (current : str) :
  units_loop s total current = (total + units_loop s 0 current)%Z.
Proof.
  revert total current; induction s as [|c s IH]; intros total current;
    cbn [units_loop]; [lia|].
  destruct (unit_large c) as [v|]; [|apply IH].
  cbv zeta. rewrite IH, (IH (0 + _)%Z). lia.
Qed.

Lemma units_loop_nonneg (s : str) (current : str) :
  (0 <= units_loop s 0 current)%Z.
Proof.
  revert current; induction s as [|c s IH]; intros current; cbn [units_loop].
  - pose proof (parse_small_nonneg current); lia.
  - destruct (unit_large c) as [v|] eqn:E; [|apply IH].
    cbv zeta. rewrite units_loop_total. apply unit_large_facts in E.
    pose proof (parse_small_nonneg current). pose proof (IH []).
    destruct (parse_small current =? 0)%Z; nia.
Qed.

(** The cut is a cut: gluing the segments and the remainder back gives
    the string, the cutting characters are the large units and no other
    large unit is left inside. *)
Lemma split_large_join (s : str) :
  flat_map (fun seg : str * char => fst seg ++ [snd seg]) (fst (split_large s))
    ++ snd (split_large s) = s.
Proof.
  induction s as [|c s IH]; [reflexivity|].
  cbn [split_large]. destruct (split_large s) as [segs rmd].
  destruct (is_large c).
  - simpl in *. rewrite IH; reflexivity.
  - destruct segs as [|[p u] segs]; simpl in *; rewrite IH; reflexivity.
Qed.

Lemma split_large_clean (s : str) :
  Forall (fun seg : str * char =>
            has_large (fst seg) = false /\ is_large (snd seg) = true)
         (fst (split_large s))
  /\ has_large (snd (split_large s)) = false.
Proof.
  induction s as [|c s IH]; [split; [constructor|reflexivity]|].
  cbn [split_large]. destruct (split_large s) as [segs rmd].
  simpl in IH; destruct IH as [Hsegs Hrem].
  destruct (is_large c) eqn:E.
  - split; [|exact Hrem]. constructor; [split; [reflexivity|exact E]|exact Hsegs].
  - destruct segs as [|[p u] segs]; simpl.
    + split; [constructor|]. rewrite E; exact Hrem.
    + inversion Hsegs as [|x l [Hp Hu] Hl]; subst.
      split; [|exact Hrem]. constructor; [|exact Hl].
      simpl in *; rewrite E; auto.
Qed.

(** The left-to-right loop computes the value of the cut string. *)
Lemma units_loop_split (s : str) (current : str) :
  units_loop s 0 current
  = match fst (split_large s) with
    | [] => parse_small (current ++ snd (split_large s))
    | (p, u) :: segs =>
        (segment_value (current ++ p, u) + zsum (map segment_value segs)
         + parse_small (snd (split_large s)))%Z
    end.
Proof.
  revert current; induction s as [|c s IH]; intros current.
  - simpl. rewrite app_nil_r; reflexivity.
  - cbn [units_loop split_large]. unfold is_large.
    destruct (unit_large c) as [v|] eqn:E.
    + cbv zeta. rewrite units_loop_total, IH.
      destruct (split_large s) as [segs rmd]. cbn [fst snd].
      destruct segs as [|[p u] segs]; cbn [map zsum fold_right app];
        unfold segment_value; cbn [fst snd];
        unfold large_value, one_if_zero, zsum; rewrite E, ?app_nil_r; lia.
    + rewrite IH. destruct (split_large s) as [segs rmd]. cbn [fst snd].
      destruct segs as [|[p u] segs]; cbn [fst snd];
        rewrite <- app_assoc; reflexivity.
Qed.

Lemma units_loop_magnitude (s : str) : units_loop s 0 [] = magnitude_value s.
Proof.
  rewrite units_loop_split. unfold magnitude_value.
  destruct (split_large s) as [segs rmd]. cbn [fst snd].
  destruct segs as [|[p u] segs]; unfold zsum; cbn [map fold_right app];
    [lia|reflexivity].
Qed.

Lemma is_large_is_unit (c : char) : is_large c = true -> is_unit c = true.
Proof.
  unfold is_large, is_unit. destruct (unit_large c); [|discriminate].
  destruct (unit_small c); reflexivity.
Qed.

Lemma has_large_has_unit (s : str) : has_large s = true -> has_unit s = true.
Proof.
  unfold has_large, has_unit; rewrite !existsb_exists.
  intros (c & Hc & H); exists c; split; [exact Hc|apply is_large_is_unit, H].
Qed.

Lemma has_unit_nonempty (s : str) : has_unit s = true -> s <> [].
Proof. destruct s; [discriminate|discriminate]. Qed.

Lemma kanji_to_int_units (s : str) :
  has_unit s = true -> kanji_to_int s = Ok (units_loop s 0 []).
Proof.
  intros H; unfold kanji_to_int. destruct s as [|c s]; [discriminate|].
  rewrite H; reflexivity.
Qed.

Lemma is_unit_not_decimal (c : char) : is_unit c = true -> isdecimal c = false.
Proof.
  unfold is_unit. destruct (unit_small c) as [v|] eqn:Es.
  - intros _; apply unit_small_facts in Es; tauto.
  - destruct (unit_large c) as [v|] eqn:El; [|discriminate].
    intros _; apply unit_large_facts in El; tauto.
Qed.

(** ** [re.fullmatch(r"\d+", s)] *)

Lemma rep_greedy_all (cs : Re.cclass) (lo : nat) (s : str) :
  forallb (Re.in_class cs) s = true -> lo <= length s ->
  exists l, Re.rep_matches cs lo None s = (s, []) :: l.
Proof.
  revert lo; induction s as [|c s IH]; intros lo Hall Hlo.
  - destruct lo; [|simpl in Hlo; lia]. eexists; reflexivity.
  - cbn [forallb] in Hall; apply andb_true_iff in Hall; destruct Hall as [Hc Hs].
    cbn [Re.rep_matches Re.hi_allows option_map]. rewrite Hc. cbn [andb].
    destruct (IH (pred lo) Hs) as [l Hl]; [simpl in Hlo; lia|].
    rewrite Hl. eexists; reflexivity.
Qed.

Lemma in_class_digit (c : char) : Re.in_class [Re.CDigit] c = isdecimal c.
Proof. unfold Re.in_class; simpl; apply orb_false_r. Qed.

Lemma forallb_ext_eq {A : Type} (f g : A -> bool) (l : list A) :
  (forall x, f x = g x) -> forallb f l = forallb g l.
Proof. intros H; induction l as [|x l IH]; simpl; [|rewrite H, IH]; reflexivity. Qed.

Lemma fullmatch_digits_iff (s : str) :
  (exists x, Re.fullmatch re_digits s = Some x)
  <-> s <> [] /\ forallb isdecimal s = true.
Proof.
  unfold Re.fullmatch, re_digits; split.
  - intros [[[m g] rest] H]. apply find_some in H; destruct H as [Hin Hrest].
    cbn [snd] in Hrest. destruct rest; [|discriminate].
    apply ReFacts.in_matches_rep in Hin.
    destruct Hin as (_ & -> & Hall & Hlo & _). rewrite app_nil_r.
    split; [destruct m; [simpl in Hlo; lia|discriminate]|].
    rewrite <- Hall; apply forallb_ext_eq; intros; symmetry; apply in_class_digit.
  - intros [Hne Hall].
    assert (Hall' : forallb (Re.in_class [Re.CDigit]) s = true)
      by (rewrite <- Hall; apply forallb_ext_eq, in_class_digit).
    destruct (@rep_greedy_all [Re.CDigit] 1 s Hall') as [l Hl].
    { destruct s; [contradiction|simpl; lia]. }
    cbn [Re.matches]; rewrite Hl. eexists; reflexivity.
Qed.

Lemma fullmatch_digits_none (s : str) :
  forallb isdecimal s = false -> Re.fullmatch re_digits s = None.
Proof.
  intros H; destruct (Re.fullmatch re_digits s) as [x|] eqn:E; [|reflexivity].
  assert (Hx : exists x, Re.fullmatch re_digits s = Some x) by eauto.
  apply fullmatch_digits_iff in Hx; destruct Hx as [_ Hx]; congruence.
Qed.

Lemma existsb_forallb_false {A : Type} (f g : A -> bool) (l : list A) :
  (forall x, f x = true -> g x = false) ->
  existsb f l = true -> forallb g l = false.
Proof.
  intros Hfg; induction l as [|x l IH]; simpl; [discriminate|].
  destruct (f x) eqn:E; simpl.
  - intros _; rewrite (Hfg x E); reflexivity.
  - intros H; rewrite (IH H); apply andb_false_r.
Qed.

Lemma has_unit_not_gan (s : str) : has_unit s = true -> str_eqb s gan = false.
Proof.
  intros H; apply str_eqb_neq; intros ->; vm_compute in H; discriminate.
Qed.

(** With a unit character in the string, [normalize_number] is the
    magnitude arithmetic of [kanji_to_int]. *)
Lemma normalize_number_units (s : str) :
  has_unit s = true -> normalize_number s = Ok (units_loop s 0 []).
Proof.
  intros H; unfold normalize_number.
  rewrite (has_unit_not_gan _ H).
  rewrite fullmatch_digits_none
    by (apply existsb_forallb_false with (f := is_unit);
        [exact is_unit_not_decimal|exact H]).
  apply kanji_to_int_units, H.
Qed.

(** ** The digit-string branch *)

Lemma digit_strings_concat (s : str) : concat (digit_strings s) = digit_concat s.
Proof.
  induction s as [|c s IH]; [reflexivity|].
  cbn [digit_strings digit_concat flat_map]. unfold digit_image at 1.
  destruct (kanji_num c) as [v|]; [cbn [concat]; rewrite IH; reflexivity|].
  destruct (isdigit c); cbn [concat]; rewrite IH; reflexivity.
Qed.

Lemma digit_strings_nil (s : str) :
  digit_strings s = [] <-> digit_concat s = [].
Proof.
  induction s as [|c s IH]; [split; reflexivity|].
  cbn [digit_strings digit_concat flat_map]. unfold digit_image at 1.
  destruct (kanji_num c) as [v|] eqn:Ek.
  - destruct (kanji_num_facts _ _ Ek) as (_ & _ & _ & _ & _ & a & -> & _).
    split; discriminate.
  - destruct (isdigit c); [split; discriminate|exact IH].
Qed.

(** The digit-string branch of [kanji_to_int]. *)
Lemma kanji_to_int_digits (s : str) :
  has_unit s = false ->
  kanji_to_int s = match digit_concat s with
                   | [] => Ok 0%Z
                   | ds => int ds
                   end.
Proof.
  intros H; unfold kanji_to_int. destruct s as [|c s]; [reflexivity|].
  rewrite H. rewrite <- digit_strings_concat.
  destruct (digit_strings (c :: s)) as [|d ds] eqn:E; [reflexivity|].
  assert (Hne : digit_concat (c :: s) <> []).
  { intros Hn; apply digit_strings_nil in Hn; congruence. }
  rewrite <- digit_strings_concat, E in Hne.
  destruct (concat (d :: ds)); [contradiction|reflexivity].
Qed.


Lemma decimal_not_kanji (c : char) : isdecimal c = true -> kanji_num c = None.
Proof.
  intros H; destruct (kanji_num c) as [v|] eqn:E; [|reflexivity].
  apply kanji_num_facts in E; destruct E as (_ & _ & _ & _ & E & _); congruence.
Qed.

Lemma digit_image_decimal (c : char) : isdecimal c = true -> digit_image c = [c].
Proof.
  intros H; unfold digit_image.
  rewrite (decimal_not_kanji _ H), (isdecimal_isdigit _ H); reflexivity.
Qed.

Lemma digit_concat_decimal (s : str) :
  forallb isdecimal s = true -> digit_concat s = s.
Proof.
  induction s as [|c s IH]; [reflexivity|].
  cbn [forallb]; rewrite andb_true_iff; intros [Hc Hs].
  cbn [digit_concat flat_map]. rewrite (digit_image_decimal _ Hc).
  fold (digit_concat s). rewrite (IH Hs); reflexivity.
Qed.

(** Without unit characters [normalize_number] is the digit-string
    conversion, the token 元 apart. *)
Lemma normalize_number_digits (s : str) :
  has_unit s = false ->
  normalize_number s
  = if str_eqb s gan then Ok 1%Z
    else match digit_concat s with
         | [] => Ok 0%Z
         | ds => int ds
         end.
Proof.
  intros H; unfold normalize_number. destruct (str_eqb s gan); [reflexivity|].
  destruct (Re.fullmatch re_digits s) as [x|] eqn:E.
  - assert (Hx : exists x, Re.fullmatch re_digits s = Some x) by eauto.
    apply fullmatch_digits_iff in Hx; destruct Hx as [Hne Hall].
    rewrite (digit_concat_decimal _ Hall).
    destruct s; [contradiction|reflexivity].
  - apply kanji_to_int_digits, H.
Qed.



(** ** When [normalize_number] returns *)

Lemma digit_concat_all_decimal (s : str) :
  (forall c, In c s -> isdigit c = true -> isdecimal c = true) ->
  forallb isdecimal (digit_concat s) = true.
Proof.
  induction s as [|c s IH]; intros H; [reflexivity|].
  cbn [digit_concat flat_map]. apply forallb_app_true.
  - unfold digit_image. destruct (kanji_num c) as [v|] eqn:Ek.
    + destruct (kanji_num_facts _ _ Ek) as (_ & _ & _ & _ & _ & a & -> & Ha & _).
      cbn [forallb]. unfold isdecimal; rewrite Ha; reflexivity.
    + destruct (isdigit c) eqn:Ed; [|reflexivity].
      cbn [forallb]. rewrite (H c (or_introl eq_refl) Ed); reflexivity.
  - apply IH. intros c' Hc'; apply H; right; exact Hc'.
Qed.

(** [normalize_number] returns a non-negative integer on every string
    whose characters accepted by [isdigit] are decimal digits. *)
Lemma normalize_number_ok (s : str) :
  (forall c, In c s -> isdigit c = true -> isdecimal c = true) ->
  exists n, normalize_number s = Ok n /\ (0 <= n)%Z.
Proof.
  intros H. destruct (has_unit s) eqn:Eu.
  - rewrite (normalize_number_units _ Eu). eexists; split; [reflexivity|].
    apply units_loop_nonneg.
  - rewrite (normalize_number_digits _ Eu).
    destruct (str_eqb s gan); [exists 1%Z; split; [reflexivity|lia]|].
    pose proof (digit_concat_all_decimal _ H) as Hall.
    destruct (digit_concat s) as [|d ds] eqn:E;
      [exists 0%Z; split; [reflexivity|lia]|].
    assert (Hi : exists n, int (d :: ds) = Ok n)
      by (apply int_ok_iff; split; [discriminate|exact Hall]).
    destruct Hi as [n Hn]. exists n; split; [exact Hn|].
    eapply int_nonneg; exact Hn.
Qed.

(** ** Characters outside the numeral alphabet in magnitude mode *)

Lemma units_loop_filter (s : str) (total : Z) (current : str) :
  units_loop (filter numeral_char s) total (filter numeral_char current)
  = units_loop s total current.
Proof.
  revert total current; induction s as [|c s IH]; intros total current.
  - cbn [filter units_loop]. unfold parse_small.
    rewrite parse_small_loop_filter; reflexivity.
  - cbn [filter units_loop]. unfold numeral_char at 1.
    destruct (unit_large c) as [v|] eqn:El.
    + destruct (unit_large_facts _ _ El) as (_ & -> & -> & _).
      cbn [units_loop]. rewrite El. cbv zeta.
      unfold parse_small at 1 2. rewrite parse_small_loop_filter.
      fold (parse_small current). apply (IH _ []).
    + assert (Hsnoc : forall keep : bool,
                 numeral_char c = keep ->
                 filter numeral_char (current ++ [c])
                 = filter numeral_char current ++ (if keep then [c] else [])).
      { intros keep Hk. rewrite filter_app. cbn [filter]. rewrite Hk.
        destruct keep; reflexivity. }
      destruct (kanji_num c) as [v|] eqn:Ek;
        [|destruct (unit_small c) as [w|] eqn:Es].
      * cbn [units_loop]. rewrite El, <- IH.
        rewrite (Hsnoc true) by (unfold numeral_char; rewrite Ek; reflexivity).
        reflexivity.
      * cbn [units_loop]. rewrite El, <- IH.
        rewrite (Hsnoc true)
          by (unfold numeral_char; rewrite Ek, Es; reflexivity).
        reflexivity.
      * rewrite <- (IH total (current ++ [c])).
        rewrite (Hsnoc false)
          by (unfold numeral_char; rewrite Ek, Es, El; reflexivity).
        rewrite app_nil_r; reflexivity.
Qed.

Lemma is_unit_numeral_char (c : char) : is_unit c = true -> numeral_char c = true.
Proof.
  unfold is_unit, numeral_char.
  destruct (kanji_num c), (unit_small c), (unit_large c);
    try reflexivity; discriminate.
Qed.

Lemma has_unit_filter (s : str) :
  has_unit (filter numeral_char s) = has_unit s.
Proof.
  induction s as [|c s IH]; [reflexivity|]. cbn [filter].
  destruct (numeral_char c) eqn:E; cbn [has_unit existsb].
  - fold (has_unit (filter numeral_char s)) (has_unit s). rewrite IH; reflexivity.
  - fold (has_unit s). rewrite IH.
    destruct (is_unit c) eqn:Eu; [|reflexivity].
    apply is_unit_numeral_char in Eu; congruence.
Qed.

Lemma ascii_digit_decimal (c : char) :
  is_ascii_digit c = true -> isdecimal c = true.
Proof.
  unfold is_ascii_digit, isdecimal, decimal_value, decimal_zeros.
  cbn [decimal_in]. change (0x30 + 9)%N with 0x39%N. intros ->; reflexivity.
Qed.

Lemma decimal_not_numeral_char (c : char) :
  isdecimal c = true -> numeral_char c = false.
Proof.
  intros H; unfold numeral_char. rewrite (decimal_not_kanji _ H).
  destruct (unit_small c) as [v|] eqn:Es;
    [apply unit_small_facts in Es; destruct Es as (_ & _ & _ & _ & Es); congruence|].
  destruct (unit_large c) as [v|] eqn:El;
    [apply unit_large_facts in El; destruct El as (_ & _ & _ & _ & El); congruence|].
  reflexivity.
Qed.

Lemma filter_ascii_digits (ds : str) :
  forallb is_ascii_digit ds = true -> filter numeral_char ds = [].
Proof.
  induction ds as [|c ds IH]; [reflexivity|].
  cbn [forallb filter]; rewrite andb_true_iff; intros [Hc Hds].
  rewrite (decimal_not_numeral_char _ (ascii_digit_decimal _ Hc)); auto.
Qed.

(* ================================================================== *)
(** * The numeral converter: main results *)

(** C6. For every string with a large-unit character, [kanji_to_int] (and
    [normalize_number]) returns the value of the string cut at its large
    units: each segment's prefix read by [parse_small], a zero prefix
    counted as 1, times the large unit, the segments summed, plus the
    remainder read by [parse_small].  The cut glues back to the string.
    [parse_small] reads a digit times the small unit after it, a unit
    without digit once, and adds a trailing digit.  In particular
    一万 = 10000, 三万二千一 = 32001 and 億 = 100000000. *)
Theorem kanji_to_int_large_units :
  (forall s, has_large s = true ->
     kanji_to_int s = Ok (magnitude_value s)
     /\ normalize_number s = Ok (magnitude_value s)
     /\ flat_map (fun seg : str * char => fst seg ++ [snd seg])
                 (fst (split_large s)) ++ snd (split_large s) = s)
  /\ (parse_small [] = 0%Z
      /\ (forall d v, kanji_num d = Some v -> parse_small [d] = v)
      /\ (forall u uv rest, unit_small u = Some uv ->
            parse_small (u :: rest) = (uv + parse_small rest)%Z)
      /\ (forall d v u uv rest,
            kanji_num d = Some v -> unit_small u = Some uv ->
            parse_small (d :: u :: rest)
            = (one_if_zero v * uv + parse_small rest)%Z))
  /\ normalize_number (py "一万") = Ok 10000%Z
  /\ normalize_number (py "三万二千一") = Ok 32001%Z
  /\ normalize_number (py "億") = Ok 100000000%Z.
Proof.
  split; [|split; [|repeat split; reflexivity]].
  - intros s H. pose proof (has_large_has_unit _ H) as Hu.
    rewrite (kanji_to_int_units _ Hu), (normalize_number_units _ Hu).
    rewrite units_loop_magnitude. repeat split. apply split_large_join.
  - split; [reflexivity|]. split; [exact parse_small_digit|].
    split; [exact parse_small_unit|].
    intros d v u uv rest; apply parse_small_digit_unit.
Qed.

Lemma kanji_to_int_large_units_witness :
  has_large (py "三万二千一") = true
  /\ kanji_to_int (py "三万二千一") = Ok 32001%Z.
Proof.
  split; [reflexivity|].
  exact (proj1 (proj1 kanji_to_int_large_units (py "三万二千一") eq_refl)).
Defined.



(** C10. In magnitude mode only kanji digits and units count: deleting
    every other character from a string with a unit does not change the
    result of [kanji_to_int], and [parse_small] likewise.  ASCII digits
    before a large unit therefore contribute nothing and the bare-unit
    default applies: [kanji_to_int] of digits followed by a large unit is
    the value of the unit, and 5万 = 10000. *)
Theorem ascii_digits_ignored_with_units :
  (forall s, has_unit s = true ->
     kanji_to_int s = kanji_to_int (filter numeral_char s))
  /\ (forall s, parse_small (filter numeral_char s) = parse_small s)
  /\ (forall ds u v, forallb is_ascii_digit ds = true ->
        unit_large u = Some v ->
        parse_small ds = 0%Z /\ kanji_to_int (ds ++ [u]) = Ok v)
  /\ kanji_to_int (py "5万") = Ok 10000%Z.
Proof.
  split; [|split; [|split; [|reflexivity]]].
  - intros s H. rewrite (kanji_to_int_units _ H).
    rewrite kanji_to_int_units by (rewrite has_unit_filter; exact H).
    rewrite <- (units_loop_filter s 0 []); reflexivity.
  - intros s; unfold parse_small; apply parse_small_loop_filter.
  - intros ds u v Hds Hu. split.
    + unfold parse_small. rewrite <- parse_small_loop_filter.
      rewrite (filter_ascii_digits _ Hds); reflexivity.
    + assert (Hunit : has_unit (ds ++ [u]) = true).
      { unfold has_unit; rewrite existsb_app; cbn [existsb].
        unfold is_unit; rewrite Hu.
        destruct (unit_small u); rewrite !orb_true_r; reflexivity. }
      rewrite (kanji_to_int_units _ Hunit).
      rewrite <- (units_loop_filter (ds ++ [u]) 0 []).
      rewrite filter_app, (filter_ascii_digits _ Hds). cbn [app filter].
      replace (numeral_char u) with true
        by (unfold numeral_char; rewrite Hu;
            destruct (kanji_num u), (unit_small u); reflexivity).
      cbn [units_loop]. rewrite Hu. cbv zeta.
      change (parse_small []) with 0%Z. rewrite Z.eqb_refl. f_equal; lia.
Qed.

Lemma ascii_digits_ignored_with_units_witness :
  has_unit (py "5万") = true
  /\ kanji_to_int (py "5万") = kanji_to_int (filter numeral_char (py "5万")).
Proof.
  split; [reflexivity|].
  exact (proj1 ascii_digits_ignored_with_units (py "5万") eq_refl).
Defined.

(** C3 (failing input). The superscript two is accepted by [isdigit] and
    collected by the digit-string branch, but [int] rejects it:
    [normalize_number] raises [ValueError] instead of returning 0. *)
Theorem normalize_number_superscript_raises :
  isdigit (ch "²") = true /\ isdecimal (ch "²") = false
  /\ kanji_to_int (py "²") = Raise ValueError
  /\ normalize_number (py "²") = Raise ValueError.
Proof. repeat split; reflexivity. Qed.

(* ================================================================== *)
(** * More on matching: the first match, and substitution results *)

Module ReFirst.
Import Re.

Lemma re_match_in (r : regex) (s : str) (x : mres) :
  re_match r s = Some x -> In x (matches r s).
Proof.
  unfold re_match; destruct (matches r s) as [|y l]; [discriminate|].
  intros H; injection H as ->; left; reflexivity.
Qed.

Lemma re_match_head (r : regex) (s : str) (x : mres) :
  re_match r s = Some x <-> exists l, matches r s = x :: l.
Proof.
  unfold re_match; destruct (matches r s) as [|y l]; simpl; split.
  - discriminate.
  - intros [l' H]; discriminate.
  - intros H; injection H as ->; eauto.
  - intros [l' H]; injection H as -> _; reflexivity.
Qed.

Lemma re_match_lit (l rest : str) :
  re_match (Lit l) (l ++ rest) = Some (l, [], rest).
Proof.
  unfold re_match; cbn [matches].
  rewrite (proj2 (ReFacts.strip_prefix_app l (l ++ rest) rest) eq_refl).
  reflexivity.
Qed.


Lemma re_match_grp (r : regex) (s m rest : str) (g : list str) :
  re_match r s = Some (m, g, rest) ->
  re_match (Grp r) s = Some (m, m :: g, rest).
Proof.
  rewrite !re_match_head; intros [l H]; cbn [matches]; rewrite H.
  eexists; reflexivity.
Qed.

Lemma re_match_alt_l (r1 r2 : regex) (s : str) (x : mres) :
  re_match r1 s = Some x -> re_match (Alt r1 r2) s = Some x.
Proof.
  rewrite !re_match_head; intros [l H]; cbn [matches]; rewrite H.
  eexists; reflexivity.
Qed.

Lemma re_match_alt_r (r1 r2 : regex) (s : str) :
  matches r1 s = [] -> re_match (Alt r1 r2) s = re_match r2 s.
Proof. intros H; unfold re_match; cbn [matches]; rewrite H; reflexivity. Qed.

(** When the first way to match [r1] can be continued by [r2], that is
    the match of the sequence. *)
Lemma re_match_seq (r1 r2 : regex) (s m1 rest1 m2 rest2 : str)
      (g1 g2 : list str) :
  re_match r1 s = Some (m1, g1, rest1) ->
  re_match r2 rest1 = Some (m2, g2, rest2) ->
  re_match (Seq r1 r2) s = Some (m1 ++ m2, g1 ++ g2, rest2).
Proof.
  rewrite !re_match_head; intros [l1 H1] [l2 H2]; cbn [matches].
  rewrite H1; cbn [flat_map]; rewrite H2; cbn [map app].
  eexists; reflexivity.
Qed.

(** The greedy repetition takes all of [m] first when [m] is in the class
    and the repetition cannot go further: the bound is reached or what
    follows is not in the class. *)
Lemma rep_matches_head (cs : cclass) (lo : nat) (hi : option nat)
      (m rest : str) :
  forallb (in_class cs) m = true -> lo <= length m ->
  (forall h, hi = Some h -> length m <= h) ->
  hi = Some (length m) \/ starts_outside cs rest = true ->
  exists l, rep_matches cs lo hi (m ++ rest) = (m, rest) :: l.
Proof.
  revert lo hi; induction m as [|c m IH]; intros lo hi Hall Hlo Hhi Hstop.
  - destruct lo; [|simpl in Hlo; lia]. cbn [app].
    destruct rest as [|c rest]; [eexists; reflexivity|].
    cbn [rep_matches].
    destruct Hstop as [->|Hout].
    + cbn [length hi_allows andb]. eexists; reflexivity.
    + cbn [starts_outside] in Hout. apply negb_true_iff in Hout.
      rewrite Hout, andb_false_r. eexists; reflexivity.
  - cbn [forallb] in Hall; apply andb_true_iff in Hall; destruct Hall as [Hc Hm].
    cbn [app rep_matches]. rewrite Hc, andb_true_r.
    assert (Hal : hi_allows hi = true).
    { destruct hi as [[|h]|]; try reflexivity.
      specialize (Hhi 0 eq_refl); simpl in Hhi; lia. }
    rewrite Hal.
    destruct (IH (pred lo) (option_map pred hi) Hm) as [l Hl].
    + simpl in Hlo; lia.
    + intros h Hh. destruct hi as [h'|]; [|discriminate].
      injection Hh as <-. specialize (Hhi h' eq_refl); simpl in Hhi; lia.
    + destruct Hstop as [->|Hout]; [left; reflexivity|right; exact Hout].
    + rewrite Hl. cbn [map app fst snd]. eexists; reflexivity.
Qed.

Lemma re_match_rep (cs : cclass) (lo : nat) (hi : option nat) (m rest : str) :
  forallb (in_class cs) m = true -> lo <= length m ->
  (forall h, hi = Some h -> length m <= h) ->
  hi = Some (length m) \/ starts_outside cs rest = true ->
  re_match (Rep cs lo hi) (m ++ rest) = Some (m, [], rest).
Proof.
  intros Hall Hlo Hhi Hstop.
  destruct (@rep_matches_head cs lo hi m rest Hall Hlo Hhi Hstop) as [l Hl].
  apply re_match_head. cbn [matches]. rewrite Hl. eexists; reflexivity.
Qed.

(** ** What [sub] returns *)



Lemma sub_loop_raise (P : exn -> Prop) (r : regex)
      (repl : list str -> result str) :
  (forall t m g rest e, re_match r t = Some (m, g, rest) ->
     repl g = Raise e -> P e) ->
  forall s skip e, sub_loop r repl skip s = Raise e -> P e.
Proof.
  intros Hrepl; induction s as [|c s IH]; intros skip e.
  - destruct skip; [|discriminate]. cbn [sub_loop].
    destruct (re_match r []) as [[[m g] rest]|] eqn:E; [|discriminate].
    destruct (repl g) as [out|e'] eqn:Er; cbn [bind]; [discriminate|].
    intros H; injection H as <-. eapply Hrepl; eassumption.
  - destruct skip as [|k]; [|apply IH]. cbn [sub_loop].
    destruct (re_match r (c :: s)) as [[[m g] rest]|] eqn:E.
    + destruct (repl g) as [out|e'] eqn:Er; cbn [bind].
      * destruct (length m) as [|k].
        -- destruct (sub_loop r repl 0 s) as [o|e'] eqn:Es; cbn [bind];
             [discriminate|].
           intros H; injection H as <-. eapply IH; exact Es.
        -- destruct (sub_loop r repl k s) as [o|e'] eqn:Es; cbn [bind];
             [discriminate|].
           intros H; injection H as <-. eapply IH; exact Es.
      * intros H; injection H as <-. eapply Hrepl; eassumption.
    + destruct (sub_loop r repl 0 s) as [o|e'] eqn:Es; cbn [bind];
        [discriminate|].
      intros H; injection H as <-. eapply IH; exact Es.
Qed.


End ReFirst.

(* ================================================================== *)
(** * The date patterns and their replacement functions *)

Import Re ReFacts ReFirst.

Ltac inv_match :=
  repeat match goal with
  | H : In _ (matches (Seq _ _) _) |- _ =>
      apply in_matches_seq in H;
      destruct H as (? & ? & ? & ? & ? & ? & ? & ? & ?)
  | H : In _ (matches (Grp _) _) |- _ =>
      apply in_matches_grp in H; destruct H as (? & ? & ?)
  | H : In _ (matches (Alt _ _) _) |- _ =>
      apply in_matches_alt in H; destruct H as [H|H]
  | H : In _ (matches (Lit _) _) |- _ =>
      apply in_matches_lit in H; destruct H as (? & ? & ?)
  | H : In _ (matches (Cls _) _) |- _ =>
      apply in_matches_cls in H; destruct H as (? & ? & ? & ? & ?)
  | H : In _ (matches (Rep _ _ _) _) |- _ =>
      apply in_matches_rep in H; destruct H as (? & ? & ? & ? & ?)
  end.

(** Splits [in_class cs c = true], for an explicit class, into its items. *)
Ltac class_cases H :=
  unfold in_class in H; cbn [existsb item_match] in H;
  repeat (apply orb_true_iff in H; destruct H as [H|H]);
  try discriminate H.

Lemma digit_safe_nil : digit_safe [].
Proof. intros c []. Qed.

Lemma digit_safe_class (cs : cclass) (s : str) :
  (forall c, in_class cs c = true -> isdigit c = true -> isdecimal c = true) ->
  forallb (in_class cs) s = true -> digit_safe s.
Proof.
  intros Hcs Hs c Hc. rewrite forallb_forall in Hs. apply Hcs, Hs, Hc.
Qed.

Lemma digit_safe_removelast (s : str) : digit_safe s -> digit_safe (removelast s).
Proof.
  intros H c Hc. apply H. clear H.
  induction s as [|x s IH]; [destruct Hc|].
  destruct s as [|y s]; [destruct Hc|].
  cbn [removelast] in Hc. destruct Hc as [<-|Hc]; [left; reflexivity|].
  right; apply IH; exact Hc.
Qed.

Lemma fullwidth_decimal (c : char) :
  in_range c (0xFF10, 0xFF19)%N = true -> isdecimal c = true.
Proof.
  unfold in_range; cbn [fst snd]. rewrite andb_true_iff, !N.leb_le.
  intros [H1 H2]. unfold char in *.
  assert (H : (c = 0xFF10 \/ c = 0xFF11 \/ c = 0xFF12 \/ c = 0xFF13
               \/ c = 0xFF14 \/ c = 0xFF15 \/ c = 0xFF16 \/ c = 0xFF17
               \/ c = 0xFF18 \/ c = 0xFF19)%N) by lia.
  repeat (destruct H as [->|H]; [reflexivity|]). subst c; reflexivity.
Qed.

Ltac class_digit_safe H Hd :=
  class_cases H;
  first [ exact H
        | apply fullwidth_decimal; exact H
        | apply char_eqb_eq in H; subst; vm_compute in Hd; discriminate Hd ].

Lemma kanji_num_chars_safe (c : char) :
  in_class kanji_num_chars c = true -> isdigit c = true -> isdecimal c = true.
Proof. unfold kanji_num_chars; intros H Hd; class_digit_safe H Hd. Qed.

Lemma seireki_year_chars_safe (c : char) :
  in_class seireki_year_chars c = true -> isdigit c = true ->
  isdecimal c = true.
Proof. unfold seireki_year_chars; intros H Hd; class_digit_safe H Hd. Qed.

Lemma abbr_year_chars_safe (c : char) :
  in_class abbr_year_chars c = true -> isdigit c = true -> isdecimal c = true.
Proof. unfold abbr_year_chars; intros H Hd; class_digit_safe H Hd. Qed.

Lemma digits_class_safe (c : char) :
  in_class [CDigit] c = true -> isdigit c = true -> isdecimal c = true.
Proof. intros H Hd; class_digit_safe H Hd. Qed.

Lemma removelast_snoc (s : str) (c : char) : removelast (s ++ [c]) = s.
Proof. apply removelast_last. Qed.

(** ** [_make_repl] *)

Lemma make_repl_unfold (era_year month day_str : str) (era_base : option Z)
      (n : Z) :
  normalize_number era_year = Ok n ->
  _make_repl era_year month day_str era_base
  = (mo <- normalize_number month ;;
     day <- (if str_eqb day_str matsujitsu
             then monthrange_ndays (resolved_year era_base n) mo
             else normalize_number (removelast day_str)) ;;
     Ok (format_date (resolved_year era_base n) mo day)).
Proof. intros H; unfold _make_repl; rewrite H; reflexivity. Qed.

(** On digit-safe groups [_make_repl] returns a formatted date, or fails
    in the end-of-month resolution. *)
Lemma make_repl_cases (era_year month day_str : str) (era_base : option Z) :
  digit_safe era_year -> digit_safe month ->
  day_str = matsujitsu \/ digit_safe (removelast day_str) ->
  exists n, normalize_number era_year = Ok n /\ (0 <= n)%Z
  /\ ((exists mo dd,
         _make_repl era_year month day_str era_base
         = Ok (format_date (resolved_year era_base n) mo dd))
      \/ (day_str = matsujitsu
          /\ _make_repl era_year month day_str era_base
             = Raise IllegalMonthError)).
Proof.
  intros Hy Hm Hd.
  destruct (normalize_number_ok _ Hy) as (n & Hn & Hpos).
  destruct (normalize_number_ok _ Hm) as (mo & Hmo & _).
  exists n; split; [exact Hn|split; [exact Hpos|]].
  rewrite (@make_repl_unfold _ _ _ _ _ Hn), Hmo. cbn [bind].
  destruct (str_eqb day_str matsujitsu) eqn:E.
  - apply str_eqb_eq in E. unfold monthrange_ndays.
    destruct ((1 <=? mo)%Z && (mo <=? 12)%Z); cbn [bind].
    + left; eauto.
    + right; auto.
  - destruct Hd as [->|Hd]; [rewrite str_eqb_refl in E; discriminate|].
    destruct (normalize_number_ok _ Hd) as (dd & -> & _). cbn [bind].
    left; eauto.
Qed.

(** ** The groups of a match, pattern by pattern *)

Lemma era_pattern_groups (s m rest : str) (g : list str) :
  In (m, g, rest) (matches era_pattern s) ->
  exists era y mth d base,
    g = [era; y; mth; d] /\ lookup str_eqb era ERA_MAP = Some base
    /\ base <> 0%Z
    /\ digit_safe y /\ digit_safe mth /\ day_group_ok d.
Proof.
  unfold era_pattern; intros H; inv_match; subst; cbn [app];
    (eexists _, _, _, _, _; split; [reflexivity|];
     split; [vm_compute; reflexivity|]; split; [discriminate|];
     split; [eapply digit_safe_class;
             [exact kanji_num_chars_safe|eassumption]|];
     split; [eapply digit_safe_class;
             [exact kanji_num_chars_safe|eassumption]|]).
  all: first [ left; reflexivity
             | right; rewrite ?app_nil_r, removelast_snoc;
               eapply digit_safe_class;
               [exact kanji_num_chars_safe|eassumption] ].
Qed.

Lemma seireki_pattern_groups (s m rest : str) (g : list str) :
  In (m, g, rest) (matches seireki_pattern s) ->
  exists y mth d,
    g = [y; mth; d] /\ digit_safe y /\ digit_safe mth /\ day_group_ok d.
Proof.
  unfold seireki_pattern; intros H; inv_match; subst; cbn [app];
    (eexists _, _, _; split; [reflexivity|];
     split; [eapply digit_safe_class;
             [exact seireki_year_chars_safe|eassumption]|];
     split; [eapply digit_safe_class;
             [exact kanji_num_chars_safe|eassumption]|]).
  all: first [ left; reflexivity
             | right; rewrite ?app_nil_r, removelast_snoc;
               eapply digit_safe_class;
               [exact kanji_num_chars_safe|eassumption] ].
Qed.

Lemma abbr_pattern_groups (s m rest : str) (g : list str) :
  In (m, g, rest) (matches abbr_pattern s) ->
  exists era_abbr y mth d base,
    g = [era_abbr; y; mth; d]
    /\ lookup str_eqb era_abbr ERA_ABBR_MAP = Some base /\ base <> 0%Z
    /\ digit_safe y /\ digit_safe mth /\ day_group_ok d.
Proof.
  unfold abbr_pattern; intros H; inv_match; subst; cbn [app];
    match goal with
    | Hc : in_class _ ?c = true |- exists _ _ _ _ _, [[?c]; _; _; _] = _ /\ _ =>
        class_cases Hc; apply char_eqb_eq in Hc; subst c
    end;
    (eexists _, _, _, _, _; split; [reflexivity|];
     split; [vm_compute; reflexivity|]; split; [discriminate|];
     split; [eapply digit_safe_class;
             [exact abbr_year_chars_safe|eassumption]|];
     split; [eapply digit_safe_class;
             [exact digits_class_safe|eassumption]|]).
  all: first [ left; reflexivity
             | right; apply digit_safe_removelast;
               eapply digit_safe_class;
               [exact digits_class_safe|eassumption] ].
Qed.

Lemma delim_pattern_groups (s m rest : str) (g : list str) :
  In (m, g, rest) (matches delim_pattern s) ->
  exists m1 m2 m3 y mo d,
    g = [m1; m2; m3] /\ int m1 = Ok y /\ int m2 = Ok mo /\ int m3 = Ok d.
Proof.
  unfold delim_pattern; intros H; inv_match; subst; cbn [app].
  repeat match goal with
  | Hall : forallb (in_class [CDigit]) ?x = true, Hlo : _ <= length ?x |- _ =>
      let n := fresh "n" in let Hn := fresh "Hn" in
      assert (exists n, int x = Ok n) as [n Hn]
        by (apply int_ok_iff; split;
            [destruct x; [simpl in Hlo; lia|discriminate]
            |rewrite <- Hall; apply forallb_ext_eq; intros;
             symmetry; apply in_class_digit]);
      clear Hall
  end.
  eexists _, _, _, _, _, _; repeat split; eassumption.
Qed.

(** ** What the replacement functions return on a match *)

Lemma group_in_subject (r : regex) (t m rest : str) (g : list str) (x : str)
      (c : char) :
  In (m, g, rest) (matches r t) -> In x g -> In c x -> In c t.
Proof.
  intros Hm Hx Hc. rewrite (@matches_split _ _ _ _ _ Hm).
  apply in_or_app; left. exact (@matches_groups_incl _ _ _ _ _ Hm x Hx c Hc).
Qed.

Lemma make_repl_date_repl (r : regex) (t m rest : str) (g : list str)
      (y mth d : str) (base : option Z) :
  In (m, g, rest) (matches r t) -> In d g ->
  digit_safe y -> digit_safe mth -> day_group_ok d ->
  (exists a b c, _make_repl y mth d base = Ok (format_date a b c))
  \/ (_make_repl y mth d base = Raise IllegalMonthError /\ In matsu t).
Proof.
  intros Hm Hd Hy Hmth Hday.
  destruct (@make_repl_cases y mth d base Hy Hmth Hday)
    as (n & _ & _ & [(mo & dd & H)|[Heq H]]).
  - left; eauto.
  - right; split; [exact H|].
    eapply group_in_subject; [exact Hm|exact Hd|]. subst d; left; reflexivity.
Qed.

Lemma era_date_repl : date_repl era_pattern era_repl.
Proof.
  intros t m g rest H; apply re_match_in in H.
  destruct (@era_pattern_groups _ _ _ _ H)
    as (era & y & mth & d & base & -> & Hb & _ & Hy & Hm & Hd).
  cbn [era_repl]. rewrite Hb.
  eapply make_repl_date_repl; try eassumption. simpl; tauto.
Qed.

Lemma seireki_date_repl : date_repl seireki_pattern seireki_repl.
Proof.
  intros t m g rest H; apply re_match_in in H.
  destruct (@seireki_pattern_groups _ _ _ _ H) as (y & mth & d & -> & Hy & Hm & Hd).
  cbn [seireki_repl].
  eapply make_repl_date_repl; try eassumption. simpl; tauto.
Qed.

Lemma abbr_date_repl : date_repl abbr_pattern abbr_repl.
Proof.
  intros t m g rest H; apply re_match_in in H.
  destruct (@abbr_pattern_groups _ _ _ _ H)
    as (era & y & mth & d & base & -> & Hb & _ & Hy & Hm & Hd).
  cbn [abbr_repl]. rewrite Hb.
  eapply make_repl_date_repl; try eassumption. simpl; tauto.
Qed.

Lemma delim_date_repl : date_repl delim_pattern delim_repl.
Proof.
  intros t m g rest H; apply re_match_in in H.
  destruct (@delim_pattern_groups _ _ _ _ H)
    as (m1 & m2 & m3 & y & mo & d & -> & H1 & H2 & H3).
  left; exists y, mo, d. cbn [delim_repl]. rewrite H1, H2, H3; reflexivity.
Qed.





(** The only exception a pass can raise is [IllegalMonthError]. *)
Lemma date_pass_raise (r : regex) (repl : list str -> result str) (s : str)
      (e : exn) :
  date_repl r repl -> sub r repl s = Raise e -> e = IllegalMonthError.
Proof.
  intros Hr; unfold sub.
  apply (@sub_loop_raise (fun e => e = IllegalMonthError) r repl).
  intros t m g rest e' Hm He.
  destruct (Hr _ _ _ _ Hm) as [(a & b & c & H)|[H _]]; congruence.
Qed.


Lemma replace_dates_raise (text : str) (e : exn) :
  replace_dates text = Raise e -> e = IllegalMonthError.
Proof.
  unfold replace_dates; intros H.
  repeat match type of H with
  | bind _ _ = Raise _ =>
      apply bind_raise in H; destruct H as [H|(? & _ & H)];
      [eapply date_pass_raise; [|exact H];
       first [exact era_date_repl|exact seireki_date_repl|exact abbr_date_repl]|]
  end.
  eapply date_pass_raise; [exact delim_date_repl|exact H].
Qed.

(** ** Full-width folding *)

Lemma FW_MAP_facts (c c' : char) :
  lookup char_eqb c FW_MAP = Some c' ->
  in_range c (0xFF10, 0xFF19)%N = true /\ is_ascii_digit c' = true
  /\ decimal_value c' = decimal_value c.
Proof.
  intros H; pattern c, c'.
  apply (@lookup_Forall _ _ char_eqb _ FW_MAP c c' char_eqb_true); [|exact H].
  unfold FW_MAP; table_facts.
Qed.

Lemma translate_map (s : str) : translate FW_MAP s = map fold_char s.
Proof. reflexivity. Qed.

Lemma translate_fixed (A : char -> bool) (s : str) :
  (forall c, A c = true -> in_range c (0xFF10, 0xFF19)%N = false) ->
  forallb A s = true -> translate FW_MAP s = s.
Proof.
  intros HA; induction s as [|c s IH]; [reflexivity|].
  cbn [forallb]; rewrite andb_true_iff; intros [Hc Hs].
  unfold translate in *; cbn [map]. rewrite (IH Hs). f_equal.
  destruct (lookup char_eqb c FW_MAP) as [c'|] eqn:E; [|reflexivity].
  apply FW_MAP_facts in E; destruct E as (E & _). rewrite (HA c Hc) in E.
  discriminate.
Qed.



Lemma fold_char_decimal_value (c : char) :
  decimal_value (fold_char c) = decimal_value c.
Proof.
  unfold fold_char.
  destruct (lookup char_eqb c FW_MAP) as [c'|] eqn:E; [|reflexivity].
  apply FW_MAP_facts in E; tauto.
Qed.

Lemma int_loop_translate (s : str) (acc : Z) :
  int_loop (translate FW_MAP s) acc = int_loop s acc.
Proof.
  rewrite translate_map. revert acc; induction s as [|c s IH]; intros acc;
    [reflexivity|].
  cbn [map int_loop]. rewrite fold_char_decimal_value.
  destruct (decimal_value c); [apply IH|reflexivity].
Qed.

Lemma int_translate (s : str) : int (translate FW_MAP s) = int s.
Proof.
  destruct s as [|c s]; [reflexivity|].
  unfold int. rewrite <- (int_loop_translate (c :: s)). reflexivity.
Qed.

(* ================================================================== *)
(** * Text without dates *)

Lemma in_tails (s pre t : str) : s = pre ++ t -> In t (tails s).
Proof.
  revert s; induction pre as [|c pre IH]; intros s ->.
  - destruct t; left; reflexivity.
  - cbn [app tails]. right. apply IH; reflexivity.
Qed.

Lemma matches_nowhere_spec (r : regex) (s : str) :
  matches_nowhere r s = true ->
  forall pre t, s = pre ++ t -> re_match r t = None.
Proof.
  unfold matches_nowhere; rewrite forallb_forall. intros H pre t Hs.
  specialize (H t (in_tails _ _ _ Hs)).
  destruct (re_match r t); [discriminate|reflexivity].
Qed.

Lemma dead_matches_nowhere (A : char -> bool) (r : regex) (s : str) :
  dead A r -> forallb A s = true -> matches_nowhere r s = true.
Proof.
  intros Hd; unfold matches_nowhere. induction s as [|c s IH]; intros Hs.
  - cbn [tails forallb]. unfold re_match.
    rewrite (@dead_no_match A r [] Hd Hs); reflexivity.
  - cbn [tails forallb]. unfold re_match at 1.
    rewrite (@dead_no_match A r (c :: s) Hd Hs). cbn [hd_error andb].
    apply IH. cbn [forallb] in Hs. apply andb_true_iff in Hs; tauto.
Qed.

Lemma sub_matches_nowhere (r : regex) (repl : list str -> result str)
      (s : str) :
  matches_nowhere r s = true -> sub r repl s = Ok s.
Proof. intros H; apply sub_no_match, matches_nowhere_spec, H. Qed.

Lemma replace_dates_unmatched (text : str) :
  unmatched text = true -> replace_dates text = Ok text.
Proof.
  unfold unmatched; rewrite !andb_true_iff; intros [[[H1 H2] H3] H4].
  unfold replace_dates.
  rewrite (sub_matches_nowhere _ era_repl _ H1); cbn [bind].
  rewrite (sub_matches_nowhere _ seireki_repl _ H2); cbn [bind].
  rewrite (sub_matches_nowhere _ abbr_repl _ H3); cbn [bind].
  apply sub_matches_nowhere, H4.
Qed.

(** ** Plain text *)

Lemma plain_not_nen (c : char) : plain c = true -> char_eqb c nen = false.
Proof.
  unfold plain; rewrite negb_true_iff, !orb_false_iff; tauto.
Qed.

Lemma plain_not_sep (c : char) : plain c = true -> is_sep c = false.
Proof.
  unfold plain; rewrite negb_true_iff, !orb_false_iff; tauto.
Qed.

Lemma plain_not_fullwidth (c : char) :
  plain c = true -> in_range c (0xFF10, 0xFF19)%N = false.
Proof.
  unfold plain; rewrite negb_true_iff, !orb_false_iff; tauto.
Qed.

Lemma dead_lit_nen (A : char -> bool) :
  A nen = false -> dead A (Lit [nen]).
Proof. intros H; cbn [dead existsb]. rewrite H; reflexivity. Qed.

Lemma era_dead (A : char -> bool) : A nen = false -> dead A era_pattern.
Proof.
  intros H; unfold era_pattern; cbn [dead].
  right; right; left. exact (dead_lit_nen A H).
Qed.

Lemma seireki_dead (A : char -> bool) : A nen = false -> dead A seireki_pattern.
Proof.
  intros H; unfold seireki_pattern; cbn [dead].
  right; left. exact (dead_lit_nen A H).
Qed.

Lemma abbr_dead_plain : dead plain abbr_pattern.
Proof.
  unfold abbr_pattern; cbn [dead]. right; right; left.
  intros c Hc. destruct (in_class _ c) eqn:E; [|reflexivity].
  pose proof (plain_not_nen _ Hc) as Hn. pose proof (plain_not_sep _ Hc) as Hs.
  unfold is_sep in Hs. apply orb_false_iff in Hs; destruct Hs as [Hs1 Hs2].
  unfold nen, full_stop, slash in *; class_cases E; congruence.
Qed.

Lemma delim_dead_plain : dead plain delim_pattern.
Proof.
  unfold delim_pattern; cbn [dead]. right; left.
  intros c Hc. destruct (in_class _ c) eqn:E; [|reflexivity].
  pose proof (plain_not_sep _ Hc) as Hs.
  unfold is_sep in Hs. apply orb_false_iff in Hs; destruct Hs as [Hs1 Hs2].
  unfold nen, full_stop, slash in *; class_cases E; congruence.
Qed.

Lemma plain_unmatched (s : str) : forallb plain s = true -> unmatched s = true.
Proof.
  intros H; unfold unmatched.
  rewrite (dead_matches_nowhere plain era_pattern s) by
    (try exact H; apply era_dead; reflexivity).
  rewrite (dead_matches_nowhere plain seireki_pattern s) by
    (try exact H; apply seireki_dead; reflexivity).
  rewrite (dead_matches_nowhere plain abbr_pattern s abbr_dead_plain H).
  rewrite (dead_matches_nowhere plain delim_pattern s delim_dead_plain H).
  reflexivity.
Qed.

(** Plain text is a fixed point of [normalize]. *)
Lemma normalize_plain (s : str) : forallb plain s = true -> normalize s = Ok s.
Proof.
  intros H; unfold normalize.
  rewrite (translate_fixed plain s plain_not_fullwidth H).
  apply replace_dates_unmatched, plain_unmatched, H.
Qed.

Lemma canonical_plain (c : char) : canonical_char c = true -> plain c = true.
Proof.
  unfold canonical_char, is_ascii_digit, plain, is_sep, in_range, char_eqb, hyphen.
  cbn [fst snd]. rewrite orb_true_iff, andb_true_iff, negb_true_iff.
  rewrite !orb_false_iff, andb_false_iff, !N.leb_le, N.eqb_eq, !N.eqb_neq.
  rewrite !N.leb_gt. unfold nen, full_stop, slash, char in *. lia.
Qed.

Lemma format_date_plain (y m d : Z) : forallb plain (format_date y m d) = true.
Proof.
  eapply forallb_impl; [exact canonical_plain|apply format_date_canonical].
Qed.

(* ================================================================== *)
(** * The date rewriter: main results *)




(** Whatever the input, the only exception [normalize] can raise is the
    [IllegalMonthError] of the end-of-month resolution. *)
Lemma normalize_raises_only_illegal_month (text : str) (e : exn) :
  normalize text = Raise e -> e = IllegalMonthError.
Proof. unfold normalize; apply replace_dates_raise. Qed.

(** C8.  A canonical date [YYYY-MM-DD] is matched by none of the four
    patterns, [normalize] returns it unchanged, and applying [normalize]
    to its own result gives that result again.  The same holds for every
    text made of plain characters, such as a sentence around canonical
    dates. *)
Theorem rewrite_idempotent_on_canonical :
  (forall y m d,
     unmatched (format_date y m d) = true
     /\ normalize (format_date y m d) = Ok (format_date y m d)
     /\ (x <- normalize (format_date y m d) ;; normalize x)
        = normalize (format_date y m d))
  /\ (forall x, forallb plain x = true ->
        normalize x = Ok x /\ (x' <- normalize x ;; normalize x') = normalize x).
Proof.
  assert (Hplain : forall x, forallb plain x = true ->
            normalize x = Ok x
            /\ (x' <- normalize x ;; normalize x') = normalize x).
  { intros x H. pose proof (normalize_plain x H) as Hn.
    split; [exact Hn|]. rewrite Hn; cbn [bind]; exact Hn. }
  split; [|exact Hplain].
  intros y m d. pose proof (format_date_plain y m d) as H.
  split; [apply plain_unmatched, H|apply Hplain, H].
Qed.

Lemma rewrite_idempotent_on_canonical_witness :
  forallb plain (py "see 2023-03-02") = true
  /\ normalize (py "see 2023-03-02") = Ok (py "see 2023-03-02").
Proof.
  split; [reflexivity|].
  exact (proj1 (proj2 rewrite_idempotent_on_canonical
                      (py "see 2023-03-02") eq_refl)).
Defined.

(** ** Delimiter-separated numeric dates *)






Lemma no_element_nil {A : Type} (l : list A) : (forall x, ~ In x l) -> l = [].
Proof.
  destruct l as [|x l]; [reflexivity|].
  intros H; exfalso; apply (H x); left; reflexivity.
Qed.








Lemma translate_length (s : str) : length (translate FW_MAP s) = length s.
Proof. apply length_map. Qed.




(** ** Era years *)

Lemma resolved_year_era (base n : Z) :
  base <> 0%Z -> resolved_year (Some base) n = (base + n - 1)%Z.
Proof.
  intros H; unfold resolved_year.
  destruct (base =? 0)%Z eqn:E; [apply Z.eqb_eq in E; contradiction|reflexivity].
Qed.

Lemma normalize_number_gan : normalize_number gan = Ok 1%Z.
Proof. reflexivity. Qed.

Lemma numeral_group_length (s : str) : numeral_group s -> 1 <= length s.
Proof. intros [H _]; destruct s; [contradiction|simpl; lia]. Qed.

Lemma numeral_group_safe (s : str) : numeral_group s -> digit_safe s.
Proof.
  intros [_ H]; eapply digit_safe_class; [exact kanji_num_chars_safe|exact H].
Qed.

Lemma re_match_numeral_group (s rest : str) (c : char) :
  numeral_group s -> in_class kanji_num_chars c = false ->
  re_match (Rep kanji_num_chars 1 None) (s ++ c :: rest) = Some (s, [], c :: rest).
Proof.
  intros Hs Hc. apply re_match_rep.
  - exact (proj2 Hs).
  - apply numeral_group_length, Hs.
  - discriminate.
  - right. cbn [starts_outside]. rewrite Hc; reflexivity.
Qed.

Lemma era_name_match (era rest : str) (base : Z) :
  lookup str_eqb era ERA_MAP = Some base ->
  re_match (alt_lits [py "明治"; py "大正"; py "昭和"; py "平成"; py "令和"])
           (era ++ rest)
  = Some (era, [], rest).
Proof.
  unfold ERA_MAP; cbn [lookup]; intros H.
  repeat match type of H with
  | (if str_eqb era ?k then _ else _) = _ =>
      destruct (str_eqb era k) eqn:E;
      [apply str_eqb_eq in E; subst era; reflexivity|clear E]
  end.
  discriminate H.
Qed.

(** A day group made of numerals and 日 is not the end-of-month token. *)
Lemma numeral_day_not_matsujitsu (dd : str) :
  numeral_group dd -> str_eqb (dd ++ [nichi]) matsujitsu = false.
Proof.
  intros [Hne Hall]. apply str_eqb_neq. intros E.
  destruct dd as [|c dd]; [contradiction|].
  cbn [app] in E. unfold matsujitsu in E. injection E as -> _.
  cbn [forallb] in Hall. vm_compute in Hall. discriminate Hall.
Qed.

Lemma numeral_day_match (dd rest : str) :
  numeral_group dd ->
  re_match (Alt (Lit matsujitsu)
                (Seq (Rep kanji_num_chars 1 None) (Lit [nichi])))
           (dd ++ nichi :: rest)
  = Some (dd ++ [nichi], [], rest).
Proof.
  intros Hdd. rewrite re_match_alt_r.
  - change (@nil str) with (@nil str ++ @nil str).
    eapply re_match_seq.
    + apply re_match_numeral_group; [exact Hdd|reflexivity].
    + exact (re_match_lit [nichi] rest).
  - destruct (matches (Lit matsujitsu) (dd ++ nichi :: rest))
      as [|[[m g] r] l] eqn:E; [reflexivity|exfalso].
    assert (Hin : In (m, g, r) (matches (Lit matsujitsu) (dd ++ nichi :: rest)))
      by (rewrite E; left; reflexivity).
    apply in_matches_lit in Hin. destruct Hin as (_ & _ & Hs).
    destruct Hdd as [Hne Hall]. destruct dd as [|c dd]; [contradiction|].
    unfold matsujitsu in Hs. cbn [app] in Hs. injection Hs as -> _.
    cbn [forallb] in Hall. vm_compute in Hall. discriminate Hall.
Qed.

(** An era name, a numeral year, 年, a numeral month, 月, a numeral day
    and 日: the whole of it is the match of the era-name pattern. *)
Lemma era_date_match (era y mth dd rest : str) (base : Z) :
  lookup str_eqb era ERA_MAP = Some base ->
  numeral_group y -> numeral_group mth -> numeral_group dd ->
  re_match era_pattern (era ++ y ++ nen :: mth ++ getsu :: dd ++ nichi :: rest)
  = Some (era ++ y ++ nen :: mth ++ getsu :: dd ++ [nichi],
          [era; y; mth; dd ++ [nichi]], rest).
Proof.
  intros Hera Hy Hm Hd. unfold era_pattern.
  change (era ++ y ++ nen :: mth ++ getsu :: dd ++ [nichi])
    with (era ++ (y ++ ([nen] ++ (mth ++ ([getsu] ++ (dd ++ [nichi])))))).
  change [era; y; mth; dd ++ [nichi]]
    with ([era] ++ ([y] ++ ([] ++ ([mth] ++ ([] ++ [dd ++ [nichi]]))))).
  eapply re_match_seq.
  { apply re_match_grp. exact (era_name_match era _ _ Hera). }
  eapply re_match_seq.
  { apply re_match_grp, re_match_numeral_group; [exact Hy|reflexivity]. }
  eapply re_match_seq.
  { exact (re_match_lit [nen] _). }
  eapply re_match_seq.
  { apply re_match_grp, re_match_numeral_group; [exact Hm|reflexivity]. }
  eapply re_match_seq.
  { exact (re_match_lit [getsu] _). }
  apply re_match_grp. exact (numeral_day_match dd rest Hd).
Qed.

Lemma era_base_nonzero (era : str) (base : Z) :
  lookup str_eqb era ERA_MAP = Some base ->
  era <> [] /\ base <> 0%Z /\ translate FW_MAP era = era.
Proof.
  intros H; pattern era, base.
  apply (@lookup_Forall _ _ str_eqb _ ERA_MAP era base); [| |exact H].
  - intros a b; apply str_eqb_eq.
  - unfold ERA_MAP; table_facts.
Qed.

(** ** Full-width folding and numerals *)

Lemma fold_char_fixed (c : char) :
  in_range c (0xFF10, 0xFF19)%N = false -> fold_char c = c.
Proof.
  intros H; unfold fold_char.
  destruct (lookup char_eqb c FW_MAP) as [c'|] eqn:E; [|reflexivity].
  apply FW_MAP_facts in E. destruct E as (E & _); congruence.
Qed.

Lemma fold_char_cases (c : char) :
  fold_char c = c
  \/ (isdecimal c = true /\ is_ascii_digit (fold_char c) = true).
Proof.
  unfold fold_char.
  destruct (lookup char_eqb c FW_MAP) as [c'|] eqn:E; [right|left; reflexivity].
  apply FW_MAP_facts in E. destruct E as (E1 & E2 & _).
  split; [apply fullwidth_decimal, E1|exact E2].
Qed.

Lemma fold_char_isdecimal (c : char) : isdecimal (fold_char c) = isdecimal c.
Proof. unfold isdecimal; rewrite fold_char_decimal_value; reflexivity. Qed.

Lemma fold_char_numeral_char (c : char) :
  numeral_char (fold_char c) = numeral_char c.
Proof.
  destruct (fold_char_cases c) as [->|[Hc Hf]]; [reflexivity|].
  rewrite (decimal_not_numeral_char _ Hc).
  apply decimal_not_numeral_char, ascii_digit_decimal, Hf.
Qed.

Lemma numeral_char_fold_fixed (c : char) :
  numeral_char c = true -> fold_char c = c.
Proof.
  intros H. destruct (fold_char_cases c) as [E|[Hc _]]; [exact E|].
  rewrite (decimal_not_numeral_char _ Hc) in H; discriminate.
Qed.

Lemma filter_numeral_translate (s : str) :
  filter numeral_char (translate FW_MAP s) = filter numeral_char s.
Proof.
  rewrite translate_map. induction s as [|c s IH]; [reflexivity|].
  cbn [map filter]. rewrite fold_char_numeral_char, IH.
  destruct (numeral_char c) eqn:E; [|reflexivity].
  rewrite (numeral_char_fold_fixed _ E); reflexivity.
Qed.

Lemma has_unit_translate (s : str) :
  has_unit (translate FW_MAP s) = has_unit s.
Proof.
  rewrite <- (has_unit_filter (translate FW_MAP s)), <- (has_unit_filter s).
  rewrite filter_numeral_translate; reflexivity.
Qed.

Lemma units_loop_translate (s : str) :
  units_loop (translate FW_MAP s) 0 [] = units_loop s 0 [].
Proof.
  rewrite <- (units_loop_filter (translate FW_MAP s) 0 []).
  rewrite <- (units_loop_filter s 0 []).
  rewrite filter_numeral_translate; reflexivity.
Qed.

Lemma ascii_digit_fold_fixed (a : char) :
  is_ascii_digit a = true -> fold_char a = a.
Proof.
  intros H; apply fold_char_fixed. revert H.
  unfold is_ascii_digit, in_range; cbn [fst snd].
  rewrite andb_true_iff, andb_false_iff, !N.leb_le, !N.leb_gt.
  unfold char in *; lia.
Qed.

Lemma digit_image_fold (c : char) :
  digit_image (fold_char c) = translate FW_MAP (digit_image c).
Proof.
  rewrite translate_map.
  destruct (fold_char_cases c) as [E|[Hc Hf]].
  - rewrite E. unfold digit_image.
    destruct (kanji_num c) as [v|] eqn:Ek.
    + destruct (kanji_num_facts _ _ Ek) as (_ & _ & _ & _ & _ & a & -> & _ & Ha).
      cbn [map]. rewrite (ascii_digit_fold_fixed _ Ha); reflexivity.
    + destruct (isdigit c); cbn [map]; [rewrite E|]; reflexivity.
  - rewrite (digit_image_decimal _ Hc).
    rewrite (digit_image_decimal _ (ascii_digit_decimal _ Hf)). reflexivity.
Qed.

Lemma digit_concat_translate (s : str) :
  digit_concat (translate FW_MAP s) = translate FW_MAP (digit_concat s).
Proof.
  rewrite (translate_map s). induction s as [|c s IH]; [reflexivity|].
  cbn [map digit_concat flat_map]. fold (digit_concat (map fold_char s)).
  fold (digit_concat s). rewrite IH, digit_image_fold.
  unfold translate; rewrite map_app; reflexivity.
Qed.

Lemma translate_nil_iff (s : str) : translate FW_MAP s = [] <-> s = [].
Proof. destruct s; split; intros H; try reflexivity; discriminate H. Qed.

Lemma kanji_to_int_translate (s : str) :
  kanji_to_int (translate FW_MAP s) = kanji_to_int s.
Proof.
  destruct (has_unit s) eqn:E.
  - rewrite (kanji_to_int_units s E).
    rewrite kanji_to_int_units by (rewrite has_unit_translate; exact E).
    rewrite units_loop_translate; reflexivity.
  - rewrite (kanji_to_int_digits s E).
    rewrite kanji_to_int_digits by (rewrite has_unit_translate; exact E).
    rewrite digit_concat_translate.
    destruct (digit_concat s) as [|d ds] eqn:Ed; [reflexivity|].
    rewrite <- (int_translate (d :: ds)).
    destruct (translate FW_MAP (d :: ds)) eqn:Et; [discriminate Et|reflexivity].
Qed.

Lemma forallb_isdecimal_translate (s : str) :
  forallb isdecimal (translate FW_MAP s) = forallb isdecimal s.
Proof.
  rewrite translate_map. induction s as [|c s IH]; [reflexivity|].
  cbn [map forallb]. rewrite fold_char_isdecimal, IH; reflexivity.
Qed.

Lemma str_eqb_gan_translate (s : str) :
  str_eqb (translate FW_MAP s) gan = str_eqb s gan.
Proof.
  destruct (str_eqb s gan) eqn:E.
  - apply str_eqb_eq in E; subst s; reflexivity.
  - apply str_eqb_neq. intros Ht. rewrite translate_map in Ht.
    destruct s as [|c [|c' s]]; try discriminate Ht.
    cbn [map] in Ht. unfold gan in Ht. injection Ht as Hc.
    destruct (fold_char_cases c) as [Ec|[_ Hf]].
    + rewrite Ec in Hc; subst c. discriminate E.
    + rewrite Hc in Hf; discriminate Hf.
Qed.

Lemma fullmatch_digits_cases (s : str) :
  (exists x, fullmatch re_digits s = Some x) \/ fullmatch re_digits s = None.
Proof. destruct (fullmatch re_digits s); eauto. Qed.

(** Folding the full-width digits of a numeral does not change its value. *)
Lemma normalize_number_translate (s : str) :
  normalize_number (translate FW_MAP s) = normalize_number s.
Proof.
  unfold normalize_number. rewrite str_eqb_gan_translate.
  destruct (str_eqb s gan); [reflexivity|].
  destruct (fullmatch_digits_cases s) as [Hs|Hs].
  - pose proof Hs as Hs'. apply fullmatch_digits_iff in Hs'.
    destruct Hs' as [Hne Hall].
    assert (Ht : exists x, fullmatch re_digits (translate FW_MAP s) = Some x).
    { apply fullmatch_digits_iff. split.
      - intros Hn; apply (proj1 (translate_nil_iff s)) in Hn; contradiction.
      - rewrite forallb_isdecimal_translate; exact Hall. }
    destruct Hs as [x ->], Ht as [x' ->]. apply int_translate.
  - rewrite Hs.
    destruct (fullmatch_digits_cases (translate FW_MAP s)) as [Ht|Ht].
    + exfalso. apply fullmatch_digits_iff in Ht. destruct Ht as [Hne Hall].
      rewrite forallb_isdecimal_translate in Hall.
      assert (Hx : exists x, fullmatch re_digits s = Some x).
      { apply fullmatch_digits_iff. split; [|exact Hall].
        intros ->; apply Hne; reflexivity. }
      destruct Hx as [x Hx]; congruence.
    + rewrite Ht. apply kanji_to_int_translate.
Qed.

Lemma fold_char_in_class_kanji (c : char) :
  in_class kanji_num_chars c = true ->
  in_class kanji_num_chars (fold_char c) = true.
Proof.
  intros H. destruct (fold_char_cases c) as [->|[_ Hf]]; [exact H|].
  apply ascii_digit_decimal in Hf.
  unfold in_class, kanji_num_chars; cbn [existsb item_match].
  rewrite Hf. rewrite orb_true_r; reflexivity.
Qed.

Lemma numeral_group_translate (s : str) :
  numeral_group s -> numeral_group (translate FW_MAP s).
Proof.
  intros [Hne Hall]; split.
  - intros Hn; apply (proj1 (translate_nil_iff s)) in Hn; contradiction.
  - rewrite translate_map. clear Hne.
    induction s as [|c s IH]; [reflexivity|].
    cbn [forallb] in Hall; apply andb_true_iff in Hall.
    destruct Hall as [Hc Hs]. cbn [map forallb].
    rewrite (fold_char_in_class_kanji _ Hc), (IH Hs); reflexivity.
Qed.

Lemma sub_era_nil : sub era_pattern era_repl [] = Ok [].
Proof. reflexivity. Qed.

(** Such a date, on its own, is rewritten by [replace_dates] as the date
    of year [base + year - 1]. *)
Lemma era_date_rewritten (era y mth dd : str) (base n mo day : Z) :
  lookup str_eqb era ERA_MAP = Some base ->
  numeral_group y -> numeral_group mth -> numeral_group dd ->
  normalize_number y = Ok n -> normalize_number mth = Ok mo ->
  normalize_number dd = Ok day ->
  replace_dates (era ++ y ++ nen :: mth ++ getsu :: dd ++ [nichi])
  = Ok (format_date (base + n - 1) mo day).
Proof.
  intros Hera Hy Hm Hd Hn Hmo Hday.
  pose proof (era_date_match era y mth dd [] base Hera Hy Hm Hd) as M.
  destruct (era_base_nonzero era base Hera) as (Hne & Hnz & _).
  assert (Hrepl : era_repl [era; y; mth; dd ++ [nichi]]
                  = Ok (format_date (base + n - 1) mo day)).
  { cbn [era_repl]. rewrite Hera.
    rewrite (make_repl_unfold y mth (dd ++ [nichi]) (Some base) n Hn), Hmo.
    cbn [bind]. rewrite (numeral_day_not_matsujitsu dd Hd), removelast_snoc, Hday.
    cbn [bind]. rewrite (resolved_year_era base n Hnz); reflexivity. }
  unfold replace_dates.
  destruct era as [|c era]; [contradiction|]. cbn [app] in M |- *.
  rewrite (sub_match_whole era_pattern era_repl c _ _ M).
  rewrite Hrepl, sub_era_nil. cbn [bind]. rewrite app_nil_r.
  pose proof (format_date_plain (base + n - 1) mo day) as Hp.
  pose proof (plain_unmatched _ Hp) as Hu.
  unfold unmatched in Hu. rewrite !andb_true_iff in Hu.
  destruct Hu as [[[_ H2] H3] H4].
  rewrite (sub_matches_nowhere _ seireki_repl _ H2); cbn [bind].
  rewrite (sub_matches_nowhere _ abbr_repl _ H3); cbn [bind].
  apply sub_matches_nowhere, H4.
Qed.

(** The same through [normalize]: folding full-width digits first changes
    neither the shape of the date nor the values of its numerals. *)
Lemma era_date_normalized (era y mth dd : str) (base n mo day : Z) :
  lookup str_eqb era ERA_MAP = Some base ->
  numeral_group y -> numeral_group mth -> numeral_group dd ->
  normalize_number y = Ok n -> normalize_number mth = Ok mo ->
  normalize_number dd = Ok day ->
  normalize (era ++ y ++ nen :: mth ++ getsu :: dd ++ [nichi])
  = Ok (format_date (base + n - 1) mo day).
Proof.
  intros Hera Hy Hm Hd Hn Hmo Hday.
  destruct (era_base_nonzero era base Hera) as (_ & _ & Hfix).
  unfold normalize, translate. rewrite !map_app. cbn [map].
  rewrite !map_app. cbn [map]. rewrite !map_app. cbn [map].
  fold (translate FW_MAP era) (translate FW_MAP y) (translate FW_MAP mth)
       (translate FW_MAP dd).
  rewrite Hfix.
  change (match lookup char_eqb nen FW_MAP with Some c' => c' | None => nen end)
    with nen.
  change (match lookup char_eqb getsu FW_MAP with Some c' => c' | None => getsu end)
    with getsu.
  change (match lookup char_eqb nichi FW_MAP with Some c' => c' | None => nichi end)
    with nichi.
  apply era_date_rewritten; try assumption;
    try (apply numeral_group_translate; assumption);
    rewrite normalize_number_translate; assumption.
Qed.

(** C4.  At every match of the era-name pattern the groups are an era
    name, a year, a month and a day; the year numeral converts without
    error, 元 to 1; and the replacement, when the end-of-month resolution
    does not fail, is the date formatted with the year
    [base + year - 1], [base] being the era's entry in [ERA_MAP].
    Conversely every text made of an era name, a numeral year, 年, a
    numeral month, 月, a numeral day and 日 is rewritten by [normalize]
    as the date of that year, of the month and of the day.  In
    particular 平成元年四月一日 becomes 1989-04-01 and 令和五年三月二日
    becomes 2023-03-02. *)
Theorem era_year_is_base_plus_offset :
  (forall s m g rest,
     re_match era_pattern s = Some (m, g, rest) ->
     exists era y mth d base n,
       g = [era; y; mth; d]
       /\ lookup str_eqb era ERA_MAP = Some base
       /\ normalize_number y = Ok n /\ (y = gan -> n = 1%Z)
       /\ ((exists mo dd,
              era_repl g = Ok (format_date (base + n - 1) mo dd))
           \/ (d = matsujitsu /\ era_repl g = Raise IllegalMonthError)))
  /\ (forall era y mth dd base n mo day,
        lookup str_eqb era ERA_MAP = Some base ->
        numeral_group y -> numeral_group mth -> numeral_group dd ->
        normalize_number y = Ok n -> normalize_number mth = Ok mo ->
        normalize_number dd = Ok day ->
        normalize (era ++ y ++ nen :: mth ++ getsu :: dd ++ [nichi])
        = Ok (format_date (base + n - 1) mo day))
  /\ normalize_number (py "元") = Ok 1%Z
  /\ normalize (py "平成元年四月一日") = Ok (py "1989-04-01")
  /\ normalize (py "令和五年三月二日") = Ok (py "2023-03-02").
Proof.
  split; [|split; [exact era_date_normalized
                  |repeat split; vm_compute; reflexivity]].
  intros s m g rest H. apply re_match_in in H.
  destruct (@era_pattern_groups _ _ _ _ H)
    as (era & y & mth & d & base & -> & Hb & Hnz & Hy & Hm & Hd).
  destruct (@make_repl_cases y mth d (Some base) Hy Hm Hd)
    as (n & Hn & _ & Hres).
  exists era, y, mth, d, base, n.
  split; [reflexivity|]. split; [exact Hb|]. split; [exact Hn|].
  split.
  - intros ->. rewrite normalize_number_gan in Hn. congruence.
  - cbn [era_repl]. rewrite Hb.
    rewrite (resolved_year_era base n Hnz) in Hres. exact Hres.
Qed.

Lemma era_year_is_base_plus_offset_witness :
  exists g rest,
    re_match era_pattern (py "平成元年四月一日") = Some (py "平成元年四月一日", g, rest)
    /\ exists era y mth d base n,
         g = [era; y; mth; d]
         /\ lookup str_eqb era ERA_MAP = Some base
         /\ normalize_number y = Ok n /\ (y = gan -> n = 1%Z)
         /\ ((exists mo dd,
                era_repl g = Ok (format_date (base + n - 1) mo dd))
             \/ (d = matsujitsu /\ era_repl g = Raise IllegalMonthError)).
Proof.
  eexists _, _. split; [vm_compute; reflexivity|].
  apply (proj1 era_year_is_base_plus_offset
               (py "平成元年四月一日") (py "平成元年四月一日") _ []).
  vm_compute; reflexivity.
Defined.

(** ** End of month *)

Lemma mod_zero_divide (a b : Z) : b <> 0%Z -> ((a mod b =? 0)%Z = true <-> (b | a)%Z).
Proof. intros Hb; rewrite Z.eqb_eq; apply Z.mod_divide; exact Hb. Qed.

Lemma isleap_gregorian (y : Z) : isleap y = true <-> gregorian_leap y.
Proof.
  unfold isleap, gregorian_leap.
  rewrite andb_true_iff, orb_true_iff, negb_true_iff.
  rewrite !mod_zero_divide by lia.
  rewrite <- (mod_zero_divide y 100) by lia.
  destruct (y mod 100 =? 0)%Z; intuition congruence.
Qed.

Lemma monthrange_last_day (year month : Z) :
  (1 <= month <= 12)%Z ->
  exists d, monthrange_ndays year month = Ok d /\ last_day year month d.
Proof.
  intros H.
  assert (Hm : (month = 1 \/ month = 2 \/ month = 3 \/ month = 4 \/ month = 5
                \/ month = 6 \/ month = 7 \/ month = 8 \/ month = 9
                \/ month = 10 \/ month = 11 \/ month = 12)%Z) by lia.
  clear H. unfold last_day.
  repeat (destruct Hm as [->|Hm];
          [try (eexists; split; [reflexivity|];
                cbn [In]; repeat split; intros; lia)|]);
    try (subst month; eexists; split; [reflexivity|];
         cbn [In]; repeat split; intros; lia).
  unfold monthrange_ndays. cbn [Z.leb Z.compare Pos.compare Pos.compare_cont andb].
  change (nth (Z.to_nat 2) mdays 0%Z) with 28%Z.
  change (2 =? February)%Z with true. cbn [andb].
  destruct (isleap year) eqn:E; eexists; (split; [reflexivity|]);
    cbn [In]; (split; [intros; lia|]); (split; [intros; lia|]);
    intros _; split; intros G; try reflexivity.
  - exfalso; apply G; apply isleap_gregorian; exact E.
  - apply isleap_gregorian in G; congruence.
Qed.

(** C5.  With the day token 末日, [_make_repl] emits the last day of the
    resolved year and month: 31 or 30 days by the month, and for February
    29 days exactly when the year is divisible by 4 and not by 100, or by
    400.  It does so whenever the resolved month is a month, 1 to 12.
    The three dated notations all pass 末日 on as the day token; in
    particular 二〇二四年二月末日 becomes 2024-02-29. *)
Theorem end_of_month_is_last_day :
  (forall era_year month era_base n mo,
     normalize_number era_year = Ok n -> normalize_number month = Ok mo ->
     (1 <= mo <= 12)%Z ->
     exists d,
       _make_repl era_year month matsujitsu era_base
       = Ok (format_date (resolved_year era_base n) mo d)
       /\ last_day (resolved_year era_base n) mo d)
  /\ (forall y, isleap y = true <-> gregorian_leap y)
  /\ normalize (py "二〇二四年二月末日") = Ok (py "2024-02-29")
  /\ normalize (py "二〇二三年二月末日") = Ok (py "2023-02-28")
  /\ normalize (py "一九〇〇年二月末日") = Ok (py "1900-02-28")
  /\ normalize (py "二〇〇〇年二月末日") = Ok (py "2000-02-29")
  /\ normalize (py "令和六年二月末日") = Ok (py "2024-02-29")
  /\ normalize (py "令和五年四月末日") = Ok (py "2023-04-30")
  /\ normalize (py "R6.2.末日") = Ok (py "2024-02-29").
Proof.
  split; [|split; [exact isleap_gregorian|repeat split; vm_compute; reflexivity]].
  intros era_year month era_base n mo Hn Hmo Hrange.
  destruct (monthrange_last_day (resolved_year era_base n) mo Hrange)
    as (d & Hd & Hlast).
  exists d; split; [|exact Hlast].
  rewrite (make_repl_unfold era_year month matsujitsu era_base n Hn), Hmo.
  cbn [bind]. rewrite str_eqb_refl, Hd. reflexivity.
Qed.

Lemma end_of_month_is_last_day_witness :
  normalize_number (py "二〇二四") = Ok 2024%Z
  /\ normalize_number (py "二") = Ok 2%Z
  /\ exists d,
       _make_repl (py "二〇二四") (py "二") matsujitsu None
       = Ok (format_date (resolved_year None 2024) 2 d)
       /\ last_day (resolved_year None 2024) 2 d.
Proof.
  split; [reflexivity|split; [reflexivity|]].
  apply (proj1 end_of_month_is_last_day (py "二〇二四") (py "二") None 2024%Z 2%Z);
    [reflexivity|reflexivity|split; discriminate].
Defined.

(** ** Abbreviated era-letter dates *)

(** C1 (failing input).  In the abbreviated notation the day group holds
    the digits only, and [_make_repl] still drops its last character:
    R5.3.2 becomes 2023-03-00, not 2023-03-02; a two-digit day keeps its
    first digit only.  Year and month are as the claim says. *)
Theorem abbr_day_loses_last_digit :
  normalize (py "R5.3.2") = Ok (py "2023-03-00")
  /\ normalize (py "R5.3.12") = Ok (py "2023-03-01")
  /\ normalize (py "H元/4/1") = Ok (py "1989-04-00")
  /\ normalize (py "R5年3月2日") = Ok (py "2023-03-00")
  /\ (forall era y mth c base n mo,
        lookup str_eqb era ERA_ABBR_MAP = Some base ->
        normalize_number y = Ok n -> normalize_number mth = Ok mo ->
        abbr_repl [era; y; mth; [c]] = Ok (format_date (base + n - 1) mo 0)).
Proof.
  do 4 (split; [vm_compute; reflexivity|]).
  intros era y mth c base n mo Hb Hn Hmo.
  cbn [abbr_repl]. rewrite Hb.
  rewrite (make_repl_unfold y mth [c] (Some base) n Hn), Hmo. cbn [bind].
  assert (Hnz : base <> 0%Z).
  { pattern era, base.
    apply (@lookup_Forall _ _ str_eqb _ ERA_ABBR_MAP era base); [| |exact Hb].
    - intros a b; apply str_eqb_eq.
    - unfold ERA_ABBR_MAP; table_facts. }
  rewrite (resolved_year_era base n Hnz).
  replace (str_eqb [c] matsujitsu) with false; [reflexivity|].
  symmetry; apply str_eqb_neq; discriminate.
Qed.

(* ================================================================== *)
(** * Further results on the numeral converter *)







Lemma kanji_to_int_nonneg (s : str) (n : Z) :
  kanji_to_int s = Ok n -> (0 <= n)%Z.
Proof.
  destruct (has_unit s) eqn:Eu.
  - rewrite (kanji_to_int_units s Eu). intros H; injection H as <-.
    apply units_loop_nonneg.
  - rewrite (kanji_to_int_digits s Eu).
    destruct (digit_concat s) as [|d ds]; [intros H; injection H as <-; lia|].
    apply int_nonneg.
Qed.

(** X2.  Whatever the string, an integer returned by [parse_small],
    [kanji_to_int] or [normalize_number] is not negative. *)
Theorem numeral_conversion_nonneg (s : str) :
  (0 <= parse_small s)%Z
  /\ (forall n, kanji_to_int s = Ok n -> (0 <= n)%Z)
  /\ (forall n, normalize_number s = Ok n -> (0 <= n)%Z).
Proof.
  split; [apply parse_small_nonneg|]. split; [apply kanji_to_int_nonneg|].
  intros n. unfold normalize_number.
  destruct (str_eqb s gan); [intros H; injection H as <-; lia|].
  destruct (fullmatch re_digits s); [apply int_nonneg|apply kanji_to_int_nonneg].
Qed.

Lemma numeral_conversion_nonneg_witness :
  normalize_number (py "三万二千一") = Ok 32001%Z /\ (0 <= 32001)%Z.
Proof.
  split; [reflexivity|].
  exact (proj2 (proj2 (numeral_conversion_nonneg (py "三万二千一")))
               32001%Z eq_refl).
Defined.

(** X3.  Folding the full-width digits of a string changes neither what
    [kanji_to_int] nor what [normalize_number] returns or raises: the
    converter reads full-width digits by itself. *)
Theorem numeral_conversion_fold_invariant (s : str) :
  kanji_to_int (translate FW_MAP s) = kanji_to_int s
  /\ normalize_number (translate FW_MAP s) = normalize_number s.
Proof.
  split; [apply kanji_to_int_translate|apply normalize_number_translate].
Qed.


(** ** Reading back a number written in kanji *)

Example kanji_of_ex1 : kanji_of false 32001 = py "三万二千一".
Proof. reflexivity. Qed.

Example kanji_of_ex2 : kanji_of true 120013010 = py "一億二千一万三千一十".
Proof. reflexivity. Qed.

Lemma digit_cases (d : Z) :
  (0 <= d <= 9)%Z ->
  (d = 0 \/ d = 1 \/ d = 2 \/ d = 3 \/ d = 4 \/ d = 5 \/ d = 6 \/ d = 7
   \/ d = 8 \/ d = 9)%Z.
Proof. lia. Qed.

Lemma kanji_digit_value (d : Z) :
  (0 <= d <= 9)%Z -> kanji_num (kanji_digit d) = Some d.
Proof.
  intros H; apply digit_cases in H.
  repeat (destruct H as [->|H]; [reflexivity|]). subst d; reflexivity.
Qed.

Lemma small_unit_values :
  unit_small sen = Some 1000%Z /\ unit_small hyaku = Some 100%Z
  /\ unit_small juu = Some 10%Z.
Proof. repeat split; reflexivity. Qed.

(** A term of a group, read from a state with no pending digit. *)
Lemma parse_small_loop_term (one : bool) (d : Z) (u : char) (uv : Z)
      (rest : str) (t : Z) :
  (0 <= d <= 9)%Z -> unit_small u = Some uv ->
  parse_small_loop (small_term one d (Some u) ++ rest) t 0
  = parse_small_loop rest (t + d * uv) 0.
Proof.
  intros Hd Hu. unfold small_term.
  destruct (unit_small_facts _ _ Hu) as (_ & Hk & _).
  destruct (d =? 0)%Z eqn:E0.
  - apply Z.eqb_eq in E0; subst d. cbn [app]. f_equal; lia.
  - apply Z.eqb_neq in E0.
    destruct ((d =? 1)%Z && negb one) eqn:E1.
    + apply andb_true_iff in E1. destruct E1 as [E1 _].
      apply Z.eqb_eq in E1; subst d.
      cbn [app parse_small_loop]. rewrite Hk, Hu. cbv zeta.
      rewrite Z.eqb_refl. reflexivity.
    + cbn [app parse_small_loop]. rewrite (kanji_digit_value d Hd).
      rewrite Hk, Hu. cbv zeta.
      destruct (d =? 0)%Z eqn:E; [apply Z.eqb_eq in E; contradiction|].
      reflexivity.
Qed.

Lemma parse_small_loop_last (one : bool) (d t : Z) :
  (0 <= d <= 9)%Z -> parse_small_loop (small_term one d None) t 0 = (t + d)%Z.
Proof.
  intros Hd. unfold small_term. destruct (d =? 0)%Z eqn:E0.
  - apply Z.eqb_eq in E0; subst d. reflexivity.
  - cbn [parse_small_loop]. rewrite (kanji_digit_value d Hd). reflexivity.
Qed.

Lemma four_digits (n : Z) :
  (0 <= n < 10000)%Z ->
  (0 <= n / 1000 <= 9 /\ 0 <= n / 100 mod 10 <= 9 /\ 0 <= n / 10 mod 10 <= 9
   /\ 0 <= n mod 10 <= 9
   /\ n = n / 1000 * 1000 + n / 100 mod 10 * 100 + n / 10 mod 10 * 10
          + n mod 10)%Z.
Proof. intros H. Z.to_euclidean_division_equations. lia. Qed.

(** [parse_small] reads a group back. *)
Lemma parse_small_small_kanji (one : bool) (n : Z) :
  (0 <= n < 10000)%Z -> parse_small (small_kanji one n) = n.
Proof.
  intros H. destruct (four_digits n H) as (H3 & H2 & H1 & H0 & Hn).
  destruct small_unit_values as (U3 & U2 & U1).
  unfold parse_small, small_kanji.
  rewrite (parse_small_loop_term one _ sen 1000 _ 0 H3 U3).
  rewrite (parse_small_loop_term one _ hyaku 100 _ _ H2 U2).
  rewrite (parse_small_loop_term one _ juu 10 _ _ H1 U1).
  rewrite (parse_small_loop_last one _ _ H0). lia.
Qed.

Lemma small_numeral_char_not_large (c : char) :
  small_numeral_char c = true -> is_large c = false.
Proof.
  unfold small_numeral_char, is_large.
  destruct (kanji_num c) as [v|] eqn:Ek.
  - intros _. destruct (kanji_num_facts _ _ Ek) as (_ & _ & -> & _). reflexivity.
  - destruct (unit_small c) as [v|] eqn:Es; [|discriminate].
    intros _. destruct (unit_small_facts _ _ Es) as (_ & _ & -> & _). reflexivity.
Qed.

Lemma small_term_chars (one : bool) (d : Z) (u : option char) :
  (0 <= d <= 9)%Z ->
  match u with Some uc => small_numeral_char uc = true | None => True end ->
  forallb small_numeral_char (small_term one d u) = true.
Proof.
  intros Hd Hu. unfold small_term.
  destruct (d =? 0)%Z; [reflexivity|].
  assert (Hk : small_numeral_char (kanji_digit d) = true)
    by (unfold small_numeral_char; rewrite (kanji_digit_value d Hd); reflexivity).
  destruct u as [uc|]; [|cbn [forallb]; rewrite Hk; reflexivity].
  destruct ((d =? 1)%Z && negb one); cbn [forallb]; rewrite ?Hk, Hu; reflexivity.
Qed.

Lemma small_kanji_chars (one : bool) (n : Z) :
  (0 <= n < 10000)%Z -> forallb small_numeral_char (small_kanji one n) = true.
Proof.
  intros H. destruct (four_digits n H) as (H3 & H2 & H1 & H0 & _).
  unfold small_kanji.
  repeat apply forallb_app_true; apply small_term_chars; auto; reflexivity.
Qed.

Lemma small_chars_no_large (p : str) :
  forallb small_numeral_char p = true -> has_large p = false.
Proof.
  induction p as [|c p IH]; [reflexivity|].
  cbn [forallb]; rewrite andb_true_iff; intros [Hc Hp].
  cbn [has_large existsb]. rewrite (small_numeral_char_not_large c Hc).
  apply IH, Hp.
Qed.

Lemma units_loop_no_large (p : str) (t : Z) (current : str) :
  has_large p = false ->
  units_loop p t current = (t + parse_small (current ++ p))%Z.
Proof.
  revert current; induction p as [|c p IH]; intros current H.
  - cbn [units_loop]. rewrite app_nil_r; reflexivity.
  - cbn [has_large existsb] in H. apply orb_false_iff in H.
    destruct H as [Hc Hp]. unfold is_large in Hc. cbn [units_loop].
    destruct (unit_large c); [discriminate|].
    rewrite (IH (current ++ [c]) Hp), <- app_assoc; reflexivity.
Qed.

Lemma units_loop_segment (p : str) (u : char) (v : Z) (rest : str) (t : Z)
      (current : str) :
  has_large p = false -> unit_large u = Some v ->
  units_loop (p ++ u :: rest) t current
  = units_loop rest (t + one_if_zero (parse_small (current ++ p)) * v) [].
Proof.
  revert current; induction p as [|c p IH]; intros current H Hu.
  - cbn [app units_loop]. rewrite Hu, app_nil_r. reflexivity.
  - cbn [has_large existsb] in H. apply orb_false_iff in H.
    destruct H as [Hc Hp]. unfold is_large in Hc. cbn [app units_loop].
    destruct (unit_large c); [discriminate|].
    rewrite (IH (current ++ [c]) Hp Hu), <- app_assoc; reflexivity.
Qed.

Lemma large_unit_values :
  unit_large chou = Some (10 ^ 12)%Z /\ unit_large oku = Some (10 ^ 8)%Z
  /\ unit_large man = Some (10 ^ 4)%Z.
Proof. repeat split; reflexivity. Qed.

Lemma units_loop_large_term (one : bool) (g : Z) (u : char) (v : Z)
      (rest : str) (t : Z) :
  (0 <= g < 10000)%Z -> unit_large u = Some v ->
  units_loop (large_term one g u ++ rest) t []
  = units_loop rest (t + g * v) [].
Proof.
  intros Hg Hu. unfold large_term. destruct (g =? 0)%Z eqn:E.
  - apply Z.eqb_eq in E; subst g. cbn [app]. f_equal; lia.
  - apply Z.eqb_neq in E. rewrite <- app_assoc. cbn [app].
    rewrite (units_loop_segment (small_kanji one g) u v rest t []
               (small_chars_no_large _ (small_kanji_chars one g Hg)) Hu).
    cbn [app]. rewrite (parse_small_small_kanji one g Hg).
    unfold one_if_zero. destruct (g =? 0)%Z eqn:E'; [|reflexivity].
    apply Z.eqb_eq in E'; contradiction.
Qed.

Lemma four_groups (n : Z) :
  (0 <= n < 10 ^ 16)%Z ->
  (0 <= n / 10 ^ 12 < 10000 /\ 0 <= n / 10 ^ 8 mod 10 ^ 4 < 10000
   /\ 0 <= n / 10 ^ 4 mod 10 ^ 4 < 10000 /\ 0 <= n mod 10 ^ 4 < 10000
   /\ n = n / 10 ^ 12 * 10 ^ 12 + n / 10 ^ 8 mod 10 ^ 4 * 10 ^ 8
          + n / 10 ^ 4 mod 10 ^ 4 * 10 ^ 4 + n mod 10 ^ 4)%Z.
Proof.
  change (10 ^ 16)%Z with 10000000000000000%Z.
  change (10 ^ 12)%Z with 1000000000000%Z.
  change (10 ^ 8)%Z with 100000000%Z. change (10 ^ 4)%Z with 10000%Z.
  intros H. Z.to_euclidean_division_equations. lia.
Qed.

(** The magnitude arithmetic reads the whole numeral back. *)
Lemma units_loop_kanji_of (one : bool) (n : Z) :
  (0 <= n < 10 ^ 16)%Z -> units_loop (kanji_of one n) 0 [] = n.
Proof.
  intros H. destruct (four_groups n H) as (G3 & G2 & G1 & G0 & Hn).
  destruct large_unit_values as (U3 & U2 & U1).
  unfold kanji_of.
  rewrite (units_loop_large_term one _ chou _ _ 0 G3 U3).
  rewrite (units_loop_large_term one _ oku _ _ _ G2 U2).
  rewrite (units_loop_large_term one _ man _ _ _ G1 U1).
  rewrite (units_loop_no_large _ _ []
             (small_chars_no_large _ (small_kanji_chars one _ G0))).
  cbn [app]. rewrite (parse_small_small_kanji one _ G0). lia.
Qed.

Lemma small_term_no_unit (one : bool) (d : Z) (u : char) :
  is_unit u = true -> has_unit (small_term one d (Some u)) = false -> d = 0%Z.
Proof.
  intros Hu. unfold small_term. destruct (d =? 0)%Z eqn:E.
  - intros _; apply Z.eqb_eq, E.
  - destruct ((d =? 1)%Z && negb one); cbn [has_unit existsb];
      rewrite Hu, ?orb_true_r; discriminate.
Qed.

Lemma large_term_no_unit (one : bool) (g : Z) (u : char) :
  is_unit u = true -> has_unit (large_term one g u) = false -> g = 0%Z.
Proof.
  intros Hu. unfold large_term. destruct (g =? 0)%Z eqn:E.
  - intros _; apply Z.eqb_eq, E.
  - unfold has_unit. rewrite existsb_app. cbn [existsb].
    rewrite Hu, orb_true_r; discriminate.
Qed.

Lemma has_unit_app (a b : str) : has_unit (a ++ b) = has_unit a || has_unit b.
Proof. apply existsb_app. Qed.

Lemma last_digit_read (one : bool) (d : Z) :
  (0 <= d <= 9)%Z ->
  kanji_to_int (small_term one d None) = Ok d
  /\ normalize_number (small_term one d None) = Ok d.
Proof.
  intros H; apply digit_cases in H.
  repeat (destruct H as [->|H]; [split; reflexivity|]).
  subst d; split; reflexivity.
Qed.

(** Without a unit character the numeral is a single digit or empty. *)
Lemma kanji_of_no_unit (one : bool) (n : Z) :
  (0 <= n < 10 ^ 16)%Z -> has_unit (kanji_of one n) = false ->
  (0 <= n <= 9)%Z /\ kanji_of one n = small_term one n None.
Proof.
  intros H Hu. destruct (four_groups n H) as (G3 & G2 & G1 & G0 & Hn).
  destruct (four_digits _ G0) as (D3 & D2 & D1 & D0 & Hd).
  unfold kanji_of, small_kanji in Hu |- *.
  rewrite !has_unit_app, !orb_false_iff in Hu.
  destruct Hu as (L3 & L2 & L1 & S3 & S2 & S1 & _).
  apply large_term_no_unit in L3; [|reflexivity].
  apply large_term_no_unit in L2; [|reflexivity].
  apply large_term_no_unit in L1; [|reflexivity].
  apply small_term_no_unit in S3; [|reflexivity].
  apply small_term_no_unit in S2; [|reflexivity].
  apply small_term_no_unit in S1; [|reflexivity].
  assert (Hn0 : n = ((n mod 10 ^ 4) mod 10)%Z) by lia.
  rewrite L3, L2, L1, S3, S2, S1.
  change (large_term one 0 chou) with (@nil char).
  change (large_term one 0 oku) with (@nil char).
  change (large_term one 0 man) with (@nil char).
  change (small_term one 0 (Some sen)) with (@nil char).
  change (small_term one 0 (Some hyaku)) with (@nil char).
  change (small_term one 0 (Some juu)) with (@nil char).
  cbn [app]. rewrite <- Hn0. split; [lia|reflexivity].
Qed.

(** X4.  Every number below 10^16, written in kanji in the usual way
    (groups of four digits with 兆, 億, 万; digits with 千, 百, 十; zeros left
    out; 一 before a small unit written or not), is read back by
    [kanji_to_int] and by [normalize_number] as that number. *)
Theorem kanji_numeral_read_back (one : bool) (n : Z) :
  (0 <= n < 10 ^ 16)%Z ->
  kanji_to_int (kanji_of one n) = Ok n
  /\ normalize_number (kanji_of one n) = Ok n.
Proof.
  intros H. destruct (has_unit (kanji_of one n)) eqn:Eu.
  - rewrite (kanji_to_int_units _ Eu), (normalize_number_units _ Eu).
    rewrite (units_loop_kanji_of one n H). split; reflexivity.
  - destruct (kanji_of_no_unit one n H Eu) as [Hd ->].
    apply last_digit_read, Hd.
Qed.

Lemma kanji_numeral_read_back_witness :
  (0 <= 120013010 < 10 ^ 16)%Z
  /\ normalize_number (py "一億二千一万三千一十") = Ok 120013010%Z.
Proof.
  split; [split; [discriminate|reflexivity]|].
  apply (kanji_numeral_read_back true 120013010).
  split; [discriminate|reflexivity].
Defined.

(* ================================================================== *)
(** * Further results on the date rewriter *)



(** ** Where the characters of the output come from *)

Lemma sub_loop_keeps (Q : char -> bool) (r : regex)
      (repl : list str -> result str) :
  (forall t m g rest out, re_match r t = Some (m, g, rest) ->
     repl g = Ok out -> forallb Q out = true) ->
  forall s skip out, forallb Q s = true ->
    sub_loop r repl skip s = Ok out -> forallb Q out = true.
Proof.
  intros Hrepl; induction s as [|c s IH]; intros skip out Hs.
  - destruct skip; [|intros H; injection H as <-; reflexivity].
    cbn [sub_loop].
    destruct (re_match r []) as [[[m g] rest]|] eqn:E;
      [|intros H; injection H as <-; reflexivity].
    destruct (repl g) as [o|e] eqn:Er; cbn [bind]; [|discriminate].
    intros H; injection H as <-. eapply Hrepl; eassumption.
  - cbn [forallb] in Hs; apply andb_true_iff in Hs; destruct Hs as [Hc Hs].
    destruct skip as [|k]; [|apply IH, Hs]. cbn [sub_loop].
    destruct (re_match r (c :: s)) as [[[m g] rest]|] eqn:E.
    + destruct (repl g) as [o|e] eqn:Er; cbn [bind]; [|discriminate].
      pose proof (Hrepl _ _ _ _ _ E Er) as Ho.
      destruct (length m) as [|k].
      * destruct (sub_loop r repl 0 s) as [o'|e] eqn:Es; cbn [bind];
          [|discriminate].
        intros H; injection H as <-. apply forallb_app_true; [exact Ho|].
        cbn [forallb]. rewrite Hc. exact (IH 0 o' Hs Es).
      * destruct (sub_loop r repl k s) as [o'|e] eqn:Es; cbn [bind];
          [|discriminate].
        intros H; injection H as <-. apply forallb_app_true; [exact Ho|].
        exact (IH k o' Hs Es).
    + destruct (sub_loop r repl 0 s) as [o'|e] eqn:Es; cbn [bind];
        [|discriminate].
      intros H; injection H as <-. cbn [forallb]. rewrite Hc.
      exact (IH 0 o' Hs Es).
Qed.

Lemma date_pass_keeps (text : str) (r : regex)
      (repl : list str -> result str) (s out : str) :
  date_repl r repl -> forallb (from_text text) s = true ->
  sub r repl s = Ok out -> forallb (from_text text) out = true.
Proof.
  intros Hr Hs. unfold sub. apply sub_loop_keeps; [|exact Hs].
  intros t m g rest o Hm Ho.
  destruct (Hr _ _ _ _ Hm) as [(a & b & c & H)|[H _]]; [|congruence].
  rewrite H in Ho. injection Ho as <-.
  eapply forallb_impl; [|apply format_date_canonical].
  intros x Hx; unfold from_text; rewrite Hx; reflexivity.
Qed.

Lemma from_text_self (text : str) : forallb (from_text text) text = true.
Proof.
  apply forallb_forall; intros c Hc. unfold from_text.
  replace (existsb (char_eqb c) text) with true; [apply orb_true_r|].
  symmetry; apply existsb_exists. exists c; split; [exact Hc|apply char_eqb_refl].
Qed.

Lemma replace_dates_keeps (text out : str) :
  replace_dates text = Ok out -> forallb (from_text text) out = true.
Proof.
  unfold replace_dates; intros H.
  apply bind_ok in H; destruct H as (t1 & H1 & H).
  apply bind_ok in H; destruct H as (t2 & H2 & H).
  apply bind_ok in H; destruct H as (t3 & H3 & H4).
  pose proof (date_pass_keeps text _ _ _ _ era_date_repl (from_text_self text) H1) as K1.
  pose proof (date_pass_keeps text _ _ _ _ seireki_date_repl K1 H2) as K2.
  pose proof (date_pass_keeps text _ _ _ _ abbr_date_repl K2 H3) as K3.
  exact (date_pass_keeps text _ _ _ _ delim_date_repl K3 H4).
Qed.

(** X6.  The rewriter invents no text: every character of what
    [replace_dates] returns is an ASCII digit, a hyphen or a character of
    the input, and every character of what [normalize] returns is an
    ASCII digit, a hyphen or a character of the folded input. *)
Theorem rewrite_output_characters (text out : str) :
  (replace_dates text = Ok out ->
   forall c, In c out -> canonical_char c = true \/ In c text)
  /\ (normalize text = Ok out ->
      forall c, In c out ->
        canonical_char c = true \/ In c (translate FW_MAP text)).
Proof.
  assert (K : forall t o, replace_dates t = Ok o ->
              forall c, In c o -> canonical_char c = true \/ In c t).
  { intros t o H c Hc. pose proof (replace_dates_keeps t o H) as Hk.
    rewrite forallb_forall in Hk. specialize (Hk c Hc).
    unfold from_text in Hk. apply orb_true_iff in Hk.
    destruct Hk as [Hk|Hk]; [left; exact Hk|right].
    apply existsb_exists in Hk. destruct Hk as (x & Hx & E).
    apply char_eqb_eq in E; subst x; exact Hx. }
  split; [apply K|unfold normalize; apply K].
Qed.

Lemma rewrite_output_characters_witness :
  normalize (py "令和五年三月二日に") = Ok (py "2023-03-02に")
  /\ forall c, In c (py "2023-03-02に") ->
       canonical_char c = true
       \/ In c (translate FW_MAP (py "令和五年三月二日に")).
Proof.
  split; [vm_compute; reflexivity|].
  apply (proj2 (rewrite_output_characters (py "令和五年三月二日に")
                                          (py "2023-03-02に"))).
  vm_compute; reflexivity.
Defined.

(** ** Full-width folding *)

Lemma fold_char_not_fullwidth (c : char) :
  is_fullwidth_digit (fold_char c) = false.
Proof.
  unfold fold_char.
  destruct (lookup char_eqb c FW_MAP) as [c'|] eqn:E.
  - apply FW_MAP_facts in E. destruct E as (_ & E & _). revert E.
    unfold is_ascii_digit, is_fullwidth_digit, in_range; cbn [fst snd].
    rewrite andb_true_iff, andb_false_iff, !N.leb_le, !N.leb_gt.
    unfold char in *; lia.
  - destruct (is_fullwidth_digit c) eqn:Ef; [exfalso|reflexivity].
    revert E. unfold is_fullwidth_digit, in_range in Ef; cbn [fst snd] in Ef.
    apply andb_true_iff in Ef. rewrite !N.leb_le in Ef. destruct Ef as [H1 H2].
    unfold char in *.
    assert (H : (c = 0xFF10 \/ c = 0xFF11 \/ c = 0xFF12 \/ c = 0xFF13
                 \/ c = 0xFF14 \/ c = 0xFF15 \/ c = 0xFF16 \/ c = 0xFF17
                 \/ c = 0xFF18 \/ c = 0xFF19)%N) by lia.
    repeat (destruct H as [->|H]; [discriminate|]). subst c; discriminate.
Qed.

(** X7.  The full-width folding of [normalize] keeps the length of the
    text and every character that is no full-width digit, turns each
    full-width digit into the ASCII digit of the same value, leaves no
    full-width digit behind, and folding twice is folding once. *)
Theorem fullwidth_folding (text : str) :
  length (translate FW_MAP text) = length text
  /\ (forall i c, nth_error text i = Some c ->
        nth_error (translate FW_MAP text) i = Some (fold_char c)
        /\ (is_fullwidth_digit c = false -> fold_char c = c)
        /\ (is_fullwidth_digit c = true ->
            is_ascii_digit (fold_char c) = true
            /\ decimal_value (fold_char c) = decimal_value c))
  /\ forallb (fun c => negb (is_fullwidth_digit c)) (translate FW_MAP text) = true
  /\ translate FW_MAP (translate FW_MAP text) = translate FW_MAP text.
Proof.
  split; [apply translate_length|]. split; [|split].
  - intros i c Hi. split; [|split].
    + rewrite translate_map. apply map_nth_error, Hi.
    + apply fold_char_fixed.
    + intros Hf. split; [|apply fold_char_decimal_value].
      destruct (fold_char_cases c) as [E|[_ E]]; [|exact E].
      pose proof (fold_char_not_fullwidth c) as Hn. rewrite E in Hn. congruence.
  - rewrite translate_map. induction text as [|c t IH]; [reflexivity|].
    cbn [map forallb]. rewrite fold_char_not_fullwidth, IH; reflexivity.
  - rewrite !translate_map, map_map. apply map_ext.
    intros c. apply fold_char_fixed, fold_char_not_fullwidth.
Qed.

Lemma fullwidth_folding_witness :
  nth_error (py "２０２３/３/２") 3 = Some (ch "３")
  /\ nth_error (translate FW_MAP (py "２０２３/３/２")) 3 = Some (ch "3").
Proof.
  split; [reflexivity|].
  exact (proj1 (proj1 (proj2 (fullwidth_folding (py "２０２３/３/２")))
                      3 (ch "３") eq_refl)).
Defined.

(** ** Gregorian dates in kanji *)

Lemma era_dead_seireki_char : dead seireki_char era_pattern.
Proof.
  unfold era_pattern; cbn [dead]. left.
  repeat split; vm_compute; reflexivity.
Qed.

Lemma fold_char_in_class_year (c : char) :
  in_class seireki_year_chars c = true ->
  in_class seireki_year_chars (fold_char c) = true.
Proof.
  intros H. destruct (fold_char_cases c) as [->|[_ Hf]]; [exact H|].
  apply ascii_digit_decimal in Hf.
  unfold in_class, seireki_year_chars; cbn [existsb item_match].
  rewrite Hf. rewrite !orb_true_r; reflexivity.
Qed.

Lemma year_group_translate (s : str) :
  year_group s -> year_group (translate FW_MAP s).
Proof.
  intros [Hl Hall]; split; [rewrite translate_length; exact Hl|].
  rewrite translate_map. clear Hl.
  induction s as [|c s IH]; [reflexivity|].
  cbn [forallb] in Hall; apply andb_true_iff in Hall.
  destruct Hall as [Hc Hs]. cbn [map forallb].
  rewrite (fold_char_in_class_year _ Hc), (IH Hs); reflexivity.
Qed.

Lemma year_group_seireki_chars (s : str) :
  year_group s -> forallb seireki_char s = true.
Proof.
  intros [_ H]. eapply forallb_impl; [|exact H].
  intros c Hc; unfold seireki_char; rewrite Hc; reflexivity.
Qed.

Lemma numeral_group_seireki_chars (s : str) :
  numeral_group s -> forallb seireki_char s = true.
Proof.
  intros [_ H]. eapply forallb_impl; [|exact H].
  intros c Hc; unfold seireki_char; rewrite Hc, !orb_true_r; reflexivity.
Qed.

(** A numeral year, 年, a numeral month, 月, a numeral day and 日: the
    whole of it is the match of the Gregorian pattern. *)
Lemma seireki_date_match (y mth dd rest : str) :
  year_group y -> numeral_group mth -> numeral_group dd ->
  re_match seireki_pattern (y ++ nen :: mth ++ getsu :: dd ++ nichi :: rest)
  = Some (y ++ nen :: mth ++ getsu :: dd ++ [nichi],
          [y; mth; dd ++ [nichi]], rest).
Proof.
  intros [Hl Hy] Hm Hd. unfold seireki_pattern.
  change (y ++ nen :: mth ++ getsu :: dd ++ [nichi])
    with (y ++ ([nen] ++ (mth ++ ([getsu] ++ (dd ++ [nichi]))))).
  change [y; mth; dd ++ [nichi]]
    with ([y] ++ ([] ++ ([mth] ++ ([] ++ [dd ++ [nichi]])))).
  eapply re_match_seq.
  { apply re_match_grp, re_match_rep; [exact Hy|lia| |right; reflexivity].
    intros h Hh; injection Hh as <-; lia. }
  eapply re_match_seq.
  { exact (re_match_lit [nen] _). }
  eapply re_match_seq.
  { apply re_match_grp, re_match_numeral_group; [exact Hm|reflexivity]. }
  eapply re_match_seq.
  { exact (re_match_lit [getsu] _). }
  apply re_match_grp. exact (numeral_day_match dd rest Hd).
Qed.

Lemma sub_seireki_nil : sub seireki_pattern seireki_repl [] = Ok [].
Proof. reflexivity. Qed.

Lemma year_group_safe (s : str) : year_group s -> digit_safe s.
Proof.
  intros [_ H]; eapply digit_safe_class; [exact seireki_year_chars_safe|exact H].
Qed.

Lemma seireki_date_rewritten (y mth dd : str) (n mo day : Z) :
  year_group y -> numeral_group mth -> numeral_group dd ->
  normalize_number y = Ok n -> normalize_number mth = Ok mo ->
  normalize_number dd = Ok day ->
  replace_dates (y ++ nen :: mth ++ getsu :: dd ++ [nichi])
  = Ok (format_date n mo day).
Proof.
  intros Hy Hm Hd Hn Hmo Hday.
  pose proof (seireki_date_match y mth dd [] Hy Hm Hd) as M.
  assert (Hrepl : seireki_repl [y; mth; dd ++ [nichi]]
                  = Ok (format_date n mo day)).
  { cbn [seireki_repl].
    rewrite (make_repl_unfold y mth (dd ++ [nichi]) None n Hn), Hmo.
    cbn [bind]. rewrite (numeral_day_not_matsujitsu dd Hd), removelast_snoc, Hday.
    reflexivity. }
  assert (HA : forallb seireki_char (y ++ nen :: mth ++ getsu :: dd ++ [nichi])
               = true).
  { apply forallb_app_true; [apply year_group_seireki_chars, Hy|].
    cbn [forallb]. apply andb_true_iff; split; [reflexivity|].
    apply forallb_app_true; [apply numeral_group_seireki_chars, Hm|].
    cbn [forallb]. apply andb_true_iff; split; [reflexivity|].
    apply forallb_app_true; [apply numeral_group_seireki_chars, Hd|reflexivity]. }
  unfold replace_dates.
  rewrite (sub_dead seireki_char era_pattern era_repl _ era_dead_seireki_char HA).
  cbn [bind].
  destruct Hy as [Hl Hy]. destruct y as [|c y]; [simpl in Hl; lia|].
  cbn [app] in M |- *.
  rewrite (sub_match_whole seireki_pattern seireki_repl c _ _ M).
  rewrite Hrepl, sub_seireki_nil. cbn [bind]. rewrite app_nil_r.
  pose proof (format_date_plain n mo day) as Hp.
  pose proof (plain_unmatched _ Hp) as Hu.
  unfold unmatched in Hu. rewrite !andb_true_iff in Hu.
  destruct Hu as [[[_ _] H3] H4].
  rewrite (sub_matches_nowhere _ abbr_repl _ H3); cbn [bind].
  apply sub_matches_nowhere, H4.
Qed.

(** X8.  A text made of a year of two to four digits, kanji digits or
    small units, 年, a numeral month, 月, a numeral day and 日 is rewritten
    by [normalize] as the date of these three numbers, the year taken as
    it is read, without era offset. *)
Theorem gregorian_kanji_date_rewritten (y mth dd : str) (n mo day : Z) :
  year_group y -> numeral_group mth -> numeral_group dd ->
  normalize_number y = Ok n -> normalize_number mth = Ok mo ->
  normalize_number dd = Ok day ->
  normalize (y ++ nen :: mth ++ getsu :: dd ++ [nichi])
  = Ok (format_date n mo day).
Proof.
  intros Hy Hm Hd Hn Hmo Hday.
  unfold normalize, translate. rewrite !map_app. cbn [map].
  rewrite !map_app. cbn [map]. rewrite !map_app. cbn [map].
  fold (translate FW_MAP y) (translate FW_MAP mth) (translate FW_MAP dd).
  change (match lookup char_eqb nen FW_MAP with Some c' => c' | None => nen end)
    with nen.
  change (match lookup char_eqb getsu FW_MAP with Some c' => c' | None => getsu end)
    with getsu.
  change (match lookup char_eqb nichi FW_MAP with Some c' => c' | None => nichi end)
    with nichi.
  apply seireki_date_rewritten;
    try (apply year_group_translate; assumption);
    try (apply numeral_group_translate; assumption);
    rewrite normalize_number_translate; assumption.
Qed.

Lemma gregorian_kanji_date_rewritten_witness :
  year_group (py "二〇二三") /\ numeral_group (py "十二")
  /\ numeral_group (py "３１")
  /\ normalize (py "二〇二三" ++ nen :: py "十二" ++ getsu :: py "３１" ++ [nichi])
     = Ok (format_date 2023 12 31).
Proof.
  assert (Hy : year_group (py "二〇二三"))
    by (split; [simpl; repeat constructor|reflexivity]).
  assert (Hm : numeral_group (py "十二")) by (split; [discriminate|reflexivity]).
  assert (Hd : numeral_group (py "３１")) by (split; [discriminate|reflexivity]).
  split; [exact Hy|]. split; [exact Hm|]. split; [exact Hd|].
  apply (gregorian_kanji_date_rewritten _ _ _ 2023 12 31 Hy Hm Hd);
    reflexivity.
Defined.

(** ** A year of more than four characters *)

Lemma year_char_not_nen (c : char) :
  in_class seireki_year_chars c = true -> c <> nen.
Proof. intros H ->; vm_compute in H; discriminate. Qed.

(** When a string that starts with characters of the year class is cut
    as [x ++ 年 :: _], the cut [x] is longer than the run of year
    characters. *)
Lemma year_run_cut (run x r r' : str) :
  forallb (in_class seireki_year_chars) run = true ->
  run ++ r = x ++ nen :: r' -> length run <= length x.
Proof.
  revert x; induction run as [|c run IH]; intros x Hall E; [simpl; lia|].
  cbn [forallb] in Hall; apply andb_true_iff in Hall. destruct Hall as [Hc Hr].
  destruct x as [|a x].
  - cbn [app] in E. injection E as E _.
    exfalso; exact (year_char_not_nen c Hc E).
  - cbn [app] in E. injection E as _ E. simpl.
    specialize (IH x Hr E). lia.
Qed.

Lemma seireki_no_match_long_year (run r : str) :
  forallb (in_class seireki_year_chars) run = true -> 5 <= length run ->
  re_match seireki_pattern (run ++ r) = None.
Proof.
  intros Hall Hlen. unfold re_match.
  rewrite (@no_element_nil _ (matches seireki_pattern (run ++ r)));
    [reflexivity|].
  intros [[m g] rest] H. unfold seireki_pattern in H. inv_match.
  all: repeat match goal with
       | E : _ = [] |- _ => clear E
       | E : ?v = _ |- _ => is_var v; subst v
       end.
  all: match goal with
       | Hs : ?a ++ ?b = ?x ++ _, Hhi : forall h, Some 4 = Some h -> _ |- _ =>
           specialize (Hhi 4 eq_refl);
           cbn [app] in Hs; rewrite <- ?app_assoc in Hs; cbn [app] in Hs;
           pose proof (year_run_cut a x b _ Hall Hs); lia
       end.
Qed.

Lemma abbr_dead_year_or_canonical : dead year_or_canonical abbr_pattern.
Proof.
  unfold abbr_pattern; cbn [dead]. left.
  intros c Hc. destruct (in_class _ c) eqn:E; [|reflexivity].
  class_cases E; apply char_eqb_eq in E; subst c; vm_compute in Hc;
    discriminate Hc.
Qed.

Lemma delim_dead_year_or_canonical : dead year_or_canonical delim_pattern.
Proof.
  unfold delim_pattern; cbn [dead]. right; left.
  intros c Hc. destruct (in_class _ c) eqn:E; [|reflexivity].
  class_cases E; apply char_eqb_eq in E; subst c; vm_compute in Hc;
    discriminate Hc.
Qed.

(** X9.  The year of a Gregorian date is read from four characters at
    most.  When five year characters stand before 年, the first one is
    copied to the output and the date is formed from the year read in
    the other four. *)
Theorem gregorian_year_of_five_characters (c : char) (y mth dd : str)
        (n mo day : Z) :
  in_class seireki_year_chars c = true ->
  year_group y -> length y = 4 ->
  numeral_group mth -> numeral_group dd ->
  normalize_number y = Ok n -> normalize_number mth = Ok mo ->
  normalize_number dd = Ok day ->
  replace_dates (c :: y ++ nen :: mth ++ getsu :: dd ++ [nichi])
  = Ok (c :: format_date n mo day).
Proof.
  intros Hc Hy Hl Hm Hd Hn Hmo Hday.
  pose proof (seireki_date_match y mth dd [] Hy Hm Hd) as M.
  assert (Hrepl : seireki_repl [y; mth; dd ++ [nichi]]
                  = Ok (format_date n mo day)).
  { cbn [seireki_repl].
    rewrite (make_repl_unfold y mth (dd ++ [nichi]) None n Hn), Hmo.
    cbn [bind]. rewrite (numeral_day_not_matsujitsu dd Hd), removelast_snoc, Hday.
    reflexivity. }
  assert (HA : forallb seireki_char
                 (c :: y ++ nen :: mth ++ getsu :: dd ++ [nichi]) = true).
  { cbn [forallb]. apply andb_true_iff; split;
      [unfold seireki_char; rewrite Hc; reflexivity|].
    apply forallb_app_true; [apply year_group_seireki_chars, Hy|].
    cbn [forallb]. apply andb_true_iff; split; [reflexivity|].
    apply forallb_app_true; [apply numeral_group_seireki_chars, Hm|].
    cbn [forallb]. apply andb_true_iff; split; [reflexivity|].
    apply forallb_app_true; [apply numeral_group_seireki_chars, Hd|reflexivity]. }
  unfold replace_dates.
  rewrite (sub_dead seireki_char era_pattern era_repl _ era_dead_seireki_char HA).
  cbn [bind].
  assert (N0 : re_match seireki_pattern
                 (c :: y ++ nen :: mth ++ getsu :: dd ++ [nichi]) = None).
  { change (c :: y ++ nen :: mth ++ getsu :: dd ++ [nichi])
      with ((c :: y) ++ nen :: mth ++ getsu :: dd ++ [nichi]).
    apply seireki_no_match_long_year; [|simpl; lia].
    cbn [forallb]. rewrite Hc. exact (proj2 Hy). }
  rewrite (sub_cons_no_match seireki_pattern seireki_repl c _ N0).
  destruct y as [|c' y]; [discriminate Hl|]. cbn [app] in M |- *.
  rewrite (sub_match_whole seireki_pattern seireki_repl c' _ _ M).
  rewrite Hrepl, sub_seireki_nil. cbn [bind]. rewrite app_nil_r.
  assert (HB : forallb year_or_canonical (c :: format_date n mo day) = true).
  { cbn [forallb]. apply andb_true_iff; split;
      [unfold year_or_canonical; rewrite Hc; reflexivity|].
    eapply forallb_impl; [|apply format_date_canonical].
    intros x Hx; unfold year_or_canonical; rewrite Hx; apply orb_true_r. }
  rewrite (sub_dead year_or_canonical abbr_pattern abbr_repl _
             abbr_dead_year_or_canonical HB).
  cbn [bind].
  exact (sub_dead year_or_canonical delim_pattern delim_repl _
           delim_dead_year_or_canonical HB).
Qed.

Lemma gregorian_year_of_five_characters_witness :
  year_group (py "千二十三") /\ normalize_number (py "千二十三") = Ok 1023%Z
  /\ replace_dates (py "二千二十三年一月一日") = Ok (py "二1023-01-01").
Proof.
  assert (Hy : year_group (py "千二十三"))
    by (split; [simpl; repeat constructor|reflexivity]).
  split; [exact Hy|]. split; [reflexivity|].
  apply (gregorian_year_of_five_characters (ch "二") (py "千二十三")
           (py "一") (py "一") 1023 1 1); try reflexivity; try exact Hy;
    split; first [discriminate|reflexivity].
Defined.

(* ================================================================== *)
(** * Substitution by a constant *)

Lemma sub_class_const (cs : cclass) (out s : str) :
  sub (Cls cs) (const_repl out) s = Ok (flat_map (class_image cs out) s).
Proof.
  unfold sub. induction s as [|c s IH]; [reflexivity|].
  cbn [sub_loop flat_map]. unfold re_match, class_image at 1. cbn [matches].
  destruct (in_class cs c); cbn [hd_error const_repl bind length].
  - rewrite IH; reflexivity.
  - rewrite IH; reflexivity.
Qed.

Lemma in_class_range_class (rs : list (N * N)) (c : char) :
  in_class (range_class rs) c = existsb (in_range c) rs.
Proof.
  unfold in_class, range_class. induction rs as [|[lo hi] rs IH];
    [reflexivity|].
  cbn [map existsb item_match fst snd]. rewrite IH; reflexivity.
Qed.

Lemma span_class (cs : cclass) (s : str) :
  exists run rest,
    s = run ++ rest /\ forallb (in_class cs) run = true
    /\ starts_outside cs rest = true.
Proof.
  induction s as [|c s IH]; [exists [], []; repeat split|].
  destruct (in_class cs c) eqn:E.
  - destruct IH as (run & rest & -> & Hrun & Hrest).
    exists (c :: run), rest. cbn [app forallb]. rewrite E, Hrun. auto.
  - exists [], (c :: s). cbn [app forallb starts_outside]. rewrite E. auto.
Qed.

Lemma squeeze_outside (cs : cclass) (out : str) (b : bool) (s : str) :
  starts_outside cs s = true -> squeeze cs out b s = squeeze cs out false s.
Proof.
  destruct s as [|c s]; [reflexivity|]. cbn [starts_outside squeeze].
  intros H; apply negb_true_iff in H; rewrite H; reflexivity.
Qed.

Lemma squeeze_run (cs : cclass) (out run rest : str) :
  forallb (in_class cs) run = true -> starts_outside cs rest = true ->
  squeeze cs out true (run ++ rest) = squeeze cs out false rest.
Proof.
  intros Hrun Hrest. induction run as [|c run IH];
    [apply squeeze_outside, Hrest|].
  cbn [forallb] in Hrun; apply andb_true_iff in Hrun. destruct Hrun as [Hc Hr].
  cbn [app squeeze]. rewrite Hc. apply IH, Hr.
Qed.

Lemma re_match_rep_outside (cs : cclass) (c : char) (s : str) :
  in_class cs c = false -> re_match (Rep cs 1 None) (c :: s) = None.
Proof.
  intros H. unfold re_match. cbn [matches rep_matches hi_allows andb].
  rewrite H. reflexivity.
Qed.

Lemma sub_runs_const_bounded (cs : cclass) (out : str) (n : nat) :
  forall s, length s <= n ->
    sub (Rep cs 1 None) (const_repl out) s = Ok (squeeze cs out false s).
Proof.
  induction n as [|n IH]; intros s Hn.
  - destruct s; [reflexivity|simpl in Hn; lia].
  - destruct s as [|c s]; [reflexivity|].
    destruct (in_class cs c) eqn:E.
    + destruct (span_class cs s) as (run & rest & -> & Hrun & Hrest).
      assert (M : re_match (Rep cs 1 None) (c :: run ++ rest)
                  = Some (c :: run, [], rest)).
      { change (c :: run ++ rest) with ((c :: run) ++ rest).
        apply re_match_rep; [cbn [forallb]; rewrite E; exact Hrun
                            |simpl; lia|discriminate|right; exact Hrest]. }
      rewrite (sub_match_head (Rep cs 1 None) (const_repl out) c run rest [] M).
      cbn [const_repl bind]. rewrite IH.
      * cbn [bind squeeze]. rewrite E, (squeeze_run cs out run rest Hrun Hrest).
        reflexivity.
      * simpl in Hn. rewrite length_app in Hn. lia.
    + rewrite (sub_cons_no_match (Rep cs 1 None) (const_repl out) c s
                 (re_match_rep_outside cs c s E)).
      rewrite IH by (simpl in Hn; lia). cbn [bind squeeze]. rewrite E.
      reflexivity.
Qed.

(** Replacing [cs+] by a constant squeezes every run of the class. *)
Lemma sub_runs_const (cs : cclass) (out s : str) :
  sub (Rep cs 1 None) (const_repl out) s = Ok (squeeze cs out false s).
Proof. apply (sub_runs_const_bounded cs out (length s)); lia. Qed.

Lemma squeeze_nil_filter (cs : cclass) (b : bool) (s : str) :
  squeeze cs [] b s = filter (fun c => negb (in_class cs c)) s.
Proof.
  revert b; induction s as [|c s IH]; intros b; [reflexivity|].
  cbn [squeeze filter app]. destruct (in_class cs c); cbn [negb].
  - destruct b; apply IH.
  - rewrite IH; reflexivity.
Qed.

(* ================================================================== *)
(** * Results on the text cleaner *)

Lemma symbol_image_flat (s : str) :
  flat_map (class_image symbol_class [])
           (flat_map (class_image bracket_class space_str) s)
  = flat_map symbol_image s.
Proof.
  induction s as [|c s IH]; [reflexivity|].
  cbn [flat_map]. rewrite flat_map_app, IH. f_equal.
  unfold class_image at 2, symbol_image, is_bracket, is_symbol.
  destruct (in_class bracket_class c); [reflexivity|].
  cbn [flat_map]. unfold class_image. rewrite app_nil_r.
  destruct (in_class symbol_class c); reflexivity.
Qed.

Lemma remove_symbols_flat (s : str) :
  remove_symbols (PStr s) = Ok (flat_map symbol_image s).
Proof.
  unfold remove_symbols. rewrite sub_class_const. cbn [bind].
  rewrite sub_class_const, symbol_image_flat. reflexivity.
Qed.

Lemma bracket_not_symbol (c : char) : is_bracket c = true -> is_symbol c = false.
Proof.
  unfold is_bracket, bracket_class. intros H.
  class_cases H; apply char_eqb_eq in H; subst c; reflexivity.
Qed.

Lemma symbol_image_clean (c x : char) :
  In x (symbol_image c) -> is_bracket x = false /\ is_symbol x = false.
Proof.
  unfold symbol_image. destruct (is_bracket c) eqn:Eb.
  - intros [<-|[]]; split; reflexivity.
  - destruct (is_symbol c) eqn:Es; [intros []|].
    intros [<-|[]]; split; assumption.
Qed.

Lemma symbol_image_fixed (c : char) :
  is_bracket c = false -> is_symbol c = false -> symbol_image c = [c].
Proof. intros Hb Hs; unfold symbol_image; rewrite Hb, Hs; reflexivity. Qed.

(** X10.  [remove_symbols] turns each of the listed brackets into one
    space, deletes each of the listed symbols and keeps every other
    character, in order.  Its result holds no bracket and no symbol of
    the lists, is not longer than the text, and is left unchanged by a
    second call. *)
Theorem remove_symbols_characterized (s : str) :
  remove_symbols (PStr s) = Ok (flat_map symbol_image s)
  /\ forallb (fun c => negb (is_bracket c) && negb (is_symbol c))
             (flat_map symbol_image s) = true
  /\ length (flat_map symbol_image s) <= length s
  /\ remove_symbols (PStr (flat_map symbol_image s))
     = Ok (flat_map symbol_image s).
Proof.
  split; [apply remove_symbols_flat|].
  assert (Hclean : forallb (fun c => negb (is_bracket c) && negb (is_symbol c))
                           (flat_map symbol_image s) = true).
  { apply forallb_forall. intros x Hx. apply in_flat_map in Hx.
    destruct Hx as (c & _ & Hx). apply symbol_image_clean in Hx.
    destruct Hx as [-> ->]; reflexivity. }
  split; [exact Hclean|]. split.
  - clear Hclean. induction s as [|c s IH]; [simpl; lia|].
    cbn [flat_map length]. rewrite length_app. unfold symbol_image at 1.
    destruct (is_bracket c); [unfold space_str; cbn [length]; lia|].
    destruct (is_symbol c); cbn [length]; lia.
  - rewrite remove_symbols_flat. f_equal.
    induction (flat_map symbol_image s) as [|x l IH]; [reflexivity|].
    cbn [forallb] in Hclean. apply andb_true_iff in Hclean.
    destruct Hclean as [Hx Hl]. apply andb_true_iff in Hx.
    destruct Hx as [Hb Hs]. apply negb_true_iff in Hb, Hs.
    cbn [flat_map]. rewrite (symbol_image_fixed x Hb Hs), (IH Hl). reflexivity.
Qed.

(** X11.  [remove_emojis] deletes exactly the characters of the emoji
    ranges and the variation selector U+FE0F, and keeps all the others in
    order; a second call changes nothing. *)
Theorem remove_emojis_characterized (s : str) :
  remove_emojis s = Ok (filter (fun c => negb (is_emoji c)) s)
  /\ remove_emojis (filter (fun c => negb (is_emoji c)) s)
     = Ok (filter (fun c => negb (is_emoji c)) s).
Proof.
  assert (H : forall t, remove_emojis t
                        = Ok (filter (fun c => negb (is_emoji c)) t)).
  { intros t. unfold remove_emojis. rewrite sub_runs_const, squeeze_nil_filter.
    reflexivity. }
  split; [apply H|]. rewrite H. f_equal.
  induction s as [|c s IH]; [reflexivity|].
  cbn [filter]. destruct (negb (is_emoji c)) eqn:E; [|exact IH].
  cbn [filter]. rewrite E, IH. reflexivity.
Qed.

(* ------------------------------------------------------------------ *)
(** ** [lstrip], [rstrip] and the words of a text *)

Lemma in_space_class (c : char) : in_class space_class c = isspace c.
Proof. apply in_class_range_class. Qed.

Lemma isspace_space : isspace 32%N = true.
Proof. reflexivity. Qed.

Lemma lstrip_app (x y : str) :
  lstrip x <> [] -> lstrip (x ++ y) = lstrip x ++ y.
Proof.
  induction x as [|c x IH]; [intros H; contradiction H; reflexivity|].
  cbn [lstrip app]. destruct (isspace c); [exact IH|reflexivity].
Qed.

Lemma lstrip_nil_app (x y : str) :
  lstrip x = [] -> lstrip (x ++ y) = lstrip y.
Proof.
  induction x as [|c x IH]; [reflexivity|].
  cbn [lstrip app]. destruct (isspace c); [exact IH|discriminate].
Qed.

Lemma rstrip_app (a b : str) :
  rstrip b <> [] -> rstrip (a ++ b) = a ++ rstrip b.
Proof.
  unfold rstrip; intros H. rewrite rev_app_distr, lstrip_app.
  - rewrite rev_app_distr, rev_involutive; reflexivity.
  - intros E; apply H; rewrite E; reflexivity.
Qed.

Lemma rstrip_nil_app (a b : str) : rstrip b = [] -> rstrip (a ++ b) = rstrip a.
Proof.
  unfold rstrip; intros H. rewrite rev_app_distr, lstrip_nil_app; [reflexivity|].
  rewrite <- (rev_involutive (lstrip (rev b))), H; reflexivity.
Qed.

Lemma rstrip_snoc (a : str) (c : char) :
  rstrip (a ++ [c]) = if isspace c then rstrip a else a ++ [c].
Proof.
  unfold rstrip. rewrite rev_app_distr. cbn [rev app lstrip].
  destruct (isspace c); [reflexivity|].
  cbn [rev]. rewrite rev_involutive; reflexivity.
Qed.

Lemma rstrip_word (w : str) : forallb nonspace w = true -> rstrip w = w.
Proof.
  destruct w as [|c w] using rev_ind; [reflexivity|].
  rewrite forallb_app; cbn [forallb]; unfold nonspace at 2.
  intros H; apply andb_true_iff in H; destruct H as [_ H].
  rewrite andb_true_r in H; apply negb_true_iff in H.
  rewrite rstrip_snoc, H; reflexivity.
Qed.

Lemma words_from_good (s w : str) :
  forallb nonspace w = true -> Forall is_word (words_from w s).
Proof.
  revert w; induction s as [|c s IH]; intros w Hw.
  - destruct w; cbn [words_from]; [constructor|].
    constructor; [split; [discriminate|exact Hw]|constructor].
  - cbn [words_from]. destruct (isspace c) eqn:E.
    + destruct w; [apply IH; reflexivity|].
      constructor; [split; [discriminate|exact Hw]|apply IH; reflexivity].
    + apply IH. rewrite forallb_app, Hw; cbn [forallb]; unfold nonspace.
      rewrite E; reflexivity.
Qed.

Lemma words_from_concat (s w : str) :
  concat (words_from w s) = w ++ filter nonspace s.
Proof.
  revert w; induction s as [|c s IH]; intros w.
  - destruct w; cbn [words_from concat filter]; rewrite ?app_nil_r; reflexivity.
  - cbn [words_from filter]. unfold nonspace at 1.
    destruct (isspace c) eqn:E; cbn [negb].
    + destruct w; [apply IH|]. cbn [concat]. rewrite IH; reflexivity.
    + rewrite IH, <- app_assoc; reflexivity.
Qed.

Lemma words_from_app (a s w : str) :
  forallb nonspace a = true -> words_from w (a ++ s) = words_from (w ++ a) s.
Proof.
  revert w; induction a as [|c a IH]; intros w Ha;
    [rewrite app_nil_r; reflexivity|].
  cbn [forallb] in Ha; apply andb_true_iff in Ha; destruct Ha as [Hc Ha].
  apply negb_true_iff in Hc. cbn [app words_from]. rewrite Hc, (IH _ Ha).
  rewrite <- app_assoc; reflexivity.
Qed.

Lemma words_from_space (c : char) (s w : str) :
  isspace c = true -> w <> [] -> words_from w (c :: s) = w :: words_from [] s.
Proof.
  intros E Hne. cbn [words_from]. rewrite E.
  destruct w; [contradiction Hne|]; reflexivity.
Qed.

Lemma unwords_cons (w : str) (ws : list str) :
  ws <> [] -> unwords (w :: ws) = w ++ space_str ++ unwords ws.
Proof. destruct ws; [intros H; contradiction H|]; reflexivity. Qed.

Lemma words_unwords (ws : list str) :
  Forall is_word ws -> words (unwords ws) = ws.
Proof.
  unfold words. induction ws as [|w ws IH]; intros H; [reflexivity|].
  inversion H as [|? ? [Hne Hw] Hws]; subst.
  destruct ws as [|w1 ws].
  - cbn [unwords]. rewrite <- (app_nil_r w) at 1.
    rewrite (words_from_app w [] [] Hw). destruct w; [contradiction Hne|];
      reflexivity.
  - rewrite unwords_cons by discriminate.
    rewrite (words_from_app w _ [] Hw). cbn [app].
    unfold space_str at 1. cbn [app words_from]. rewrite isspace_space.
    destruct w; [contradiction Hne; reflexivity|].
    rewrite (IH Hws); reflexivity.
Qed.

Lemma unwords_nonempty (w : str) (ws : list str) :
  w <> [] -> unwords (w :: ws) <> [].
Proof.
  intros Hne. destruct ws; cbn [unwords]; destruct w;
    try (contradiction Hne; reflexivity); discriminate.
Qed.

(** ** Whitespace runs squeezed, then stripped *)

Lemma squeeze_space_cons (b : bool) (c : char) (s : str) :
  squeeze space_class space_str b (c :: s)
  = if isspace c
    then (if b then squeeze space_class space_str true s
          else space_str ++ squeeze space_class space_str true s)
    else c :: squeeze space_class space_str false s.
Proof. cbn [squeeze]. rewrite in_space_class; reflexivity. Qed.

Lemma lstrip_squeeze_true (s : str) :
  lstrip (squeeze space_class space_str true s)
  = squeeze space_class space_str true s.
Proof.
  induction s as [|c s IH]; [reflexivity|].
  rewrite squeeze_space_cons. destruct (isspace c) eqn:E; [exact IH|].
  cbn [lstrip]. rewrite E; reflexivity.
Qed.

Lemma lstrip_squeeze (s : str) :
  lstrip (squeeze space_class space_str false s)
  = squeeze space_class space_str true s.
Proof.
  destruct s as [|c s]; [reflexivity|].
  rewrite !squeeze_space_cons. destruct (isspace c) eqn:E.
  - unfold space_str. cbn [app lstrip]. rewrite isspace_space.
    apply lstrip_squeeze_true.
  - cbn [lstrip]. rewrite E; reflexivity.
Qed.

Lemma rstrip_squeeze (s : str) :
  rstrip (squeeze space_class space_str true s) = unwords (words_from [] s)
  /\ forall w, w <> [] -> forallb nonspace w = true ->
       rstrip (w ++ squeeze space_class space_str false s)
       = unwords (words_from w s).
Proof.
  induction s as [|c s [IHa IHb]].
  - split; [reflexivity|]. intros w Hne Hw. cbn [squeeze words_from].
    rewrite app_nil_r, (rstrip_word w Hw).
    destruct w; [contradiction Hne|]; reflexivity.
  - rewrite !squeeze_space_cons.
    destruct (isspace c) eqn:E.
    + split; [cbn [words_from]; rewrite E; exact IHa|]. intros w Hne Hw.
      assert (Hgood := words_from_good s [] eq_refl).
      rewrite (words_from_space c s w E Hne).
      destruct (words_from [] s) as [|w1 ws] eqn:Ew.
      * rewrite app_assoc, (rstrip_nil_app _ _ IHa).
        unfold space_str. rewrite rstrip_snoc, isspace_space.
        apply rstrip_word, Hw.
      * inversion Hgood as [|? ? [Hne1 _] _]; subst.
        rewrite unwords_cons by discriminate.
        rewrite !app_assoc, rstrip_app;
          [rewrite IHa; reflexivity
          |rewrite IHa; apply unwords_nonempty, Hne1].
    + split.
      * cbn [words_from]; rewrite E.
        apply (IHb [c]); [discriminate|].
        cbn [forallb]; unfold nonspace; rewrite E; reflexivity.
      * intros w Hne Hw. cbn [words_from]; rewrite E.
        change (w ++ c :: squeeze space_class space_str false s)
          with (w ++ [c] ++ squeeze space_class space_str false s).
        rewrite app_assoc. apply IHb.
        -- destruct w; discriminate.
        -- rewrite forallb_app, Hw; cbn [forallb]; unfold nonspace.
           rewrite E; reflexivity.
Qed.

Lemma unify_whitespaces_words (s : str) :
  unify_whitespaces (PStr s) = Ok (unwords (words s)).
Proof.
  unfold unify_whitespaces. rewrite sub_runs_const. cbn [bind].
  unfold strip. rewrite lstrip_squeeze. f_equal. apply rstrip_squeeze.
Qed.

(** X12.  [unify_whitespaces] returns the words of the text joined by
    single spaces, as [" ".join(s.split())] does: the words are not
    empty, hold no whitespace, and together are the characters of the
    text that are not whitespace, in order.  A second call changes
    nothing. *)
Theorem unify_whitespaces_joins_words (s : str) :
  unify_whitespaces (PStr s) = Ok (unwords (words s))
  /\ Forall is_word (words s)
  /\ concat (words s) = filter nonspace s
  /\ unify_whitespaces (PStr (unwords (words s))) = Ok (unwords (words s)).
Proof.
  split; [apply unify_whitespaces_words|].
  split; [apply words_from_good; reflexivity|].
  split; [apply (words_from_concat s [])|].
  rewrite unify_whitespaces_words, words_unwords; [reflexivity|].
  apply words_from_good; reflexivity.
Qed.

(* ------------------------------------------------------------------ *)
(** ** Deleting the matches of a pattern that ends in a greedy class *)

Lemma delete_runs_skip (starts : str -> bool) (cs : cclass) (m rest : str) :
  forallb (in_class cs) m = true -> starts_outside cs rest = true ->
  delete_runs starts cs true (m ++ rest) = delete_runs starts cs false rest.
Proof.
  intros Hm Hr. induction m as [|c m IH].
  - destruct rest as [|x rest]; [reflexivity|].
    cbn [starts_outside] in Hr; apply negb_true_iff in Hr.
    cbn [app delete_runs]. rewrite Hr; reflexivity.
  - cbn [forallb] in Hm; apply andb_true_iff in Hm; destruct Hm as [Hc Hm].
    cbn [app delete_runs]. rewrite Hc. cbn [andb]. apply IH, Hm.
Qed.

Lemma delete_runs_outside (starts : str -> bool) (cs : cclass) (d : bool)
      (s : str) :
  d = true \/ starts_outside cs s = true ->
  starts_outside cs (delete_runs starts cs d s) = true.
Proof.
  revert d; induction s as [|c s IH]; intros d Hd; [reflexivity|].
  cbn [delete_runs]. destruct (d && in_class cs c) eqn:E.
  - apply IH; left; reflexivity.
  - destruct (starts (c :: s)); [apply IH; left; reflexivity|].
    cbn [starts_outside]. destruct Hd as [->|Hd]; [exact (f_equal negb E)|].
    exact Hd.
Qed.

Lemma delete_runs_separator (starts : str -> bool) (cs : cclass)
      (w : char) (b : str) :
  in_class cs w = false ->
  (forall x, starts (x ++ w :: b) = starts x) -> starts [] = false ->
  forall a d,
    delete_runs starts cs d (a ++ w :: b)
    = delete_runs starts cs d a ++ w :: delete_runs starts cs false b.
Proof.
  intros Hw Hloc Hnil. induction a as [|c a IH]; intros d.
  - cbn [app delete_runs]. rewrite Hw, andb_false_r.
    rewrite (Hloc [] : starts (w :: b) = starts []), Hnil; reflexivity.
  - cbn [app delete_runs].
    rewrite (Hloc (c :: a) : starts (c :: a ++ w :: b) = starts (c :: a)).
    destruct (d && in_class cs c); [apply IH|].
    destruct (starts (c :: a)); [apply IH|]. rewrite IH; reflexivity.
Qed.

Lemma delete_runs_none (starts : str -> bool) (cs : cclass) (s : str) :
  (forall pre t, s = pre ++ t -> starts t = false) ->
  delete_runs starts cs false s = s.
Proof.
  induction s as [|c s IH]; intros H; [reflexivity|].
  cbn [delete_runs andb]. rewrite (H [] (c :: s) eq_refl).
  rewrite IH; [reflexivity|].
  intros pre t ->; apply (H (c :: pre) t); reflexivity.
Qed.

Lemma sub_delete_runs_bounded (r : regex) (starts : str -> bool)
      (cs : cclass) :
  (forall s, starts s = false -> re_match r s = None) ->
  (forall c s, starts (c :: s) = true ->
     exists m g rest,
       re_match r (c :: s) = Some (c :: m, g, rest) /\ s = m ++ rest
       /\ forallb (in_class cs) m = true /\ starts_outside cs rest = true) ->
  forall n s, length s <= n ->
    sub r (const_repl []) s = Ok (delete_runs starts cs false s).
Proof.
  intros H1 H2. induction n as [|n IH]; intros s Hn.
  - destruct s; [|simpl in Hn; lia].
    unfold sub; cbn [sub_loop delete_runs].
    destruct (re_match r []) as [[[m g] rest]|]; reflexivity.
  - destruct s as [|c s].
    { unfold sub; cbn [sub_loop delete_runs].
      destruct (re_match r []) as [[[m g] rest]|]; reflexivity. }
    cbn [delete_runs andb]. destruct (starts (c :: s)) eqn:E.
    + destruct (H2 c s E) as (m & g & rest & M & -> & Hm & Hr).
      rewrite (sub_match_head r (const_repl []) c m rest g M).
      cbn [const_repl bind]. rewrite IH.
      * cbn [bind app]. rewrite (delete_runs_skip starts cs m rest Hm Hr).
        reflexivity.
      * simpl in Hn. rewrite length_app in Hn. lia.
    + rewrite (sub_cons_no_match r (const_repl []) c s (H1 _ E)).
      rewrite IH by (simpl in Hn; lia). reflexivity.
Qed.

Lemma sub_delete_runs (r : regex) (starts : str -> bool) (cs : cclass)
      (s : str) :
  (forall s, starts s = false -> re_match r s = None) ->
  (forall c s, starts (c :: s) = true ->
     exists m g rest,
       re_match r (c :: s) = Some (c :: m, g, rest) /\ s = m ++ rest
       /\ forallb (in_class cs) m = true /\ starts_outside cs rest = true) ->
  sub r (const_repl []) s = Ok (delete_runs starts cs false s).
Proof.
  intros H1 H2.
  apply (sub_delete_runs_bounded r starts cs H1 H2 (length s)); lia.
Qed.

Lemma re_match_none (r : regex) (s : str) :
  (forall x, ~ In x (matches r s)) -> re_match r s = None.
Proof.
  intros H. destruct (re_match r s) as [x|] eqn:E; [|reflexivity].
  exfalso; apply (H x), re_match_in, E.
Qed.

(* ------------------------------------------------------------------ *)
(** ** The URL pattern *)

Lemma url_pattern_eq :
  url_pattern
  = Seq (Lit http_str)
        (Seq (Rep s_class 0 (Some 1))
             (Seq (Lit colon_slashes) (Rep nonspace_class 1 None))).
Proof. reflexivity. Qed.

Lemma url_match (opt body rest : str) :
  opt = [] \/ opt = [115%N] -> body <> [] ->
  forallb is_nonspace body = true -> starts_outside nonspace_class rest = true ->
  re_match url_pattern (http_str ++ opt ++ colon_slashes ++ body ++ rest)
  = Some (http_str ++ opt ++ colon_slashes ++ body, [] ++ [] ++ [] ++ [], rest).
Proof.
  intros Hopt Hne Hb Hr. rewrite url_pattern_eq.
  eapply re_match_seq; [apply re_match_lit|].
  eapply re_match_seq.
  { apply re_match_rep.
    - destruct Hopt as [->| ->]; reflexivity.
    - lia.
    - intros h Hh; injection Hh as <-. destruct Hopt as [->| ->]; simpl; lia.
    - right; reflexivity. }
  eapply re_match_seq; [apply re_match_lit|].
  apply re_match_rep; [exact Hb| | |right; exact Hr].
  - destruct body; [contradiction Hne; reflexivity|simpl; lia].
  - discriminate.
Qed.

Lemma starts_url_cases (s : str) :
  starts_url s = true ->
  exists opt c t,
    (opt = [] \/ opt = [115%N])
    /\ s = http_str ++ opt ++ colon_slashes ++ c :: t
    /\ is_nonspace c = true.
Proof.
  unfold starts_url, url_schemes. cbn [existsb]. rewrite orb_false_r.
  intros H; apply orb_true_iff in H; destruct H as [H|H].
  - destruct (strip_prefix _ s) as [[|c t]|] eqn:E; try discriminate H.
    apply strip_prefix_app in E.
    exists [115%N], c, t. split; [right; reflexivity|split; [exact E|exact H]].
  - destruct (strip_prefix _ s) as [[|c t]|] eqn:E; try discriminate H.
    apply strip_prefix_app in E.
    exists [], c, t. split; [left; reflexivity|split; [exact E|exact H]].
Qed.

Lemma starts_url_intro (opt : str) (c : char) (t : str) :
  opt = [] \/ opt = [115%N] -> is_nonspace c = true ->
  starts_url (http_str ++ opt ++ colon_slashes ++ c :: t) = true.
Proof.
  intros [->| ->] Hc; unfold starts_url, url_schemes; cbn [existsb];
    apply orb_true_iff; [right|left].
  - rewrite orb_false_r.
    match goal with
    | |- context [strip_prefix ?l ?x] =>
        rewrite (proj2 (strip_prefix_app l x (c :: t)) eq_refl)
    end.
    exact Hc.
  - match goal with
    | |- context [strip_prefix ?l ?x] =>
        rewrite (proj2 (strip_prefix_app l x (c :: t)) eq_refl)
    end.
    exact Hc.
Qed.

Lemma url_no_start (s : str) :
  starts_url s = false -> re_match url_pattern s = None.
Proof.
  intros H. apply re_match_none. intros [[m g] rest] Hin.
  rewrite url_pattern_eq in Hin. inv_match.
  repeat match goal with
         | H : In _ (matches (Rep _ _ _) _) |- _ =>
             apply in_matches_rep in H;
             destruct H as (? & ? & ? & ? & ?)
         end.
  subst.
  match goal with
  | Hall : forallb (in_class nonspace_class) ?b = true,
    Hlo : 1 <= length ?b |- _ =>
      destruct b as [|c b]; [simpl in Hlo; lia|];
      cbn [forallb] in Hall; apply andb_true_iff in Hall;
      destruct Hall as [Hc _]
  end.
  match goal with
  | Hall : forallb (in_class s_class) ?o = true,
    Hhi : forall h, Some 1 = Some h -> length ?o <= h |- _ =>
      assert (Ho : o = [] \/ o = [115%N]);
      [ destruct o as [|y [|z o]];
        [ left; reflexivity
        | right; cbn [forallb] in Hall; rewrite andb_true_r in Hall;
          unfold s_class in Hall; class_cases Hall;
          apply char_eqb_eq in Hall; subst y; reflexivity
        | specialize (Hhi 1 eq_refl); simpl in Hhi; lia ]
      | ]
  end.
  change ((c :: ?b) ++ rest) with (c :: b ++ rest) in H.
  match type of H with
  | starts_url ?x = false =>
      match goal with
      | Ho : ?o = [] \/ _ |- _ =>
          assert (E : starts_url x = true);
          [ destruct Ho as [-> | ->];
            [ apply (starts_url_intro [] c); [left; reflexivity|exact Hc]
            | apply (starts_url_intro [115%N] c);
              [right; reflexivity|exact Hc] ]
          | rewrite E in H; discriminate H ]
      end
  end.
Qed.

Lemma url_start (c : char) (s : str) :
  starts_url (c :: s) = true ->
  exists m g rest,
    re_match url_pattern (c :: s) = Some (c :: m, g, rest) /\ s = m ++ rest
    /\ forallb (in_class nonspace_class) m = true
    /\ starts_outside nonspace_class rest = true.
Proof.
  intros H. apply starts_url_cases in H.
  destruct H as (opt & x & t & Hopt & E & Hx).
  destruct (span_class nonspace_class t) as (run & rest & -> & Hrun & Hrest).
  assert (M := url_match opt (x :: run) rest Hopt ltac:(discriminate)
                 ltac:(cbn [forallb]; rewrite Hx; exact Hrun) Hrest).
  destruct Hopt as [-> | ->]; unfold http_str, colon_slashes in E;
    cbn [app] in E; injection E as -> ->.
  - exists ([116; 116; 112; 58; 47; 47]%N ++ x :: run), [], rest.
    split; [exact M|]. split; [reflexivity|]. split; [|exact Hrest].
    cbn [app forallb]. unfold is_nonspace in Hx. rewrite Hx, Hrun.
    reflexivity.
  - exists ([116; 116; 112; 115; 58; 47; 47]%N ++ x :: run), [], rest.
    split; [exact M|]. split; [reflexivity|]. split; [|exact Hrest].
    cbn [app forallb]. unfold is_nonspace in Hx. rewrite Hx, Hrun.
    reflexivity.
Qed.

Lemma remove_urls_strip (s : str) :
  remove_urls (PStr s) = Ok (strip_urls s).
Proof. apply sub_delete_runs; [apply url_no_start|apply url_start]. Qed.

(* ------------------------------------------------------------------ *)
(** ** [\S] is the complement of [\s] *)

Ltac decide_leb :=
  repeat match goal with
         | |- context [(?a <=? ?b)%N] =>
             first [ rewrite (proj2 (N.leb_le a b)) by lia
                   | rewrite (proj2 (N.leb_gt a b)) by lia ]
         end;
  reflexivity.

Ltac below c k :=
  destruct (N.lt_ge_cases c k) as [?|?]; [decide_leb|].

Lemma nonspace_complement (c : char) :
  is_nonspace c = negb (isspace c) && (c <=? 0x10FFFF)%N.
Proof.
  unfold is_nonspace, nonspace_class. rewrite in_class_range_class.
  unfold isspace, nonspace_ranges, space_ranges, in_range.
  cbn [existsb fst snd].
  below c 0x9%N. below c 0xe%N. below c 0x1c%N. below c 0x21%N.
  below c 0x85%N. below c 0x86%N. below c 0xa0%N. below c 0xa1%N.
  below c 0x1680%N. below c 0x1681%N. below c 0x2000%N. below c 0x200b%N.
  below c 0x2028%N. below c 0x202a%N. below c 0x202f%N. below c 0x2030%N.
  below c 0x205f%N. below c 0x2060%N. below c 0x3000%N. below c 0x3001%N.
  below c 0x110000%N. decide_leb.
Qed.

Lemma space_not_nonspace (c : char) :
  isspace c = true -> is_nonspace c = false.
Proof. intros H; rewrite nonspace_complement, H; reflexivity. Qed.

Lemma nonspace_not_space (c : char) :
  is_nonspace c = true -> isspace c = false.
Proof.
  rewrite nonspace_complement. intros H; apply andb_true_iff in H.
  apply negb_true_iff, H.
Qed.

(* ------------------------------------------------------------------ *)
(** ** URLs *)

Lemma strip_prefix_separator (w : char) (b p x : str) :
  existsb (char_eqb w) p = false ->
  strip_prefix p (x ++ w :: b)
  = option_map (fun r => r ++ w :: b) (strip_prefix p x).
Proof.
  revert x; induction p as [|a p IH]; intros x Hp; [reflexivity|].
  cbn [existsb] in Hp; apply orb_false_iff in Hp; destruct Hp as [Ha Hp].
  destruct x as [|y x]; cbn [app strip_prefix].
  - replace (char_eqb a w) with false; [reflexivity|].
    symmetry; unfold char_eqb in *; rewrite N.eqb_sym; exact Ha.
  - destruct (char_eqb a y); [apply IH, Hp|reflexivity].
Qed.

Lemma starts_url_separator (w : char) (b x : str) :
  isspace w = true -> starts_url (x ++ w :: b) = starts_url x.
Proof.
  intros Hw. unfold starts_url, url_schemes. cbn [existsb].
  assert (Hp : forall p, forallb is_nonspace p = true ->
                         existsb (char_eqb w) p = false).
  { intros p Hp. destruct (existsb (char_eqb w) p) eqn:E; [|reflexivity].
    apply existsb_exists in E. destruct E as (y & Hy & E).
    apply char_eqb_eq in E; subst y.
    rewrite forallb_forall in Hp. specialize (Hp w Hy).
    rewrite (space_not_nonspace w Hw) in Hp. discriminate Hp. }
  rewrite !strip_prefix_separator by (apply Hp; reflexivity).
  f_equal; [|f_equal];
    match goal with
    | |- context [strip_prefix ?l x] =>
        destruct (strip_prefix l x) as [[|c t]|]; cbn [option_map app];
        [apply (space_not_nonspace w Hw)|reflexivity|reflexivity]
    end.
Qed.

Lemma starts_url_colon (s : str) :
  starts_url s = true -> existsb (char_eqb colon) s = true.
Proof.
  intros H. apply starts_url_cases in H.
  destruct H as (opt & c & t & Hopt & -> & _).
  destruct Hopt as [-> | ->]; reflexivity.
Qed.

Lemma delete_runs_start (starts : str -> bool) (cs : cclass) (c : char)
      (s : str) :
  starts (c :: s) = true ->
  delete_runs starts cs false (c :: s) = delete_runs starts cs true s.
Proof. intros H; cbn [delete_runs andb]; rewrite H; reflexivity. Qed.

(** X13.  [remove_urls] never raises.  It deletes, from left to right,
    every piece of text that starts with [http://] or [https://] and one
    more character that is not whitespace, up to the next whitespace or
    the end of the text: the two halves of a text around a whitespace
    character are cleaned separately and the whitespace stays; a scheme
    followed by characters that are not whitespace disappears as a whole;
    a text without a colon is unchanged.  The class [\S] holds the code
    points up to U+10FFFF that are not whitespace. *)
Theorem remove_urls_characterized :
  (forall s, remove_urls (PStr s) = Ok (strip_urls s))
  /\ (forall a w b, isspace w = true ->
        strip_urls (a ++ w :: b) = strip_urls a ++ w :: strip_urls b)
  /\ (forall scheme body,
        In scheme url_schemes -> body <> [] ->
        forallb is_nonspace body = true ->
        strip_urls (scheme ++ body) = [])
  /\ (forall s, existsb (char_eqb colon) s = false -> strip_urls s = s)
  /\ (forall c, is_nonspace c = negb (isspace c) && (c <=? 0x10FFFF)%N).
Proof.
  split; [exact remove_urls_strip|].
  split.
  { intros a w b Hw. unfold strip_urls. apply delete_runs_separator.
    - apply (space_not_nonspace w Hw).
    - intros x. apply starts_url_separator, Hw.
    - reflexivity. }
  split.
  { intros scheme body Hs Hne Hb.
    destruct body as [|x body]; [contradiction Hne; reflexivity|].
    pose proof Hb as Hb'.
    cbn [forallb] in Hb'; apply andb_true_iff in Hb'; destruct Hb' as [Hx _].
    unfold strip_urls.
    destruct Hs as [<-|[<-|[]]].
    - cbn [app].
      rewrite delete_runs_start
        by (apply (starts_url_intro [115%N] x body);
            [right; reflexivity|exact Hx]).
      rewrite <- (app_nil_r body).
      change (delete_runs starts_url nonspace_class true
                (([116; 116; 112; 115; 58; 47; 47]%N ++ x :: body) ++ [])
              = []).
      rewrite delete_runs_skip; [reflexivity| |reflexivity].
      rewrite forallb_app. apply andb_true_iff; split; [reflexivity|exact Hb].
    - cbn [app].
      rewrite delete_runs_start
        by (apply (starts_url_intro [] x body); [left; reflexivity|exact Hx]).
      rewrite <- (app_nil_r body).
      change (delete_runs starts_url nonspace_class true
                (([116; 116; 112; 58; 47; 47]%N ++ x :: body) ++ [])
              = []).
      rewrite delete_runs_skip; [reflexivity| |reflexivity].
      rewrite forallb_app. apply andb_true_iff; split; [reflexivity|exact Hb]. }
  split; [|exact nonspace_complement].
  intros s Hs. unfold strip_urls. apply delete_runs_none.
  intros pre t ->. destruct (starts_url t) eqn:E; [|reflexivity].
  apply starts_url_colon in E. rewrite existsb_app, E, orb_true_r in Hs.
  discriminate Hs.
Qed.

Lemma remove_urls_characterized_witness :
  strip_urls (py "a https://b.c/d" ++ 32%N :: py "e")
  = strip_urls (py "a https://b.c/d") ++ 32%N :: strip_urls (py "e")
  /\ strip_urls (py "http://" ++ py "b.c/d?e=f") = []
  /\ strip_urls (py "see <a/b>") = py "see <a/b>".
Proof.
  split; [|split].
  - apply (proj1 (proj2 remove_urls_characterized)). reflexivity.
  - apply (proj1 (proj2 (proj2 remove_urls_characterized))).
    + right; left; reflexivity.
    + discriminate.
    + reflexivity.
  - apply (proj1 (proj2 (proj2 (proj2 remove_urls_characterized)))).
    reflexivity.
Defined.

(* ------------------------------------------------------------------ *)
(** ** Mentions and hashtags *)

Lemma mention_pattern_eq : mention_pattern = tag_pattern at_sign.
Proof. reflexivity. Qed.

Lemma hashtag_pattern_eq : hashtag_pattern = tag_pattern hash_sign.
Proof. reflexivity. Qed.

Lemma sign_not_name (c : char) : is_sign c = true -> is_name c = false.
Proof.
  unfold is_sign. intros H; apply orb_true_iff in H.
  destruct H as [H|H]; apply char_eqb_eq in H; subst c;
    vm_compute; reflexivity.
Qed.

Lemma tag_no_start (tag : char) (s : str) :
  starts_tag tag s = false -> re_match (tag_pattern tag) s = None.
Proof.
  intros H. apply re_match_none. intros [[m g] rest] Hin.
  unfold tag_pattern in Hin. inv_match.
  repeat match goal with
         | H : In _ (matches (Rep _ _ _) _) |- _ =>
             apply in_matches_rep in H;
             destruct H as (? & ? & ? & ? & ?)
         end.
  subst.
  match goal with
  | Hall : forallb (in_class name_class) ?b = true,
    Hlo : 1 <= length ?b |- _ =>
      destruct b as [|c b]; [simpl in Hlo; lia|];
      cbn [forallb] in Hall; apply andb_true_iff in Hall;
      destruct Hall as [Hc _]
  end.
  unfold starts_tag in H. cbn [app] in H.
  unfold is_name in H. rewrite char_eqb_refl, Hc in H. discriminate H.
Qed.

Lemma tag_start (tag c : char) (s : str) :
  starts_tag tag (c :: s) = true ->
  exists m g rest,
    re_match (tag_pattern tag) (c :: s) = Some (c :: m, g, rest)
    /\ s = m ++ rest
    /\ forallb (in_class name_class) m = true
    /\ starts_outside name_class rest = true.
Proof.
  unfold starts_tag. destruct s as [|n t]; [discriminate|].
  intros H; apply andb_true_iff in H; destruct H as [Hc Hn].
  apply char_eqb_eq in Hc; subst c.
  destruct (span_class name_class t) as (run & rest & -> & Hrun & Hrest).
  exists (n :: run), ([] ++ []), rest.
  assert (Hall : forallb (in_class name_class) (n :: run) = true)
    by (cbn [forallb]; unfold is_name in Hn; rewrite Hn; exact Hrun).
  split; [|split; [reflexivity|split; [exact Hall|exact Hrest]]].
  change (tag :: n :: run ++ rest) with ([tag] ++ (n :: run) ++ rest).
  change (tag :: n :: run) with ([tag] ++ n :: run).
  unfold tag_pattern. eapply re_match_seq; [apply re_match_lit|].
  apply re_match_rep; [exact Hall|simpl; lia|discriminate|right; exact Hrest].
Qed.

Lemma sub_tag_pattern (tag : char) (s : str) :
  sub (tag_pattern tag) (const_repl []) s = Ok (strip_tags tag s).
Proof.
  apply sub_delete_runs; [apply tag_no_start|apply tag_start].
Qed.

Lemma remove_mentions_and_hashtags_strip (s : str) :
  remove_mentions_and_hashtags (PStr s) = Ok (strip_mentions_and_hashtags s).
Proof.
  unfold remove_mentions_and_hashtags.
  rewrite mention_pattern_eq, hashtag_pattern_eq, sub_tag_pattern.
  cbn [bind]. apply sub_tag_pattern.
Qed.

(** A sign and the name after it are deleted. *)
Lemma strip_tags_tag (tag : char) (name rest : str) :
  name <> [] -> forallb is_name name = true ->
  starts_outside name_class rest = true ->
  strip_tags tag (tag :: name ++ rest) = strip_tags tag rest.
Proof.
  intros Hne Hn Hr. unfold strip_tags.
  rewrite delete_runs_start.
  - apply delete_runs_skip; [exact Hn|exact Hr].
  - destruct name as [|n name]; [contradiction Hne; reflexivity|].
    cbn [forallb] in Hn; apply andb_true_iff in Hn; destruct Hn as [Hn _].
    cbn [app starts_tag]. rewrite char_eqb_refl, Hn; reflexivity.
Qed.

(** Characters other than the sign stay when no sign comes before. *)
Lemma strip_tags_other (tag : char) (pre rest : str) :
  existsb (fun c => char_eqb c tag) pre = false ->
  strip_tags tag (pre ++ rest) = pre ++ strip_tags tag rest.
Proof.
  unfold strip_tags. induction pre as [|c pre IH]; intros H; [reflexivity|].
  cbn [existsb] in H; apply orb_false_iff in H; destruct H as [Hc H].
  cbn [app delete_runs andb].
  replace (starts_tag tag (c :: pre ++ rest)) with false.
  - rewrite (IH H); reflexivity.
  - unfold starts_tag. destruct (pre ++ rest); [reflexivity|].
    rewrite Hc; reflexivity.
Qed.

Lemma names_without_sign (tag : char) (name : str) :
  is_sign tag = true -> forallb is_name name = true ->
  existsb (fun c => char_eqb c tag) name = false.
Proof.
  intros Ht Hn. destruct (existsb _ name) eqn:E; [|reflexivity].
  apply existsb_exists in E. destruct E as (c & Hc & E).
  apply char_eqb_eq in E; subst c. rewrite forallb_forall in Hn.
  specialize (Hn tag Hc). rewrite (sign_not_name tag Ht) in Hn.
  discriminate Hn.
Qed.

(** X14.  [remove_mentions_and_hashtags] never raises.  It first deletes
    every [@] that is followed by a character of a name, together with
    the name, then every such [#] with its name, a name being a longest
    run of word characters, hyphens and characters of U+3000..U+9FFF.
    So a mention or a hashtag in front of a text that does not go on with
    a name character is removed and the rest is cleaned in the same way;
    a text without [@] and [#] is unchanged.  A name character is a
    word character of [\w], a hyphen or a character of U+3000..U+9FFF. *)
Theorem remove_mentions_and_hashtags_characterized :
  (forall s, remove_mentions_and_hashtags (PStr s)
             = Ok (strip_mentions_and_hashtags s))
  /\ (forall tag name rest,
        is_sign tag = true -> name <> [] -> forallb is_name name = true ->
        starts_outside name_class rest = true ->
        strip_mentions_and_hashtags (tag :: name ++ rest)
        = strip_mentions_and_hashtags rest)
  /\ (forall s, existsb is_sign s = false ->
                strip_mentions_and_hashtags s = s)
  /\ (forall c, is_name c
                = existsb (in_range c) word_ranges
                  || char_eqb c hyphen || in_range c (0x3000, 0x9FFF)%N).
Proof.
  split; [exact remove_mentions_and_hashtags_strip|].
  assert (Hname : forall c, is_name c
                            = existsb (in_range c) word_ranges
                              || char_eqb c hyphen
                              || in_range c (0x3000, 0x9FFF)%N).
  { intros c. unfold is_name.
    change name_class
      with (word_class ++ [CChar hyphen] ++ [CRange 0x3000 0x9FFF]%N).
    unfold in_class. rewrite !existsb_app.
    change (existsb (item_match c) word_class)
      with (in_class (range_class word_ranges) c).
    rewrite in_class_range_class. cbn [existsb item_match].
    rewrite !orb_false_r, orb_assoc. reflexivity. }
  split; [|split; [|exact Hname]].
  - intros tag name rest Ht Hne Hn Hr. unfold strip_mentions_and_hashtags.
    pose proof Ht as Ht'. unfold is_sign in Ht'.
    apply orb_true_iff in Ht'. destruct Ht' as [E|E];
      apply char_eqb_eq in E; subst tag.
    + rewrite (strip_tags_tag at_sign name rest Hne Hn Hr). reflexivity.
    + change (hash_sign :: name ++ rest) with ([hash_sign] ++ name ++ rest).
      rewrite (strip_tags_other at_sign [hash_sign]) by reflexivity.
      rewrite (strip_tags_other at_sign name)
        by (apply names_without_sign; [reflexivity|exact Hn]).
      cbn [app]. apply strip_tags_tag; [exact Hne|exact Hn|].
      apply delete_runs_outside; right; exact Hr.
  - intros s Hs. unfold strip_mentions_and_hashtags.
    assert (H : forall tag, is_sign tag = true -> strip_tags tag s = s).
    { intros tag Ht. rewrite <- (app_nil_r s) at 1.
      rewrite strip_tags_other; [apply app_nil_r|].
      destruct (existsb (fun c => char_eqb c tag) s) eqn:E; [|reflexivity].
      apply existsb_exists in E. destruct E as (c & Hc & E).
      apply char_eqb_eq in E; subst c.
      assert (X : existsb is_sign s = true)
        by (apply existsb_exists; exists tag; split; assumption).
      rewrite X in Hs; discriminate Hs. }
    rewrite (H at_sign eq_refl). apply (H hash_sign eq_refl).
Qed.

Lemma remove_mentions_and_hashtags_characterized_witness :
  strip_mentions_and_hashtags (hash_sign :: py "tag-1" ++ py " @me")
  = strip_mentions_and_hashtags (py " @me")
  /\ strip_mentions_and_hashtags (py "a b") = py "a b".
Proof.
  split.
  - apply (proj1 (proj2 remove_mentions_and_hashtags_characterized)).
    + reflexivity.
    + discriminate.
    + vm_compute; reflexivity.
    + vm_compute; reflexivity.
  - apply (proj1 (proj2 (proj2 remove_mentions_and_hashtags_characterized))).
    reflexivity.
Defined.

(* ------------------------------------------------------------------ *)
(** ** [clean] *)

Lemma in_unwords (c : char) (ws : list str) :
  In c (unwords ws) -> c = 32%N \/ In c (concat ws).
Proof.
  induction ws as [|w ws IH]; [intros []|].
  destruct ws as [|w1 ws].
  - cbn [unwords concat]. rewrite app_nil_r. right; assumption.
  - rewrite unwords_cons by discriminate. intros H.
    apply in_app_or in H. destruct H as [H|H].
    + right. cbn [concat]. apply in_or_app; left; exact H.
    + unfold space_str in H. cbn [app] in H. destruct H as [<-|H];
        [left; reflexivity|].
      destruct (IH H) as [->|Hc]; [left; reflexivity|].
      right. change (concat (w :: w1 :: ws)) with (w ++ concat (w1 :: ws)).
      apply in_or_app; right; exact Hc.
Qed.

(** Joining the words of a text adds no character but the space. *)
Lemma unwords_words_forallb (P : char -> bool) (s : str) :
  P 32%N = true -> forallb P s = true ->
  forallb P (unwords (words s)) = true.
Proof.
  intros Hsp Hs. apply forallb_forall. intros c Hc.
  apply in_unwords in Hc. destruct Hc as [->|Hc]; [exact Hsp|].
  unfold words in Hc. rewrite words_from_concat in Hc. cbn [app] in Hc.
  apply filter_In in Hc. rewrite forallb_forall in Hs. apply Hs, Hc.
Qed.

Lemma forallb_filter_incl (P Q : char -> bool) (s : str) :
  forallb P s = true -> forallb P (filter Q s) = true.
Proof.
  intros Hs. apply forallb_forall. intros c Hc. apply filter_In in Hc.
  rewrite forallb_forall in Hs. apply Hs, Hc.
Qed.

Lemma forallb_filter_self (Q : char -> bool) (s : str) :
  forallb Q (filter Q s) = true.
Proof.
  apply forallb_forall. intros c Hc. apply filter_In in Hc. apply Hc.
Qed.

(** X15.  [clean] never raises, whatever the NFKC normalization returns.
    Its result is the composition of the stages: URLs, mentions and
    hashtags, brackets and symbols, emojis unless they are kept, and
    whitespace, in this order.  The result is a list of words joined by
    single spaces, it holds none of the listed brackets and symbols, and
    no emoji character when emojis are not kept.  An argument that is not
    a string gives the empty string. *)
Theorem clean_characterized (nfkc : str -> str) (keep_emojis : bool)
        (s : str) :
  let staged :=
    (if keep_emojis then fun t => t
     else filter (fun c => negb (is_emoji c)))
      (flat_map symbol_image
         (strip_mentions_and_hashtags (strip_urls (nfkc s)))) in
  let out := unwords (words staged) in
  clean nfkc keep_emojis (PStr s) = Ok out
  /\ unwords (words out) = out
  /\ forallb (fun c => negb (is_bracket c) && negb (is_symbol c)) out = true
  /\ (keep_emojis = false -> forallb (fun c => negb (is_emoji c)) out = true)
  /\ clean nfkc keep_emojis PNotStr = Ok [].
Proof.
  intros staged out.
  assert (Hsym : forallb (fun c => negb (is_bracket c) && negb (is_symbol c))
                   (flat_map symbol_image
                      (strip_mentions_and_hashtags (strip_urls (nfkc s))))
                 = true).
  { apply forallb_forall. intros x Hx. apply in_flat_map in Hx.
    destruct Hx as (c & _ & Hx). apply symbol_image_clean in Hx.
    destruct Hx as [-> ->]; reflexivity. }
  split; [|split; [|split; [|split; [|reflexivity]]]].
  - unfold clean, normalize_str.
    rewrite remove_urls_strip. cbn [bind].
    rewrite remove_mentions_and_hashtags_strip. cbn [bind].
    rewrite remove_symbols_flat. cbn [bind].
    subst out staged. destruct keep_emojis.
    + cbn [bind]. apply unify_whitespaces_words.
    + unfold remove_emojis. rewrite sub_runs_const, squeeze_nil_filter.
      cbn [bind]. apply unify_whitespaces_words.
  - subst out. rewrite words_unwords; [reflexivity|].
    apply words_from_good; reflexivity.
  - subst out. apply unwords_words_forallb; [reflexivity|].
    subst staged. destruct keep_emojis; [exact Hsym|].
    apply forallb_filter_incl, Hsym.
  - intros ->. subst out staged. apply unwords_words_forallb; [reflexivity|].
    apply forallb_filter_self.
Qed.

Lemma clean_characterized_witness :
  forallb (fun c => negb (is_emoji c))
          (unwords (words (filter (fun c => negb (is_emoji c))
             (flat_map symbol_image
                (strip_mentions_and_hashtags
                   (strip_urls (py "(a) http://b  @c #d ★e")))))))
  = true.
Proof.
  apply (proj1 (proj2 (proj2 (proj2
           (clean_characterized (fun t => t) false
              (py "(a) http://b  @c #d ★e")))))).
  reflexivity.
Defined.
